(** * mcp-filesystem-remote: sandboxed filesystem access engine

    A shallow embedding of the path guard ([validatePath]), the patch engine
    ([applyFileEdits]), the stream readers ([tailFile], [headFile]), the
    content cache ([FileCache]), the recursive search ([searchFiles]) and the
    [read_file] tool handler, with the properties of the specification stated
    and settled against them.

    Conventions.  A JavaScript string is a [text]: the list of its code
    units, each below 256.  Files hold single-byte text, so that the bytes of
    a file and the code units of its decoded content coincide.  A rejected
    promise or a thrown exception is the [Err] case of [result]. *)

From Stdlib Require Import List Ascii ZArith NArith Lia Bool Arith PeanoNat.
From Stdlib Require String.
Import String.StringSyntax.
Import ListNotations.

Set Implicit Arguments.

(** ** Results and exceptions *)

Inductive result (E A : Type) : Type :=
| Ok (a : A)
| Err (e : E).
Arguments Ok {E A} a.
Arguments Err {E A} e.

Definition bind {E A B} (m : result E A) (k : A -> result E B) : result E B :=
  match m with
  | Ok a => k a
  | Err e => Err e
  end.

(** [try { m } catch (e) { h e }] *)
Definition try_catch {E A} (m : result E A) (h : E -> result E A) : result E A :=
  match m with
  | Ok a => Ok a
  | Err e => h e
  end.

Declare Scope exn_scope.
Delimit Scope exn_scope with exn.
Notation "x <- m ;; k" := (bind m (fun x => k))
  (at level 61, m at next level, right associativity) : exn_scope.

(** ** JavaScript strings *)

Definition text := list ascii.
Definition str (s : String.string) : text := String.list_ascii_of_string s.
Arguments str s%_string_scope.

Definition LF : ascii := "010"%char.
Definition CR : ascii := "013"%char.

Module Str.

Definition eqb (a b : text) : bool :=
  if list_eq_dec ascii_dec a b then true else false.

(** [s.startsWith(p)] *)
Fixpoint startsWith (s p : text) {struct p} : bool :=
  match p, s with
  | [], _ => true
  | _ :: _, [] => false
  | c :: p', d :: s' => Ascii.eqb c d && startsWith s' p'
  end.

(** [s.indexOf(p)], [None] for -1 *)
Fixpoint indexOf (s p : text) : option nat :=
  if startsWith s p then Some 0
  else match s with
       | [] => None
       | _ :: s' => option_map S (indexOf s' p)
       end.

(** [s.includes(p)] *)
Definition includes (s p : text) : bool :=
  match indexOf s p with Some _ => true | None => false end.

(** [s.split(c)] for a one-character separator: never empty. *)
Fixpoint split (c : ascii) (s : text) : list text :=
  match s with
  | [] => [[]]
  | x :: s' =>
      if Ascii.eqb x c then [] :: split c s'
      else match split c s' with
           | l :: ls => (x :: l) :: ls
           | [] => [[x]]
           end
  end.

(** [lines.join(sep)] *)
Fixpoint join (sep : text) (ls : list text) : text :=
  match ls with
  | [] => []
  | [l] => l
  | l :: ls' => l ++ sep ++ join sep ls'
  end.

(** The code units below 256 that [\s] and [trim] treat as white space:
    TAB, LF, VT, FF, CR, SP and NBSP. *)
Definition isSpace (c : ascii) : bool :=
  let n := nat_of_ascii c in
  ((9 <=? n) && (n <=? 13)) || (n =? 32) || (n =? 160).

(** [s.match(/^\s*/)[0]] *)
Fixpoint leadingSpace (s : text) : text :=
  match s with
  | c :: s' => if isSpace c then c :: leadingSpace s' else []
  | [] => []
  end.

Fixpoint trimStart (s : text) : text :=
  match s with
  | c :: s' => if isSpace c then trimStart s' else s
  | [] => []
  end.

Definition trimEnd (s : text) : text := rev (trimStart (rev s)).

Definition trim (s : text) : text := trimEnd (trimStart s).

(** [GetSubstitution] of ECMAScript for a string pattern (no captures):
    [$$], [$&], [$`] and [$'] are expanded, every other [$] is literal. *)
Fixpoint getSubstitution (matched before after repl : text) : text :=
  match repl with
  | [] => []
  | c :: r =>
      if Ascii.eqb c "$" then
        match r with
        | d :: r' =>
            if Ascii.eqb d "$" then "$"%char :: getSubstitution matched before after r'
            else if Ascii.eqb d "&" then matched ++ getSubstitution matched before after r'
            else if Ascii.eqb d "`" then before ++ getSubstitution matched before after r'
            else if Ascii.eqb d "'" then after ++ getSubstitution matched before after r'
            else c :: getSubstitution matched before after r
        | [] => [c]
        end
      else c :: getSubstitution matched before after r
  end.

(** [s.replace(pat, repl)] with a string pattern: first occurrence only. *)
Definition replace (s pat repl : text) : text :=
  match indexOf s pat with
  | None => s
  | Some pos =>
      let before := firstn pos s in
      let after := skipn (pos + length pat) s in
      before ++ getSubstitution pat before after repl ++ after
  end.

(** [s.replace(/\r\n/g, "\n")]: one left-to-right pass. *)
Fixpoint replaceCRLF (s : text) : text :=
  match s with
  | [] => []
  | c :: s' =>
      if Ascii.eqb c CR then
        match s' with
        | d :: s'' => if Ascii.eqb d LF then LF :: replaceCRLF s'' else c :: replaceCRLF s'
        | [] => [c]
        end
      else c :: replaceCRLF s'
  end.

(** [c.toLowerCase()] on code units below 256. *)
Definition lowerChar (c : ascii) : ascii :=
  let n := nat_of_ascii c in
  if ((65 <=? n) && (n <=? 90))
     || ((192 <=? n) && (n <=? 222) && negb (n =? 215))
  then ascii_of_nat (n + 32) else c.

Definition toLowerCase (s : text) : text := map lowerChar s.

(** [Buffer.byteLength(s, "utf-8")] *)
Definition byteLength (s : text) : nat :=
  list_sum (map (fun c => if nat_of_ascii c <? 128 then 1 else 2) s).

End Str.

(** ** POSIX paths, after Node's [path] module *)

Module Path.

Definition slash : ascii := "/"%char.

Definition isAbsolute (p : text) : bool :=
  match p with
  | c :: _ => Ascii.eqb c slash
  | [] => false
  end.

(** One segment of [normalizeString]: the stack holds the segments kept so
    far, last one first. *)
Definition normStep (allowAboveRoot : bool) (stack : list text) (seg : text)
  : list text :=
  if Str.eqb seg [] || Str.eqb seg (str ".") then stack
  else if Str.eqb seg (str "..") then
    match stack with
    | top :: rest =>
        if Str.eqb top (str "..")
        then (if allowAboveRoot then seg :: stack else stack)
        else rest
    | [] => if allowAboveRoot then [seg] else []
    end
  else seg :: stack.

Definition normalizeString (p : text) (allowAboveRoot : bool) : text :=
  Str.join [slash]
    (rev (fold_left (normStep allowAboveRoot) (Str.split slash p) [])).

Definition endsWithSlash (p : text) : bool :=
  match rev p with
  | c :: _ => Ascii.eqb c slash
  | [] => false
  end.

(** [path.normalize(p)] *)
Definition normalize (p : text) : text :=
  match p with
  | [] => str "."
  | _ =>
      let abs := isAbsolute p in
      let trailing := endsWithSlash p in
      let q := normalizeString p (negb abs) in
      match q with
      | [] => if abs then [slash] else if trailing then str "./" else str "."
      | _ =>
          let q' := if trailing then q ++ [slash] else q in
          if abs then slash :: q' else q'
      end
  end.

(** The right-to-left loop of [path.resolve]; [args] is given last
    argument first and ends with the process working directory. *)
Fixpoint resolveLoop (args : list text) (resolved : text) : text * bool :=
  match args with
  | [] => (resolved, false)
  | p :: rest =>
      match p with
      | [] => resolveLoop rest resolved
      | _ =>
          let resolved' := p ++ [slash] ++ resolved in
          if isAbsolute p then (resolved', true)
          else resolveLoop rest resolved'
      end
  end.

(** [path.resolve(...args)], [cwd] being [process.cwd()] *)
Definition resolve (cwd : text) (args : list text) : text :=
  let '(resolved, abs) := resolveLoop (rev args ++ [cwd]) [] in
  let q := normalizeString resolved (negb abs) in
  if abs then slash :: q
  else match q with [] => str "." | _ => q end.

(** [path.join(...args)] *)
Definition join (args : list text) : text :=
  match filter (fun a => negb (Str.eqb a [])) args with
  | [] => str "."
  | parts => normalize (Str.join [slash] parts)
  end.

(** The backward scan of [path.dirname]: [rest] is the path without its
    first character, reversed; the result is the index [end], if any. *)
Fixpoint dirnameScan (rest : list ascii) (i : nat) (matchedSlash : bool)
  : option nat :=
  match rest with
  | [] => None
  | c :: rest' =>
      if Ascii.eqb c slash then
        if matchedSlash then dirnameScan rest' (i - 1) matchedSlash
        else Some i
      else dirnameScan rest' (i - 1) false
  end.

(** [path.dirname(p)] *)
Definition dirname (p : text) : text :=
  match p with
  | [] => str "."
  | _ :: tl =>
      let hasRoot := isAbsolute p in
      match dirnameScan (rev tl) (length p - 1) true with
      | None => if hasRoot then [slash] else str "."
      | Some e =>
          if hasRoot && (e =? 1) then str "//" else firstn e p
      end
  end.

End Path.

(** ** Errors *)

(** The exceptions that cross the functions below: the two [FileSystemError]
    subclasses thrown by the path guard, a Node system error (a failed
    [realpath], [stat], [open], [readdir] or [readFile]) and a plain
    [Error] carrying its message. *)
Inductive exn : Type :=
| PermissionDeniedError (path operation internalPath : text)
| FileNotFoundError (path internalPath : text)
| SystemError (syscall path : text)
| Error (message : text).

Definition isPermissionDenied (e : exn) : bool :=
  match e with
  | PermissionDeniedError _ _ _ => true
  | _ => false
  end.

(** ** PathGuard: [validatePath] *)

Module Security.
Section Guard.

(** [os.homedir()], [process.cwd()] and the symbolic-link view of the file
  system: [realpath p] is [None] when [fs.realpath] rejects. *)
Variable homedir : text.
Variable cwd : text.
Variable realpath : text -> option text.

Definition fs_realpath (p : text) : result exn text :=
match realpath p with
| Some r => Ok r
| None => Err (SystemError (str "realpath") p)
end.

Definition normalizePath (p : text) : text := Path.normalize p.

Definition expandHome (filepath : text) : text :=
if Str.startsWith filepath (str "~/") || Str.eqb filepath (str "~")
then Path.join [homedir; skipn 1 filepath]
else filepath.

(** [allowedDirectories.some((dir) => p.startsWith(dir))] *)
Definition someStartsWith (allowedDirectories : list text) (p : text) : bool :=
existsb (fun dir => Str.startsWith p dir) allowedDirectories.

Definition absoluteOf (workingDirectory requestedPath : text) : text :=
let expandedPath := expandHome requestedPath in
if Path.isAbsolute expandedPath
then Path.resolve cwd [expandedPath]
else Path.resolve cwd [workingDirectory; expandedPath].

Definition opAccess : text := str "access".
Definition opSymlink : text :=
str "access (symlink target outside allowed directories)".
Definition opParent : text :=
str "access (parent directory outside allowed directories)".

(** [validatePath] of [filesystem/security.ts]. *)
Definition validatePath (requestedPath : text) (allowedDirectories : list text)
         (workingDirectory : text) : result exn text :=
let absolute := absoluteOf workingDirectory requestedPath in
let normalizedRequested := normalizePath absolute in
let isAllowed := someStartsWith allowedDirectories normalizedRequested in
if negb isAllowed then
  Err (PermissionDeniedError requestedPath opAccess absolute)
else
  try_catch
    (realPath <- fs_realpath absolute ;;
     let normalizedReal := normalizePath realPath in
     let isRealPathAllowed := someStartsWith allowedDirectories normalizedReal in
     if negb isRealPathAllowed then
       Err (PermissionDeniedError requestedPath opSymlink realPath)
     else Ok realPath)%exn
    (fun error =>
       if isPermissionDenied error then Err error
       else
         let parentDir := Path.dirname absolute in
         try_catch
           (realParentPath <- fs_realpath parentDir ;;
            let normalizedParent := normalizePath realParentPath in
            let isParentAllowed :=
              someStartsWith allowedDirectories normalizedParent in
            if negb isParentAllowed then
              Err (PermissionDeniedError requestedPath opParent realParentPath)
            else Ok absolute)%exn
           (fun parentError =>
              if isPermissionDenied parentError then Err parentError
              else Err (FileNotFoundError requestedPath parentDir))).

(** The monolithic server keeps the roots in a module-level constant and
  resolves relative paths against [process.cwd()]. *)
Variable allowedDirectories : list text.

Definition msgOutside (absolute : text) : text :=
str "Access denied - path outside allowed directories: " ++ absolute
  ++ str " not in " ++ Str.join (str ", ") allowedDirectories.
Definition msgSymlink : text :=
str "Access denied - symlink target outside allowed directories".
Definition msgParent : text :=
str "Access denied - parent directory outside allowed directories".
Definition msgNoParent (parentDir : text) : text :=
str "Parent directory does not exist: " ++ parentDir.

(** [validatePath] of the monolithic server: both [catch] clauses are
  unconditional. *)
Definition validatePathLegacy (requestedPath : text) : result exn text :=
let absolute := absoluteOf cwd requestedPath in
let normalizedRequested := normalizePath absolute in
let isAllowed := someStartsWith allowedDirectories normalizedRequested in
if negb isAllowed then Err (Error (msgOutside absolute))
else
  try_catch
    (realPath <- fs_realpath absolute ;;
     let normalizedReal := normalizePath realPath in
     let isRealPathAllowed := someStartsWith allowedDirectories normalizedReal in
     if negb isRealPathAllowed then Err (Error msgSymlink)
     else Ok realPath)%exn
    (fun _ =>
       let parentDir := Path.dirname absolute in
       try_catch
         (realParentPath <- fs_realpath parentDir ;;
          let normalizedParent := normalizePath realParentPath in
          let isParentAllowed :=
            someStartsWith allowedDirectories normalizedParent in
          if negb isParentAllowed then Err (Error msgParent)
          else Ok absolute)%exn
         (fun _ => Err (Error (msgNoParent parentDir)))).

End Guard.

(** Containment as the specification words it: the path equals the root, or
  starts with the root followed immediately by a path separator. *)
Definition segmentContained (root p : text) : bool :=
Str.eqb p root || Str.startsWith p (root ++ [Path.slash]).

Definition underSomeRoot (roots : list text) (p : text) : bool :=
existsb (fun root => segmentContained root p) roots.

End Security.

(** ** PatchEngine and StreamReader: [filesystem/operations.ts] *)

Module Operations.

Definition normalizeLineEndings (t : text) : text := Str.replaceCRLF t.

Record edit : Type := { oldText : text; newText : text }.

(** The files the operations read and write: a path holds a content or
    does not exist.  The content is the bytes of the file; read as a whole
    ([fs.readFile(path, "utf-8")]) they are taken as the text, so the files
    meant are those of single-byte text.  Where the code decodes a part of
    the file on its own, the decoding is explicit (see [toString] below). *)
Definition files : Type := text -> option text.

Definition readFile (fs : files) (p : text) : result exn text :=
  match fs p with
  | Some c => Ok c
  | None => Err (SystemError (str "open") p)
  end.

Definition writeFile (fs : files) (p c : text) : files :=
  fun q => if Str.eqb q p then Some c else fs q.

Definition backticks (n : nat) : text := repeat "`"%char n.

Fixpoint mapiFrom {A B} (j : nat) (f : A -> nat -> B) (l : list A) : list B :=
  match l with
  | [] => []
  | x :: l' => f x j :: mapiFrom (S j) f l'
  end.

Section Patch.

(** [createTwoFilesPatch] of the [diff] package. *)
Variable createTwoFilesPatch : text -> text -> text -> text -> text -> text -> text.

(** [true] for [filesystem/operations.ts], whose window test reads
    [contentLine && oldLine.trim() === contentLine.trim()]; [false] for
    the monolithic server, which compares the trimmed lines only. *)
Variable requireContent : bool.

Definition createUnifiedDiff (originalContent newContent filepath : text) : text :=
  let normalizedOriginal := normalizeLineEndings originalContent in
  let normalizedNew := normalizeLineEndings newContent in
  createTwoFilesPatch filepath filepath normalizedOriginal normalizedNew
    (str "original") (str "modified").

Definition lineMatches (oldLine contentLine : text) : bool :=
  (if requireContent then negb (Str.eqb contentLine []) else true)
  && Str.eqb (Str.trim oldLine) (Str.trim contentLine).

(** [oldLines.every((oldLine, j) => ... potentialMatch[j] ...)] *)
Fixpoint everyLine (oldLines potentialMatch : list text) : bool :=
  match oldLines with
  | [] => true
  | o :: os =>
      match potentialMatch with
      | c :: cs => lineMatches o c && everyLine os cs
      | [] => false
      end
  end.

Definition isEmpty (t : text) : bool :=
  match t with [] => true | _ => false end.

Definition reindent (originalIndent : text) (oldLines : list text)
           (line : text) (j : nat) : text :=
  if j =? 0 then originalIndent ++ Str.trimStart line
  else
    let oldIndent :=
      match nth_error oldLines j with
      | Some o => Str.leadingSpace o
      | None => []
      end in
    let newIndent := Str.leadingSpace line in
    if negb (isEmpty oldIndent) && negb (isEmpty newIndent) then
      let relativeIndent := length newIndent - length oldIndent in
      originalIndent ++ repeat " "%char relativeIndent ++ Str.trimStart line
    else line.

(** The window loop: [before] holds [contentLines[0..i)] reversed and
    [rest] is [contentLines[i..]]. *)
Fixpoint fuzzyScan (oldLines : list text) (normalizedNew : text)
         (before rest : list text) : option (list text) :=
  if length oldLines <=? length rest then
    let potentialMatch := firstn (length oldLines) rest in
    if everyLine oldLines potentialMatch then
      let originalIndent := Str.leadingSpace (hd [] rest) in
      let newLines :=
        mapiFrom 0 (reindent originalIndent oldLines)
                 (Str.split LF normalizedNew) in
      Some (rev before ++ newLines ++ skipn (length oldLines) rest)
    else
      match rest with
      | [] => None
      | l :: rest' => fuzzyScan oldLines normalizedNew (l :: before) rest'
      end
  else None.

Definition fuzzyReplace (modifiedContent normalizedOld normalizedNew : text)
  : option text :=
  let oldLines := Str.split LF normalizedOld in
  let contentLines := Str.split LF modifiedContent in
  option_map (Str.join [LF]) (fuzzyScan oldLines normalizedNew [] contentLines).

Definition msgNoMatch (e : edit) : text :=
  str "Could not find exact match for edit:" ++ [LF] ++ oldText e.

(** One turn of the [for (const edit of edits)] loop. *)
Definition applyEdit (modifiedContent : text) (e : edit) : result exn text :=
  let normalizedOld := normalizeLineEndings (oldText e) in
  let normalizedNew := normalizeLineEndings (newText e) in
  if Str.includes modifiedContent normalizedOld then
    Ok (Str.replace modifiedContent normalizedOld normalizedNew)
  else
    match fuzzyReplace modifiedContent normalizedOld normalizedNew with
    | Some c => Ok c
    | None => Err (Error (msgNoMatch e))
    end.

Fixpoint applyEdits (modifiedContent : text) (edits : list edit)
  : result exn text :=
  match edits with
  | [] => Ok modifiedContent
  | e :: es =>
      (c <- applyEdit modifiedContent e ;; applyEdits c es)%exn
  end.

(** [while (diff.includes("`".repeat(numBackticks))) numBackticks++] *)
Fixpoint growBackticks (fuel numBackticks : nat) (diff : text) : nat :=
  match fuel with
  | 0 => numBackticks
  | S fuel' =>
      if Str.includes diff (backticks numBackticks)
      then growBackticks fuel' (S numBackticks) diff
      else numBackticks
  end.

Definition formatDiff (diff : text) : text :=
  let numBackticks := growBackticks (S (length diff)) 3 diff in
  backticks numBackticks ++ str "diff" ++ [LF] ++ diff
    ++ backticks numBackticks ++ [LF; LF].

(** [applyFileEdits]: the answer of the call and the files afterwards. *)
Definition applyFileEdits (fs : files) (filePath : text) (edits : list edit)
           (dryRun : bool) : result exn text * files :=
  match readFile fs filePath with
  | Err e => (Err e, fs)
  | Ok raw =>
      let content := normalizeLineEndings raw in
      match applyEdits content edits with
      | Err e => (Err e, fs)
      | Ok modifiedContent =>
          let diff := createUnifiedDiff content modifiedContent filePath in
          let formattedDiff := formatDiff diff in
          if negb dryRun
          then (Ok formattedDiff, writeFile fs filePath modifiedContent)
          else (Ok formattedDiff, fs)
      end
  end.

End Patch.

Definition CHUNK_SIZE : nat := 1024.

(** [for (let i = chunkLines.length - 1; i >= 0 && linesFound < numLines; i--)]:
    the chunk's lines are given last one first. *)
Fixpoint unshiftLoop (numLines : nat) (revChunkLines lines : list text)
         (linesFound : nat) : list text * nat :=
  match revChunkLines with
  | [] => (lines, linesFound)
  | l :: r =>
      if linesFound <? numLines
      then unshiftLoop numLines r (l :: lines) (S linesFound)
      else (lines, linesFound)
  end.

Fixpoint lastIndexOfFrom (c : ascii) (s : text) (i : nat) (found : option nat)
  : option nat :=
  match s with
  | [] => found
  | x :: s' =>
      lastIndexOfFrom c s' (S i) (if Ascii.eqb x c then Some i else found)
  end.

(** [buffer.lastIndexOf("\n")], [None] for -1 *)
Definition lastIndexOf (c : ascii) (s : text) : option nat :=
  lastIndexOfFrom c s 0 None.

(** [for (const line of completeLines) { lines.push(line); if (...) break; }] *)
Fixpoint pushLoop (numLines : nat) (completeLines lines : list text) : list text :=
  match completeLines with
  | [] => lines
  | l :: r =>
      let lines' := lines ++ [l] in
      if numLines <=? length lines' then lines' else pushLoop numLines r lines'
  end.

Section Reads.

(** [chunk.slice(0, bytesRead).toString("utf-8")]: the text that a run of
    bytes read from the file decodes to.  Every read is decoded on its own,
    so a character whose bytes two reads share does not come out as it went
    in; a run of 7-bit bytes decodes to itself. *)
Variable toString : text -> text.

(** The [while (position > 0 && linesFound < numLines)] loop of [tailFile],
    reading chunks of [chunkSize] bytes backwards; [content] holds the bytes
    of the file. *)
Fixpoint tailLoop (fuel chunkSize : nat) (content : text) (numLines : nat)
         (lines : list text) (position linesFound : nat) (remainingText : text)
  : list text :=
  match fuel with
  | 0 => lines
  | S fuel' =>
      if (0 <? position) && (linesFound <? numLines) then
        let size := Nat.min chunkSize position in
        let position := position - size in
        let chunk := firstn size (skipn position content) in
        if length chunk =? 0 then lines
        else
          let readData := toString chunk in
          let chunkText := readData ++ remainingText in
          let chunkLines := Str.split LF (normalizeLineEndings chunkText) in
          let '(remainingText, chunkLines) :=
            if 0 <? position then (hd [] chunkLines, tl chunkLines)
            else (remainingText, chunkLines) in
          let '(lines, linesFound) :=
            unshiftLoop numLines (rev chunkLines) lines linesFound in
          tailLoop fuel' chunkSize content numLines lines position linesFound
                   remainingText
      else lines
  end.

(** [tailFile] on the bytes of the file. *)
Definition tailText (content : text) (numLines : nat) : text :=
  let fileSize := length content in
  if fileSize =? 0 then []
  else Str.join [LF]
         (tailLoop fileSize CHUNK_SIZE content numLines [] fileSize 0 []).

Definition tailFile (fs : files) (filePath : text) (numLines : nat)
  : result exn text :=
  match fs filePath with
  | None => Err (SystemError (str "stat") filePath)
  | Some content => Ok (tailText content numLines)
  end.

(** The [while (lines.length < numLines)] loop of [headFile]. *)
Fixpoint headLoop (fuel : nat) (content : text) (numLines : nat)
         (lines : list text) (buffer : text) (bytesRead : nat)
  : list text * text :=
  match fuel with
  | 0 => (lines, buffer)
  | S fuel' =>
      if length lines <? numLines then
        let chunk := firstn 1024 (skipn bytesRead content) in
        if length chunk =? 0 then (lines, buffer)
        else
          let bytesRead := bytesRead + length chunk in
          let buffer := buffer ++ toString chunk in
          match lastIndexOf LF buffer with
          | Some newLineIndex =>
              let completeLines := Str.split LF (firstn newLineIndex buffer) in
              let buffer := skipn (newLineIndex + 1) buffer in
              headLoop fuel' content numLines
                       (pushLoop numLines completeLines lines) buffer bytesRead
          | None => headLoop fuel' content numLines lines buffer bytesRead
          end
      else (lines, buffer)
  end.

Definition headText (content : text) (numLines : nat) : text :=
  let '(lines, buffer) :=
    headLoop (S (length content)) content numLines [] [] 0 in
  let lines :=
    if (0 <? length buffer) && (length lines <? numLines)
    then lines ++ [buffer] else lines in
  Str.join [LF] lines.

Definition headFile (fs : files) (filePath : text) (numLines : nat)
  : result exn text :=
  match fs filePath with
  | None => Err (SystemError (str "open") filePath)
  | Some content => Ok (headText content numLines)
  end.

End Reads.

End Operations.

(** ** The [lru-cache] package, as far as [FileCache] uses it *)

Module LRU.
Section Lru.

Variable V : Type.

(** An entry with the instant its age was last reset. *)
Record slot : Type := { key : text; value : V; start : Z }.

(** [slots] is kept most recently used first, the order in which [keys()]
  yields; every key occurs once. *)
Record t : Type := { max : N; ttl : Z; slots : list slot }.

Definition empty (max : N) (ttl : Z) : t :=
{| max := max; ttl := ttl; slots := [] |}.

Definition withSlots (c : t) (l : list slot) : t :=
{| max := max c; ttl := ttl c; slots := l |}.

Definition size (c : t) : nat := length (slots c).

(** [#isStale]: [!!ttl && !!start && now - start > ttl] *)
Definition isStale (c : t) (now : Z) (s : slot) : bool :=
negb (ttl c =? 0)%Z && negb (start s =? 0)%Z && (ttl c <? now - start s)%Z.

Definition startAt (c : t) (now : Z) : Z :=
if (ttl c =? 0)%Z then 0%Z else now.

Definition lookup (k : text) (l : list slot) : option slot :=
find (fun s => Str.eqb (key s) k) l.

Definition remove (k : text) (l : list slot) : list slot :=
filter (fun s => negb (Str.eqb (key s) k)) l.

(** [get(k)] with [updateAgeOnGet]: the value, the values handed to
  [dispose], and the cache afterwards. *)
Definition get (now : Z) (k : text) (c : t) : option V * list V * t :=
match lookup k (slots c) with
| None => (None, [], c)
| Some s =>
    if isStale c now s
    then (None, [value s], withSlots c (remove k (slots c)))
    else (Some (value s), [],
          withSlots c ({| key := k; value := value s; start := startAt c now |}
                         :: remove k (slots c)))
end.

(** [set(k, v)]: a replaced value is disposed; a new key in a full cache
  evicts the least recently used entry. *)
Definition set (now : Z) (k : text) (v : V) (c : t) : list V * t :=
let fresh := {| key := k; value := v; start := startAt c now |} in
match lookup k (slots c) with
| Some s => ([value s], withSlots c (fresh :: remove k (slots c)))
| None =>
    if (N.of_nat (size c) =? max c)%N && (0 <? size c)
    then (map value (skipn (size c - 1) (slots c)),
          withSlots c (fresh :: removelast (slots c)))
    else ([], withSlots c (fresh :: slots c))
end.

(** [delete(k)] *)
Definition delete (k : text) (c : t) : list V * t :=
match lookup k (slots c) with
| Some s => ([value s], withSlots c (remove k (slots c)))
| None => ([], c)
end.

(** [clear()]: every entry is disposed, least recently used first. *)
Definition clear (c : t) : list V * t :=
(map value (rev (slots c)), withSlots c []).

(** [keys()]: most recently used first, stale entries skipped. *)
Definition keys (now : Z) (c : t) : list text :=
map key (filter (fun s => negb (isStale c now s)) (slots c)).

End Lru.
End LRU.

(** ** FileCache: [cache/FileCache.ts] *)

Module Cache.

Record CacheConfig : Type := { enabled : bool; ttl : Z; maxSize : Z }.

Record CacheEntry : Type := { content : text; mtime : Z; size : Z }.

Record CacheMetadata : Type := { mpath : text; mmtime : Z; msize : Z }.

(** The counters of [this.stats]; its [currentSize] and [entryCount]
    fields are recomputed by [getStats]. *)
Record Counters : Type := { hits : nat; misses : nat; evictions : nat }.

Record CacheStats : Type :=
  { sHits : nat; sMisses : nat; sEvictions : nat;
    sCurrentSize : Z; sEntryCount : nat }.

(** What [fs.stat] answers for a file. *)
Record Stats : Type := { mtimeMs : Z; statSize : Z }.

Record FileCache : Type :=
  { config : CacheConfig;
    contentCache : LRU.t CacheEntry;
    metadataCache : LRU.t CacheMetadata;
    currentSize : Z;
    stats : Counters }.

(** [new FileCache(config)], for a [ttl] that [LRUCache] takes: an integer
    that is not negative. *)
Definition create (cfg : CacheConfig) : FileCache :=
  {| config := cfg;
     contentCache := LRU.empty CacheEntry 10000%N (ttl cfg);
     metadataCache := LRU.empty CacheMetadata 50000%N (ttl cfg);
     currentSize := 0;
     stats := {| hits := 0; misses := 0; evictions := 0 |} |}.

Definition withContent (fc : FileCache) (cc : LRU.t CacheEntry) : FileCache :=
  {| config := config fc; contentCache := cc;
     metadataCache := metadataCache fc;
     currentSize := currentSize fc; stats := stats fc |}.

Definition withMetadata (fc : FileCache) (mc : LRU.t CacheMetadata) : FileCache :=
  {| config := config fc; contentCache := contentCache fc;
     metadataCache := mc;
     currentSize := currentSize fc; stats := stats fc |}.

Definition withCurrentSize (fc : FileCache) (n : Z) : FileCache :=
  {| config := config fc; contentCache := contentCache fc;
     metadataCache := metadataCache fc;
     currentSize := n; stats := stats fc |}.

Definition withStats (fc : FileCache) (s : Counters) : FileCache :=
  {| config := config fc; contentCache := contentCache fc;
     metadataCache := metadataCache fc;
     currentSize := currentSize fc; stats := s |}.

Definition countMiss (fc : FileCache) : FileCache :=
  withStats fc {| hits := hits (stats fc); misses := S (misses (stats fc));
                  evictions := evictions (stats fc) |}.

Definition countHit (fc : FileCache) : FileCache :=
  withStats fc {| hits := S (hits (stats fc)); misses := misses (stats fc);
                  evictions := evictions (stats fc) |}.

(** The [dispose] callback of the content cache. *)
Definition dispose (fc : FileCache) (v : CacheEntry) : FileCache :=
  withStats (withCurrentSize fc (currentSize fc - size v))
    {| hits := hits (stats fc); misses := misses (stats fc);
       evictions := S (evictions (stats fc)) |}.

Definition disposeAll (fc : FileCache) (vs : list CacheEntry) : FileCache :=
  fold_left dispose vs fc.

Definition contentGet (fc : FileCache) (now : Z) (k : text)
  : option CacheEntry * FileCache :=
  let '(entry, disposed, cc) := LRU.get now k (contentCache fc) in
  (entry, disposeAll (withContent fc cc) disposed).

Definition contentDelete (fc : FileCache) (k : text) : FileCache :=
  let '(disposed, cc) := LRU.delete k (contentCache fc) in
  disposeAll (withContent fc cc) disposed.

Definition contentSet (fc : FileCache) (now : Z) (k : text) (v : CacheEntry)
  : FileCache :=
  let '(disposed, cc) := LRU.set now k v (contentCache fc) in
  disposeAll (withContent fc cc) disposed.

(** [invalidate(filePath)] *)
Definition invalidate (fc : FileCache) (filePath : text) (now : Z) : FileCache :=
  let '(entry, fc) := contentGet fc now filePath in
  let fc :=
    match entry with
    | Some e => withCurrentSize fc (currentSize fc - size e)
    | None => fc
    end in
  let fc := contentDelete fc filePath in
  withMetadata fc (snd (LRU.delete filePath (metadataCache fc))).

(** [invalidateAll()] *)
Definition invalidateAll (fc : FileCache) : FileCache :=
  let '(disposed, cc) := LRU.clear (contentCache fc) in
  let fc := disposeAll (withContent fc cc) disposed in
  let fc := withMetadata fc (snd (LRU.clear (metadataCache fc))) in
  withCurrentSize fc 0.

(** [get(filePath)]: [now] is the instant of the lookup, [later] the
    instant at which [fs.stat] has answered [st]. *)
Definition get (fc : FileCache) (filePath : text) (now later : Z)
           (st : option Stats) : option text * FileCache :=
  if negb (enabled (config fc)) then (None, fc)
  else
    let '(entry, fc) := contentGet fc now filePath in
    match entry with
    | None => (None, countMiss fc)
    | Some entry =>
        match st with
        | Some s =>
            if negb (mtimeMs s =? mtime entry)%Z
            then (None, countMiss (invalidate fc filePath later))
            else (Some (content entry), countHit fc)
        | None => (None, countMiss (invalidate fc filePath later))
        end
    end.

(** [getOldestKey()]: the last key that [keys()] yields. *)
Definition getOldestKey (fc : FileCache) (now : Z) : option text :=
  last (map Some (LRU.keys now (contentCache fc))) None.

(** The eviction loop at the head of [set]. *)
Fixpoint evictLoop (fuel : nat) (fc : FileCache) (size : Z) (now : Z) : FileCache :=
  match fuel with
  | 0 => fc
  | S fuel' =>
      if (maxSize (config fc) <? currentSize fc + size)%Z
         && (0 <? LRU.size (contentCache fc))
      then
        match getOldestKey fc now with
        | Some (c :: k) => evictLoop fuel' (contentDelete fc (c :: k)) size now
        | _ => fc
        end
      else fc
  end.

(** [set(filePath, content)]: [st] is the answer of [fs.stat], [now] the
    instant at which it arrives. *)
Definition set (fc : FileCache) (filePath content : text) (now : Z)
           (st : option Stats) : FileCache :=
  if negb (enabled (config fc)) then fc
  else
    match st with
    | None => fc
    | Some s =>
        let mtime := mtimeMs s in
        let size := Z.of_nat (Str.byteLength content) in
        let fc := evictLoop (LRU.size (contentCache fc)) fc size now in
        if (maxSize (config fc) <? size)%Z then fc
        else
          let entry := {| content := content; mtime := mtime; size := size |} in
          let fc := contentSet fc now filePath entry in
          let fc := withCurrentSize fc (currentSize fc + size) in
          withMetadata fc
            (snd (LRU.set now filePath
                    {| mpath := filePath; mmtime := mtime; msize := statSize s |}
                    (metadataCache fc)))
    end.

Definition getStats (fc : FileCache) : CacheStats :=
  {| sHits := hits (stats fc); sMisses := misses (stats fc);
     sEvictions := evictions (stats fc);
     sCurrentSize := currentSize fc;
     sEntryCount := LRU.size (contentCache fc) |}.

(** [getMetadata(filePath)]: the metadata cache has no [dispose]. *)
Definition getMetadata (fc : FileCache) (filePath : text) (now : Z)
           (st : option Stats) : option CacheMetadata * FileCache :=
  if negb (enabled (config fc)) then (None, fc)
  else
    let '(metadata, _, mc) := LRU.get now filePath (metadataCache fc) in
    let fc := withMetadata fc mc in
    match metadata with
    | None => (None, fc)
    | Some metadata =>
        match st with
        | Some s =>
            if negb (mtimeMs s =? mmtime metadata)%Z
            then (None, withMetadata fc (snd (LRU.delete filePath (metadataCache fc))))
            else (Some metadata, fc)
        | None =>
            (None, withMetadata fc (snd (LRU.delete filePath (metadataCache fc))))
        end
    end.

(** A call on the cache, with what the environment answers during it. *)
Inductive op : Type :=
| Get (filePath : text) (now later : Z) (st : option Stats)
| Set_ (filePath content : text) (now : Z) (st : option Stats)
| Invalidate (filePath : text) (now : Z)
| InvalidateAll.

Definition step (fc : FileCache) (o : op) : FileCache :=
  match o with
  | Get p now later st => snd (get fc p now later st)
  | Set_ p c now st => set fc p c now st
  | Invalidate p now => invalidate fc p now
  | InvalidateAll => invalidateAll fc
  end.

Definition run (fc : FileCache) (ops : list op) : FileCache :=
  fold_left step ops fc.

(** The entries of the content cache and the sum of their sizes. *)
Definition entries (fc : FileCache) : list (text * CacheEntry) :=
  map (fun s => (LRU.key s, LRU.value s)) (LRU.slots (contentCache fc)).

Definition liveSize (fc : FileCache) : Z :=
  fold_right Z.add 0%Z (map (fun e => size (snd e)) (entries fc)).

End Cache.

(** ** Searcher: [searchFiles] *)

Module Search.

(** What [fs.readdir(dir, { withFileTypes: true })] yields, unfolded into
    the tree below a directory; a [listing] is [None] where [readdir]
    rejects. *)
#[local] Unset Elimination Schemes.
Inductive dirent : Type :=
| FileEnt (name : text)
| DirEnt (name : text) (listing : option (list dirent)).
#[local] Set Elimination Schemes.

(** Induction over a directory tree. *)
Section DirentInd.
Variable P : dirent -> Prop.
Hypothesis Hfile : forall n, P (FileEnt n).
Hypothesis Hclosed : forall n, P (DirEnt n None).
Hypothesis Hdir : forall n es, Forall P es -> P (DirEnt n (Some es)).

Fixpoint dirent_ind (e : dirent) : P e :=
  match e with
  | FileEnt n => Hfile n
  | DirEnt n None => Hclosed n
  | DirEnt n (Some es) =>
      @Hdir n es
           ((fix all (es : list dirent) : Forall P es :=
               match es with
               | [] => Forall_nil P
               | e :: es' => Forall_cons e (dirent_ind e) (all es')
               end) es)
  end.
End DirentInd.

Definition entryName (e : dirent) : text :=
  match e with
  | FileEnt n => n
  | DirEnt n _ => n
  end.

(** The [results] array, the number of steps taken so far (an awaited answer
    of the file system, or one entry taken up by the loop), and whether the
    callback of the timer has run ([abortController.signal.aborted]). *)
Record state : Type := { results : list text; clock : nat; aborted : bool }.

(** One more step has been taken: time has passed. *)
Definition tick (st : state) : state :=
  {| results := results st; clock := S (clock st); aborted := aborted st |}.

Definition push (st : state) (p : text) : state :=
  {| results := results st ++ [p]; clock := clock st; aborted := aborted st |}.

Section Walk.

(** [minimatch(path, glob, { dot: true })] and [path.relative]. *)
Variable minimatch : text -> text -> bool.
Variable relative : text -> text -> text.
(** The optional validator; it awaits the file system, as [validatePath]
    does. *)
Variable validatePath : option (text -> result exn text).
(** What an [await] of the file system does to the state: the only points at
    which the callback of a timer can run. *)
Variable answered : state -> state.
(** The test [abortController.signal.aborted || results.length >= maxResults]. *)
Variable stop : state -> bool.
Variables rootPath pattern : text.
Variable excludePatterns : list text.

Definition shouldExclude (fullPath : text) : bool :=
  let relativePath := relative rootPath fullPath in
  existsb
    (fun pattern =>
       let globPattern :=
         if Str.includes pattern (str "*") then pattern
         else str "**/" ++ pattern ++ str "/**" in
       minimatch relativePath globPattern)
    excludePatterns.

Definition nameMatches (name : text) : bool :=
  Str.includes (Str.toLowerCase name) (Str.toLowerCase pattern).

(** The body of the [for] loop for one entry, after the limit check;
    the inner loop is [search(fullPath)]. *)
Fixpoint visit (currentPath : text) (entry : dirent) (st : state) : state :=
  let st := tick st in
  let fullPath := Path.join [currentPath; entryName entry] in
  let '(valid, st) :=
    match validatePath with
    | Some validate =>
        (match validate fullPath with Ok _ => true | Err _ => false end,
         answered st)
    | None => (true, st)
    end in
  if negb valid then st
  else if shouldExclude fullPath then st
  else
    let st := if nameMatches (entryName entry) then push st fullPath else st in
    match entry with
    | FileEnt _ => st
    | DirEnt _ listing =>
        if stop st then st
        else
          match listing with
          | None => answered st
          | Some entries =>
              (fix loop (entries : list dirent) (st : state) : state :=
                 match entries with
                 | [] => st
                 | e :: rest =>
                     if stop st then st
                     else loop rest (visit fullPath e st)
                 end) entries (answered st)
          end
    end.

(** The [for (const entry of entries)] loop. *)
Fixpoint searchEntries (currentPath : text) (entries : list dirent)
         (st : state) : state :=
  match entries with
  | [] => st
  | e :: rest =>
      if stop st then st
      else searchEntries currentPath rest (visit currentPath e st)
  end.

(** [search(rootPath)]: the state in which the call returns. *)
Definition searchState (listing : option (list dirent)) : result exn state :=
  let st := {| results := []; clock := 0; aborted := false |} in
  if stop st then Ok st
  else
    match listing with
    | None => Err (SystemError (str "scandir") rootPath)
    | Some entries => Ok (searchEntries rootPath entries (answered st))
    end.

(** The value [searchFiles] resolves to. *)
Definition searchFrom (listing : option (list dirent)) : result exn (list text) :=
  match searchState listing with
  | Ok st => Ok (results st)
  | Err e => Err e
  end.

End Walk.

(** [searchFiles] of [filesystem/search.ts].  [elapsed t] is the time in
    milliseconds since the call when the [t]-th step is done.  The callback
    of [setTimeout] runs only while the function awaits: when an answer of
    the file system arrives at or after [timeout], the signal is aborted by
    the time the function goes on; it is not aborted before the first answer
    and stays aborted afterwards.  [maxResults] is an integer. *)
Definition settle (timeout : Z) (elapsed : nat -> Z) (st : state) : state :=
  {| results := results st;
     clock := S (clock st);
     aborted := aborted st || (timeout <=? elapsed (S (clock st)))%Z |}.

Definition limitReached (maxResults : Z) (st : state) : bool :=
  aborted st || (maxResults <=? Z.of_nat (length (results st)))%Z.

Definition searchFiles (minimatch : text -> text -> bool)
           (relative : text -> text -> text) (elapsed : nat -> Z)
           (rootPath pattern : text) (excludePatterns : list text)
           (maxResults : Z) (timeout : Z)
           (validatePath : option (text -> result exn text))
           (listing : option (list dirent)) : result exn (list text) :=
  searchFrom minimatch relative validatePath (settle timeout elapsed)
             (limitReached maxResults)
             rootPath pattern excludePatterns listing.

(** [searchFiles] of the monolithic server: always validated, no limit and
    no timer. *)
Definition searchFilesLegacy (minimatch : text -> text -> bool)
           (relative : text -> text -> text)
           (validatePath : text -> result exn text)
           (rootPath pattern : text) (excludePatterns : list text)
           (listing : option (list dirent)) : result exn (list text) :=
  searchFrom minimatch relative (Some validatePath) tick (fun _ => false)
             rootPath pattern excludePatterns listing.

End Search.

(** ** The [read_file] tool of the monolithic server *)

Module Server.

(** [ReadFileArgsSchema]: [tail] and [head] are optional numbers. *)
Record ReadFileArgs : Type :=
  { path : text; tail : option Z; head : option Z }.

(** Truthiness of an optional number. *)
Definition truthy (n : option Z) : bool :=
  match n with
  | Some z => negb (z =? 0)%Z
  | None => false
  end.

Definition numLinesOf (n : option Z) : nat :=
  match n with
  | Some z => Z.to_nat z
  | None => 0
  end.

Definition msgBoth : text :=
  str "Cannot specify both head and tail parameters simultaneously".

(** [error.message].  The one system error of this model is that of a path
    that does not exist ([ENOENT]); a path that exists holds a file. *)
Definition messageOf (e : exn) : text :=
  match e with
  | PermissionDeniedError _ operation _ =>
      str "Permission denied: Cannot " ++ operation ++ str " the specified path"
  | FileNotFoundError _ _ => str "The specified file or directory does not exist"
  | SystemError syscall p =>
      str "ENOENT: no such file or directory, " ++ syscall ++ str " '" ++ p ++ str "'"
  | Error m => m
  end.

Record toolResponse : Type := { responseText : text; isError : bool }.

Section Handler.

Variable homedir : text.
Variable cwd : text.
Variable realpath : text -> option text.
Variable allowedDirectories : list text.
Variable fs : Operations.files.
(** The decoding of the bytes that [tailFile] and [headFile] read. *)
Variable toString : text -> text.

(** The [case "read_file"] branch. *)
Definition readFileTool (args : ReadFileArgs) : result exn text :=
  (validPath <-
     Security.validatePathLegacy homedir cwd realpath allowedDirectories
                                 (path args) ;;
   if truthy (head args) && truthy (tail args) then Err (Error msgBoth)
   else if truthy (tail args) then
     Operations.tailFile toString fs validPath (numLinesOf (tail args))
   else if truthy (head args) then
     Operations.headFile toString fs validPath (numLinesOf (head args))
   else Operations.readFile fs validPath)%exn.

(** The handler with its [catch]. *)
Definition callReadFile (args : ReadFileArgs) : toolResponse :=
  match readFileTool args with
  | Ok t => {| responseText := t; isError := false |}
  | Err e => {| responseText := str "Error: " ++ messageOf e; isError := true |}
  end.

End Handler.

End Server.

(** ** Concurrent request limiter: [middleware/rate-limiter.ts] *)

Module Limiter.

(** The parts of an express request that the limiter reads; [ip] and
    [remoteAddress] may be undefined. *)
Record Request : Type :=
  { path : text; ip : option text; remoteAddress : option text }.

(** [req.ip || req.socket.remoteAddress || "unknown"]: an undefined or empty
    string is falsy. *)
Definition clientKey (req : Request) : text :=
  match ip req with
  | Some (c :: s) => c :: s
  | _ =>
      match remoteAddress req with
      | Some (c :: s) => c :: s
      | _ => str "unknown"
      end
  end.

(** [concurrentRequestsMap], a [Map<string, number>]; the counters are
    integers, and so is the limit modelled here. *)
Definition counts : Type := text -> option Z.


Definition mapSet (m : counts) (k : text) (v : Z) : counts :=
  fun k' => if Str.eqb k' k then Some v else m k'.

(** [concurrentRequestsMap.get(ip) || 0] *)
Definition current (m : counts) (k : text) : Z :=
  match m k with
  | Some v => v
  | None => 0%Z
  end.

Inductive outcome : Type :=
| Next
| TooManyRequests (status : Z) (message : text).

Definition msgConcurrent : text :=
  str "Too many concurrent requests. Please wait for previous requests to complete.".

(** The middleware that [createConcurrentRequestLimiter(maxConcurrent)]
    returns: the outcome, the map afterwards, and the address for which a
    [cleanup] was registered on the response, if one was. *)
Definition limiter (maxConcurrent : Z) (req : Request) (m : counts)
  : outcome * counts * option text :=
  if Str.eqb (path req) (str "/health") then (Next, m, None)
  else
    let ip := clientKey req in
    let cur := current m ip in
    if (maxConcurrent <=? cur)%Z
    then (TooManyRequests 429 msgConcurrent, m, None)
    else (Next, mapSet m ip (cur + 1), Some ip).

(** [cleanup], which a response runs at each of its [finish], [close] and
    [error] events. *)
Definition cleanup (ip : text) (m : counts) : counts :=
  let cur := current m ip in
  if (0 <? cur)%Z then mapSet m ip (cur - 1) else m.

(** What happens to the map: a request arrives, or a response of a counted
    request from [ip] emits one of the three events. *)
Inductive event : Type :=
| Arrives (req : Request)
| Emits (ip : text).

(** The map after a sequence of events, with the addresses of the requests
    that were counted, in order. *)
Fixpoint run (maxConcurrent : Z) (m : counts) (tr : list event)
  : counts * list text :=
  match tr with
  | [] => (m, [])
  | Arrives req :: tr' =>
      let '(_, m', registered) := limiter maxConcurrent req m in
      let '(final, counted) := run maxConcurrent m' tr' in
      (final, match registered with
              | Some ip => ip :: counted
              | None => counted
              end)
  | Emits ip :: tr' => run maxConcurrent (cleanup ip m) tr'
  end.

End Limiter.

(** ** Notions of the specification

    The words of the specification that the properties below need, defined
    on their own and not through the functions they are compared with. *)

Module Spec.

(** A line of [oldText] and a line of the content are equal once the white
    space around them is stripped. *)
Definition trimEq (oldLine contentLine : text) : bool :=
  Str.eqb (Str.trim oldLine) (Str.trim contentLine).

(** Every line of [oldLines] equals, white space stripped, the line of the
    window at the same place. *)
Fixpoint linesAgree (oldLines window : list text) : bool :=
  match oldLines, window with
  | [], _ => true
  | _ :: _, [] => false
  | o :: os, c :: cs => trimEq o c && linesAgree os cs
  end.

(** Some window of the content's lines agrees with the lines of
    [oldText]. *)
Definition fuzzyFound (oldText content : text) : bool :=
  let oldLines := Str.split LF oldText in
  let contentLines := Str.split LF content in
  existsb (fun i => linesAgree oldLines (skipn i contentLines))
          (seq 0 (S (length contentLines))).

(** The entry a lookup at [now] finds for [p]: present and not expired. *)
Definition fresh (fc : Cache.FileCache) (p : text) (now : Z) : option Cache.CacheEntry :=
  match LRU.lookup p (LRU.slots (Cache.contentCache fc)) with
  | Some s =>
      if LRU.isStale (Cache.contentCache fc) now s then None else Some (LRU.value s)
  | None => None
  end.

(** An entry for [p] is stored, expired or not. *)
Definition present (fc : Cache.FileCache) (p : text) : bool :=
  match LRU.lookup p (LRU.slots (Cache.contentCache fc)) with
  | Some _ => true
  | None => false
  end.

(** The lines of a content as [tailFile] counts them: the pieces between
    line feeds, a final line feed being followed by an empty line. *)
Definition lineCount (content : text) : nat := length (Str.split LF content).

(** The last [n] elements of a list. *)
Definition lastn {A : Type} (n : nat) (l : list A) : list A :=
  skipn (length l - n) l.

(** The lines of a content as [headFile] counts them: the pieces between
    line feeds, without the empty piece that follows a final line feed. *)
Definition headPieces (content : text) : list text :=
  let pieces := Str.split LF content in
  match last pieces [] with
  | [] => removelast pieces
  | _ :: _ => pieces
  end.

(** The file whose lines are [lines], each ended by a line feed. *)
Definition terminated (lines : list text) : text :=
  concat (map (fun l => l ++ [LF]) lines).

(** The sum of the sizes of a list of entries. *)
Definition slotsSize (l : list (LRU.slot Cache.CacheEntry)) : Z :=
  fold_right Z.add 0%Z (map (fun s => Cache.size (LRU.value s)) l).

(** The accounting of a cache is exact and within the budget, and its keys
    are what a [Map] of paths holds: distinct and, here, not empty; no size
    is negative. *)
Definition accounted (fc : Cache.FileCache) : Prop :=
  Cache.currentSize fc = Cache.liveSize fc
  /\ (Cache.liveSize fc <= Cache.maxSize (Cache.config fc))%Z
  /\ NoDup (map (@LRU.key Cache.CacheEntry)
               (LRU.slots (Cache.contentCache fc)))
  /\ Forall (fun s => LRU.key s <> [] /\ (0 <= Cache.size (LRU.value s))%Z)
            (LRU.slots (Cache.contentCache fc)).

(** No entry of the content cache has expired at [now]. *)
Definition notStaleAt (fc : Cache.FileCache) (now : Z) : Prop :=
  Forall (fun s => LRU.isStale (Cache.contentCache fc) now s = false)
         (LRU.slots (Cache.contentCache fc)).

(** A call that stores or clears: [set] on a path that is not the empty
    string, at an instant of the window of one time to live that starts at
    [t0] (any instant when there is no time to live), or [invalidateAll]. *)
Definition storing (t0 ttl : Z) (o : Cache.op) : Prop :=
  match o with
  | Cache.Set_ p _ now _ =>
      p <> [] /\ (ttl = 0 \/ (t0 <= now /\ now <= t0 + ttl))%Z
  | Cache.InvalidateAll => True
  | _ => False
  end.

Definition keysOf (l : list (LRU.slot Cache.CacheEntry)) : list text :=
  map (@LRU.key Cache.CacheEntry) l.

(** Every entry's age was last reset at or after [t0] (or never, when there is
    no time to live). *)
Definition window (t0 : Z) (fc : Cache.FileCache) : Prop :=
  Forall (fun s => LRU.start s = 0%Z \/ (t0 <= LRU.start s)%Z)
         (LRU.slots (Cache.contentCache fc)).

(** How often an address occurs in a list, and the addresses of the
    response events of a sequence. *)
Definition occurrences (ip : text) (l : list text) : Z :=
  Z.of_nat (length (filter (Str.eqb ip) l)).


(** The calls of a sequence that are [get] calls. *)
Definition isGet (o : Cache.op) : bool :=
  match o with
  | Cache.Get _ _ _ _ => true
  | _ => false
  end.

Definition gets (ops : list Cache.op) : nat := length (filter isGet ops).

(** The number of [get] calls that the counters of a cache account for. *)
Definition lookups (fc : Cache.FileCache) : nat :=
  Cache.hits (Cache.stats fc) + Cache.misses (Cache.stats fc).

(** The results recorded so far do not exceed the limit. *)
Definition within (maxResults : Z) (st : Search.state) : Prop :=
  (Z.of_nat (length (Search.results st)) <= Z.max 0 maxResults)%Z.

(** The paths that a search of a directory holding the files [names] and
    nothing else is to find: those whose name contains the pattern, whatever
    the case of the letters, and that no exclusion matches (an exclusion
    without a star stands for the glob that matches it anywhere in the
    tree), in the order of the listing. *)
Definition flatMatches (minimatch : text -> text -> bool)
           (relative : text -> text -> text) (rootPath pattern : text)
           (excludePatterns : list text) (names : list text) : list text :=
  let excluded (fullPath : text) :=
    existsb (fun exclusion =>
               minimatch (relative rootPath fullPath)
                         (if Str.includes exclusion (str "*") then exclusion
                          else str "**/" ++ exclusion ++ str "/**"))
            excludePatterns in
  let contains (name : text) :=
    Str.includes (Str.toLowerCase name) (Str.toLowerCase pattern) in
  map (fun n => Path.join [rootPath; n])
      (filter (fun n => negb (excluded (Path.join [rootPath; n]))
                        && contains n)
              names).

(** A text of 7-bit characters, and a decoder that gives a run of 7-bit
    bytes back as it is, as UTF-8 decoding does. *)
Definition sevenBit (s : text) : Prop :=
  Forall (fun c => nat_of_ascii c < 128) s.

Definition keepsSevenBit (toString : text -> text) : Prop :=
  forall s, sevenBit s -> toString s = s.



End Spec.

(** ** Scenarios

    The concrete roots, files, caches and directories on which the
    properties are tried. *)

Module Scenario.

Definition home : text := str "/home/user".
Definition root : text := str "/".

(** A file system without symbolic links in which every path exists. *)
Definition plainFs : text -> option text := fun p => Some p.

(** [/data/link] is a symbolic link to [/etc/passwd]; [/data] is a real
    directory; nothing else exists. *)
Definition linkFs : text -> option text :=
  fun p =>
    if Str.eqb p (str "/data/link") then Some (str "/etc/passwd")
    else if Str.eqb p (str "/data") then Some (str "/data")
    else None.

(** The scenario of the specification and a second edit that cannot be
    found. *)
Definition notes : text := str "foo" ++ [LF] ++ str "bar" ++ [LF].
Definition notesPath : text := str "/tmp/a/notes.txt".
Definition notesFs : Operations.files :=
  fun p => if Str.eqb p notesPath then Some notes else None.
Definition barToBaz : Operations.edit := {| Operations.oldText := str "bar"; Operations.newText := str "baz" |}.
Definition twoSides (_ _ original modified _ _ : text) : text :=
  original ++ str "---" ++ [LF] ++ modified.




(** A file whose text holds a fence of three backticks. *)
Definition fencedFs : Operations.files :=
  fun p => if Str.eqb p notesPath
           then Some (str "```" ++ [LF] ++ str "bar" ++ [LF])
           else None.
Definition fencedAnswer : text :=
  str "````diff" ++ [LF]
    ++ str "```" ++ [LF] ++ str "bar" ++ [LF]
    ++ str "---" ++ [LF]
    ++ str "```" ++ [LF] ++ str "baz" ++ [LF]
    ++ str "````" ++ [LF; LF].
Definition fencedAfter : Operations.files :=
  fun p => if Str.eqb p notesPath
           then Some (str "```" ++ [LF] ++ str "baz" ++ [LF])
           else fencedFs p.

(** A block whose middle line is indented by four spaces, and an edit that
    names that line without its indentation. *)
Definition indented : text :=
  str "if (x) {" ++ [LF] ++ str "    go();" ++ [LF] ++ str "}".
Definition indentedFs : Operations.files :=
  fun p => if Str.eqb p notesPath then Some indented else None.
Definition looseEdit : Operations.edit :=
  {| Operations.oldText := str "go(); "; Operations.newText := str "stop();" |}.
Definition indentedAnswer : text :=
  match fst (Operations.applyFileEdits twoSides false indentedFs notesPath [looseEdit] false) with
  | Ok d => d
  | Err _ => []
  end.
Definition indentedAfter : Operations.files :=
  snd (Operations.applyFileEdits twoSides false indentedFs notesPath [looseEdit] false).

Definition smallCfg : Cache.CacheConfig :=
  {| Cache.enabled := true; Cache.ttl := 60000; Cache.maxSize := 10 |}.
Definition disabledCfg : Cache.CacheConfig :=
  {| Cache.enabled := false; Cache.ttl := 60000; Cache.maxSize := 10 |}.
Definition fileStat : option Cache.Stats := Some {| Cache.mtimeMs := 7; Cache.statSize := 5 |}.
Definition five : text := str "12345".
Definition ten : text := str "1234567890".
Definition eleven : text := str "12345678901".

(** A cache of ten bytes holding [/a], five bytes long. *)
Definition warm : Cache.FileCache := Cache.set (Cache.create smallCfg) (str "/a") five 1 fileStat.

(** A cache of ten bytes holding [/b] and [/a], five bytes each. *)
Definition twoCached : Cache.FileCache :=
  Cache.run (Cache.create smallCfg)
    [Cache.Set_ (str "/a") five 1 fileStat; Cache.Set_ (str "/b") five 2 fileStat].

(** A directory with three files whose names contain the pattern. *)
Definition threeFiles : option (list Search.dirent) :=
  Some [Search.FileEnt (str "a1"); Search.FileEnt (str "a2"); Search.FileEnt (str "a3")].
Definition noGlob : text -> text -> bool := fun _ _ => false.
Definition asIs : text -> text -> text := fun _ p => p.
(** The listing of the root arrives at once; from then on every step takes
    a second. *)
Definition slowSteps : nat -> Z :=
  fun t => if t <=? 1 then 0%Z else (1000 * Z.of_nat t)%Z.

(** A decoder that keeps the 7-bit bytes and answers a question mark for
    every other byte. *)
Definition questionMarks : text -> text :=
  map (fun c => if nat_of_ascii c <? 128 then c else "?"%char).

Definition oneFile (content : text) : Operations.files :=
  fun p => if Str.eqb p (str "/data/log") then Some content else None.

(** Two lines, the last one without a line feed. *)
Definition twoLines : text := str "alpha" ++ [LF] ++ str "beta".

(** The same two lines with DOS line endings. *)
Definition dosLines : text := str "alpha" ++ [CR; LF] ++ str "beta".

Definition dataRoots : list text := [str "/data"].
Definition logFs : Operations.files :=
  oneFile (str "one" ++ [LF] ++ str "two" ++ [LF] ++ str "three").
Definition bothArgs (p : text) (h t : Z) : Server.ReadFileArgs :=
  {| Server.path := p; Server.tail := Some t; Server.head := Some h |}.

End Scenario.

(** * Properties *)

Unset Implicit Arguments.

(** ** Facts about strings *)

Module StrFacts.

Lemma eqb_eq a b : Str.eqb a b = true <-> a = b.
Proof.
  unfold Str.eqb; destruct (list_eq_dec ascii_dec a b); split; congruence.
Qed.

Lemma eqb_refl a : Str.eqb a a = true.
Proof. now apply eqb_eq. Qed.

Lemma eqb_neq a b : Str.eqb a b = false <-> a <> b.
Proof.
  unfold Str.eqb; destruct (list_eq_dec ascii_dec a b); split; congruence.
Qed.

Lemma startsWith_app s p : Str.startsWith (p ++ s) p = true.
Proof.
  induction p as [|c p IH]; simpl; [reflexivity|].
  now rewrite Ascii.eqb_refl.
Qed.

Lemma startsWith_inv s p :
  Str.startsWith s p = true -> exists rest, s = p ++ rest.
Proof.
  revert s; induction p as [|c p IH]; intros s H.
  - now exists s.
  - destruct s as [|d s]; simpl in H; [discriminate|].
    apply andb_true_iff in H as [Hc Hs].
    apply Ascii.eqb_eq in Hc; subst d.
    destruct (IH _ Hs) as [rest ->]. now exists rest.
Qed.

(** [indexOf] finds an occurrence, and misses none. *)
Lemma indexOf_some s p i :
  Str.indexOf s p = Some i -> s = firstn i s ++ p ++ skipn (i + length p) s.
Proof.
  revert i; induction s as [|c s IH]; intros i; simpl.
  - destruct p; simpl; [|discriminate].
    intros [= <-]. reflexivity.
  - destruct (Str.startsWith (c :: s) p) eqn:E.
    + intros [= <-]. apply startsWith_inv in E as [rest E].
      simpl. rewrite E at 1. f_equal.
      rewrite E, skipn_app, Nat.sub_diag, skipn_all. reflexivity.
    + destruct (Str.indexOf s p) as [j|] eqn:Ej; simpl; [|discriminate].
      intros [= <-]. simpl. f_equal. now apply IH.
Qed.

Lemma indexOf_none s p pre post :
  Str.indexOf s p = None -> s <> pre ++ p ++ post.
Proof.
  revert pre; induction s as [|c s IH]; intros pre; simpl.
  - destruct p; simpl; [discriminate|].
    intros _ H. destruct pre; discriminate.
  - destruct (Str.startsWith (c :: s) p) eqn:E; [discriminate|].
    destruct (Str.indexOf s p) eqn:Ei; [discriminate|]. intros _ H.
    destruct pre as [|d pre].
    + simpl in H. rewrite H, startsWith_app in E. discriminate.
    + injection H as -> H. now apply (IH pre).
Qed.

(** [includes] is the substring test. *)
Lemma includes_iff s p :
  Str.includes s p = true <-> exists pre post, s = pre ++ p ++ post.
Proof.
  unfold Str.includes. destruct (Str.indexOf s p) as [i|] eqn:E; split.
  - intros _. apply indexOf_some in E. eauto.
  - reflexivity.
  - discriminate.
  - intros (pre & post & H). exfalso. exact (indexOf_none s p pre post E H).
Qed.

Lemma split_nonempty c s : Str.split c s <> [].
Proof.
  destruct s as [|x s]; simpl; [discriminate|].
  destruct (Ascii.eqb x c); [discriminate|].
  destruct (Str.split c s); discriminate.
Qed.

Lemma split_cons_other c x s :
  Ascii.eqb x c = false ->
  Str.split c (x :: s) = (x :: hd [] (Str.split c s)) :: tl (Str.split c s).
Proof.
  intros H. simpl. rewrite H.
  destruct (Str.split c s) eqn:E; [now apply split_nonempty in E|reflexivity].
Qed.

Lemma split_app c x y :
  Str.split c (x ++ c :: y) = Str.split c x ++ Str.split c y.
Proof.
  induction x as [|a x IH].
  - simpl. now rewrite Ascii.eqb_refl.
  - destruct (Ascii.eqb a c) eqn:E.
    + simpl. rewrite E. simpl. now rewrite IH.
    + rewrite <- app_comm_cons, !split_cons_other, IH by assumption.
      destruct (Str.split c x) eqn:Ex; [now apply split_nonempty in Ex|].
      reflexivity.
Qed.

Lemma join_cons sep l ls :
  ls <> [] -> Str.join sep (l :: ls) = l ++ sep ++ Str.join sep ls.
Proof. destruct ls; [congruence|reflexivity]. Qed.

Lemma join_split c s : Str.join [c] (Str.split c s) = s.
Proof.
  induction s as [|x s IH]; [reflexivity|].
  destruct (Ascii.eqb x c) eqn:E.
  - simpl Str.split. rewrite E. apply Ascii.eqb_eq in E; subst x.
    rewrite join_cons by apply split_nonempty. simpl. now rewrite IH.
  - rewrite split_cons_other by assumption.
    destruct (Str.split c s) as [|l ls] eqn:Es; [now apply split_nonempty in Es|].
    simpl hd; simpl tl. rewrite <- IH.
    destruct ls; reflexivity.
Qed.

Lemma length_split c s :
  length (Str.split c s) = S (count_occ ascii_dec s c).
Proof.
  induction s as [|x s IH]; [reflexivity|].
  destruct (Ascii.eqb x c) eqn:E.
  - simpl Str.split. rewrite E. apply Ascii.eqb_eq in E; subst x.
    simpl length. rewrite IH, count_occ_cons_eq; reflexivity.
  - rewrite split_cons_other by assumption.
    apply Ascii.eqb_neq in E. rewrite count_occ_cons_neq by assumption.
    rewrite <- IH.
    destruct (Str.split c s) eqn:Es; [now apply split_nonempty in Es|reflexivity].
Qed.

(** A string without the separator is its own single line. *)
Lemma split_head_no_sep c s :
  count_occ ascii_dec (hd [] (Str.split c s)) c = 0.
Proof.
  induction s as [|x s IH]; [reflexivity|].
  destruct (Ascii.eqb x c) eqn:E.
  - simpl. rewrite E. reflexivity.
  - rewrite split_cons_other by assumption. simpl hd.
    apply Ascii.eqb_neq in E. now rewrite count_occ_cons_neq.
Qed.

End StrFacts.
(** ** PathGuard *)

Module GuardProps.
Import Spec Scenario.
Import Security.

(** What the prefix test does guarantee: a path of which no root is a
    string prefix is refused with [PermissionDeniedError]. *)
Lemma validatePath_refuses_non_prefix
      (homedir cwd : text) (realpath : text -> option text)
      (requested : text) (roots : list text) (wd : text) :
  someStartsWith roots
    (normalizePath (absoluteOf homedir cwd wd requested)) = false ->
  validatePath homedir cwd realpath requested roots wd
  = Err (PermissionDeniedError requested opAccess
           (absoluteOf homedir cwd wd requested)).
Proof.
  intros H. unfold validatePath. rewrite H. reflexivity.
Qed.

(** The prefix test is weaker than containment: a contained path always
    passes it. *)
Lemma underSomeRoot_someStartsWith (roots : list text) (p : text) :
  underSomeRoot roots p = true -> someStartsWith roots p = true.
Proof.
  unfold underSomeRoot, someStartsWith. rewrite !existsb_exists.
  intros (r & Hin & Hc). exists r. split; [assumption|].
  unfold segmentContained in Hc. apply orb_true_iff in Hc as [Hc|Hc].
  - apply StrFacts.eqb_eq in Hc. subst p.
    rewrite <- (app_nil_r r) at 1. apply StrFacts.startsWith_app.
  - apply StrFacts.startsWith_inv in Hc as [rest ->].
    rewrite <- app_assoc. apply StrFacts.startsWith_app.
Qed.

(** C1: the claim asks that a path outside every root, in the
    segment-aware sense, be refused, [/data-other] under the root [/data]
    in particular.  Both versions of [validatePath] test
    [normalizedRequested.startsWith(dir)] instead: [/data-other] is not
    contained in [/data], yet both accept it and return it. *)
Theorem validatePath_accepts_sibling_of_root :
  let roots := [str "/data"] in
  let requested := str "/data-other" in
  underSomeRoot roots
    (normalizePath (absoluteOf home root root requested)) = false
  /\ validatePath home root plainFs requested roots root = Ok requested
  /\ validatePathLegacy home root plainFs roots requested = Ok requested.
Proof. vm_compute. repeat split. Qed.

(** In [filesystem/security.ts] the [catch] re-throws a
    [PermissionDeniedError], so a link that leaves the roots (as the prefix
    test sees them) is refused and nothing is returned. *)
Lemma validatePath_refuses_escaping_link
      (homedir cwd : text) (realpath : text -> option text)
      (requested : text) (roots : list text) (wd realPath : text) :
  let absolute := absoluteOf homedir cwd wd requested in
  someStartsWith roots (normalizePath absolute) = true ->
  realpath absolute = Some realPath ->
  someStartsWith roots (normalizePath realPath) = false ->
  validatePath homedir cwd realpath requested roots wd
  = Err (PermissionDeniedError requested opSymlink realPath).
Proof.
  intros absolute Hin Hreal Hout. unfold validatePath, fs_realpath.
  fold absolute. rewrite Hin, Hreal. simpl. rewrite Hout. reflexivity.
Qed.

(** C2: the claim asks that an existing path inside a root whose real path
    is outside every root be refused, without falling back to the parent
    directory.  In the monolithic server the [Error] thrown for the
    escaping link is caught by the unconditional [catch], the parent
    [/data] is inside the root, and the link itself is returned;
    [filesystem/security.ts] refuses the same request. *)
Theorem validatePathLegacy_returns_escaping_link :
  let roots := [str "/data"] in
  let requested := str "/data/link" in
  underSomeRoot roots requested = true
  /\ linkFs requested = Some (str "/etc/passwd")
  /\ underSomeRoot roots (str "/etc/passwd") = false
  /\ validatePathLegacy home root linkFs roots requested = Ok requested
  /\ validatePath home root linkFs requested roots root
     = Err (PermissionDeniedError requested opSymlink (str "/etc/passwd")).
Proof. vm_compute. repeat split. Qed.

End GuardProps.
(** ** PatchEngine *)

Module PatchProps.
Import Spec Scenario.
Import Operations.

(** *** Line endings *)

Lemma replaceCRLF_pair (s : text) :
  Str.replaceCRLF (CR :: LF :: s) = LF :: Str.replaceCRLF s.
Proof. reflexivity. Qed.

Lemma replaceCRLF_lone (d : ascii) (s : text) :
  Ascii.eqb d LF = false ->
  Str.replaceCRLF (CR :: d :: s) = CR :: Str.replaceCRLF (d :: s).
Proof. intros H. cbn [Str.replaceCRLF]. simpl Ascii.eqb at 1. now rewrite H. Qed.

Lemma replaceCRLF_other (c : ascii) (s : text) :
  Ascii.eqb c CR = false ->
  Str.replaceCRLF (c :: s) = c :: Str.replaceCRLF s.
Proof. intros H. cbn [Str.replaceCRLF]. now rewrite H. Qed.

Lemma replaceCRLF_crlf_bounded (n : nat) :
  forall a b, length a <= n ->
    Str.replaceCRLF (a ++ CR :: LF :: b)
    = Str.replaceCRLF a ++ LF :: Str.replaceCRLF b.
Proof.
  induction n as [|n IH]; intros a b Hlen.
  - destruct a; [reflexivity|simpl in Hlen; lia].
  - destruct a as [|c a]; [reflexivity|].
    simpl in Hlen. rewrite <- app_comm_cons.
    destruct (Ascii.eqb c CR) eqn:Ec.
    + apply Ascii.eqb_eq in Ec. subst c.
      destruct a as [|d a].
      * simpl app. rewrite replaceCRLF_lone by reflexivity.
        rewrite replaceCRLF_pair. reflexivity.
      * rewrite <- app_comm_cons. destruct (Ascii.eqb d LF) eqn:Ed.
        -- apply Ascii.eqb_eq in Ed. subst d.
           rewrite !replaceCRLF_pair. simpl. f_equal.
           apply IH. simpl in Hlen. lia.
        -- rewrite !replaceCRLF_lone by assumption.
           rewrite app_comm_cons, (IH (d :: a) b) by lia. reflexivity.
    + rewrite !replaceCRLF_other by assumption. simpl. f_equal.
      apply IH. lia.
Qed.

(** Every CR LF pair of the input becomes one LF. *)
Lemma normalizeLineEndings_crlf (a b : text) :
  normalizeLineEndings (a ++ CR :: LF :: b)
  = normalizeLineEndings a ++ LF :: normalizeLineEndings b.
Proof. apply (replaceCRLF_crlf_bounded (length a)). lia. Qed.

(** A text without a CR LF pair is left as it is. *)
Lemma replaceCRLF_id_bounded (n : nat) :
  forall s, length s <= n ->
    Str.includes s [CR; LF] = false -> Str.replaceCRLF s = s.
Proof.
  induction n as [|n IH]; intros s Hlen Hno.
  - destruct s; [reflexivity|simpl in Hlen; lia].
  - destruct s as [|c s]; [reflexivity|].
    assert (Htail : Str.includes s [CR; LF] = false).
    { destruct (Str.includes s [CR; LF]) eqn:E; [|reflexivity].
      apply StrFacts.includes_iff in E as (pre & post & ->).
      assert (Str.includes (c :: pre ++ [CR; LF] ++ post) [CR; LF] = true)
        by (apply StrFacts.includes_iff; exists (c :: pre), post; reflexivity).
      congruence. }
    simpl in Hlen.
    destruct (Ascii.eqb c CR) eqn:Ec.
    + apply Ascii.eqb_eq in Ec. subst c.
      destruct s as [|d s]; [reflexivity|].
      destruct (Ascii.eqb d LF) eqn:Ed.
      * apply Ascii.eqb_eq in Ed. subst d.
        assert (Str.includes (CR :: LF :: s) [CR; LF] = true)
          by (apply StrFacts.includes_iff; exists [], s; reflexivity).
        congruence.
      * rewrite replaceCRLF_lone by assumption.
        f_equal. apply IH; [simpl in *; lia|assumption].
    + rewrite replaceCRLF_other by assumption.
      f_equal. apply IH; [lia|assumption].
Qed.

Lemma normalizeLineEndings_id (s : text) :
  Str.includes s [CR; LF] = false -> normalizeLineEndings s = s.
Proof. apply (replaceCRLF_id_bounded (length s)). lia. Qed.

(** *** The two ways of finding [oldText], as the specification words them *)

Lemma everyLine_linesAgree (rc : bool) (oldLines rest : list text) :
  everyLine rc oldLines (firstn (length oldLines) rest) = true ->
  linesAgree oldLines rest = true.
Proof.
  revert rest; induction oldLines as [|o os IH]; intros rest H.
  - reflexivity.
  - destruct rest as [|c cs]; simpl in H; [discriminate|].
    apply andb_true_iff in H as [Hl Hr]. simpl.
    apply andb_true_iff. split; [|now apply IH].
    unfold lineMatches in Hl. apply andb_true_iff in Hl as [_ Hl]. exact Hl.
Qed.



Lemma linesAgree_length (oldLines window : list text) :
  linesAgree oldLines window = true -> length oldLines <= length window.
Proof.
  revert window; induction oldLines as [|o os IH]; intros window H.
  - simpl. lia.
  - destruct window as [|c cs]; simpl in H; [discriminate|].
    apply andb_true_iff in H as [_ H]. apply IH in H. simpl. lia.
Qed.

Lemma linesAgree_everyLine (oldLines rest : list text) :
  linesAgree oldLines rest = true ->
  everyLine false oldLines (firstn (length oldLines) rest) = true.
Proof.
  revert rest; induction oldLines as [|o os IH]; intros rest H.
  - reflexivity.
  - destruct rest as [|c cs]; simpl in H; [discriminate|].
    apply andb_true_iff in H as [Hl Hr]. simpl.
    apply andb_true_iff. split; [exact Hl|now apply IH].
Qed.

(** With the window test of the monolithic server the scan finds a window
    whenever there is one: [fuzzyFound] is exactly its test. *)
Lemma fuzzyScan_complete (oldLines : list text) (new : text) :
  forall rest before i,
    linesAgree oldLines (skipn i rest) = true ->
    fuzzyScan false oldLines new before rest <> None.
Proof.
  induction rest as [|l rest IH]; intros before i H.
  - rewrite skipn_nil in H. pose proof (linesAgree_length _ _ H) as Hl.
    simpl in Hl. cbn [fuzzyScan].
    replace (length oldLines <=? length (@nil text)) with true
      by (symmetry; apply Nat.leb_le; exact Hl).
    rewrite (linesAgree_everyLine _ _ H). discriminate.
  - cbn [fuzzyScan].
    assert (Hl : length oldLines <= length (l :: rest)).
    { apply linesAgree_length in H. rewrite length_skipn in H. lia. }
    replace (length oldLines <=? length (l :: rest)) with true
      by (symmetry; apply Nat.leb_le; exact Hl).
    destruct (everyLine false oldLines (firstn (length oldLines) (l :: rest)))
      eqn:E; [discriminate|].
    destruct i as [|i].
    + simpl in H. rewrite (linesAgree_everyLine _ _ H) in E. discriminate.
    + apply (IH (l :: before) i). exact H.
Qed.

Lemma fuzzyReplace_complete (content old new : text) :
  fuzzyFound old content = true -> fuzzyReplace false content old new <> None.
Proof.
  unfold fuzzyFound, fuzzyReplace. intros H.
  apply existsb_exists in H as (i & _ & Hi).
  pose proof (fuzzyScan_complete (Str.split LF old) new (Str.split LF content)
                                 [] i Hi) as Hs.
  destruct (fuzzyScan false (Str.split LF old) new [] (Str.split LF content));
    [discriminate|contradiction].
Qed.

(** *** The fence around the diff *)

Lemma includes_longer (s p : text) :
  length s < length p -> Str.includes s p = false.
Proof.
  intros H. destruct (Str.includes s p) eqn:E; [|reflexivity].
  apply StrFacts.includes_iff in E as (pre & post & ->).
  rewrite !length_app in H. lia.
Qed.

Lemma growBackticks_absent (diff : text) (fuel : nat) :
  forall n,
    length diff < n + fuel ->
    Str.includes diff (backticks (growBackticks fuel n diff)) = false.
Proof.
  induction fuel as [|fuel IH]; intros n H.
  - simpl. apply includes_longer. unfold backticks. rewrite repeat_length. lia.
  - simpl. destruct (Str.includes diff (backticks n)) eqn:E; [|exact E].
    apply IH. lia.
Qed.

(** The loop that lengthens the fence stops by its own test: the fence
    chosen does not occur in the diff. *)
Lemma formatDiff_fence_absent (diff : text) :
  Str.includes diff (backticks (growBackticks (S (length diff)) 3 diff)) = false.
Proof. apply growBackticks_absent. lia. Qed.

(** *** The edit loop *)





End PatchProps.
(** ** FileCache *)

Module CacheProps.
Import Spec Scenario.
Import Cache.

(** *** Frame lemmas: what the helpers leave alone *)

Lemma disposeAll_content (vs : list CacheEntry) :
  forall fc, contentCache (disposeAll fc vs) = contentCache fc.
Proof.
  induction vs as [|v vs IH]; intros fc; [reflexivity|].
  simpl. now rewrite IH.
Qed.

Lemma disposeAll_config (vs : list CacheEntry) :
  forall fc, config (disposeAll fc vs) = config fc.
Proof.
  induction vs as [|v vs IH]; intros fc; [reflexivity|].
  simpl. now rewrite IH.
Qed.

Lemma contentDelete_config (fc : FileCache) (k : text) :
  config (contentDelete fc k) = config fc.
Proof.
  unfold contentDelete. destruct (LRU.delete k (contentCache fc)) as [d cc].
  now rewrite disposeAll_config.
Qed.

Lemma contentDelete_ttl (fc : FileCache) (k : text) :
  LRU.ttl (contentCache (contentDelete fc k)) = LRU.ttl (contentCache fc).
Proof.
  unfold contentDelete, LRU.delete.
  destruct (LRU.lookup k (LRU.slots (contentCache fc)));
    now rewrite disposeAll_content.
Qed.

Lemma contentDelete_slots (fc : FileCache) (k : text) :
  LRU.slots (contentCache (contentDelete fc k))
  = LRU.remove k (LRU.slots (contentCache fc)).
Proof.
  unfold contentDelete, LRU.delete.
  destruct (LRU.lookup k (LRU.slots (contentCache fc))) eqn:E;
    rewrite disposeAll_content; [reflexivity|].
  simpl. unfold LRU.lookup in E. unfold LRU.remove.
  induction (LRU.slots (contentCache fc)) as [|s l IH]; [reflexivity|].
  simpl in *. destruct (Str.eqb (LRU.key s) k); [discriminate|].
  simpl. f_equal. now apply IH.
Qed.

Lemma evictLoop_config (fuel : nat) (size now : Z) :
  forall fc, config (evictLoop fuel fc size now) = config fc.
Proof.
  induction fuel as [|fuel IH]; intros fc; [reflexivity|].
  simpl.
  destruct ((maxSize (config fc) <? currentSize fc + size)%Z
            && (0 <? LRU.size (contentCache fc))); [|reflexivity].
  destruct (getOldestKey fc now) as [[|c k]|]; try reflexivity.
  now rewrite IH, contentDelete_config.
Qed.

Lemma evictLoop_ttl (fuel : nat) (size now : Z) :
  forall fc, LRU.ttl (contentCache (evictLoop fuel fc size now))
             = LRU.ttl (contentCache fc).
Proof.
  induction fuel as [|fuel IH]; intros fc; [reflexivity|].
  simpl.
  destruct ((maxSize (config fc) <? currentSize fc + size)%Z
            && (0 <? LRU.size (contentCache fc))); [|reflexivity].
  destruct (getOldestKey fc now) as [[|c k]|]; try reflexivity.
  now rewrite IH, contentDelete_ttl.
Qed.

Lemma lookup_remove {V : Type} (k : text) (l : list (LRU.slot V)) :
  LRU.lookup k (LRU.remove k l) = None.
Proof.
  unfold LRU.lookup, LRU.remove.
  induction l as [|s l IH]; [reflexivity|].
  simpl. destruct (Str.eqb (LRU.key s) k) eqn:E; simpl; [exact IH|].
  now rewrite E.
Qed.

Lemma lookup_in {V : Type} (k : text) (l : list (LRU.slot V)) :
  In k (map (@LRU.key V) l) -> LRU.lookup k l <> None.
Proof.
  unfold LRU.lookup. induction l as [|s l IH]; simpl; [tauto|].
  intros [H|H].
  - subst k. now rewrite StrFacts.eqb_refl.
  - destruct (Str.eqb (LRU.key s) k); [discriminate|now apply IH].
Qed.

Lemma remove_shrinks {V : Type} (k : text) (l : list (LRU.slot V)) :
  LRU.lookup k l <> None -> length (LRU.remove k l) < length l.
Proof.
  unfold LRU.lookup, LRU.remove. induction l as [|s l IH]; simpl; [tauto|].
  destruct (Str.eqb (LRU.key s) k) eqn:E; simpl; intros H.
  - pose proof (filter_length_le (fun s0 => negb (Str.eqb (LRU.key s0) k)) l).
    lia.
  - apply IH in H. lia.
Qed.

Lemma getOldestKey_in (fc : FileCache) (now : Z) (k : text) :
  getOldestKey fc now = Some k ->
  In k (map (@LRU.key CacheEntry) (LRU.slots (contentCache fc))).
Proof.
  unfold getOldestKey, LRU.keys.
  set (f := fun s => negb (LRU.isStale (contentCache fc) now s)).
  assert (Hsub : forall x, In x (map (@LRU.key CacheEntry)
                                     (filter f (LRU.slots (contentCache fc)))) ->
                           In x (map (@LRU.key CacheEntry)
                                     (LRU.slots (contentCache fc)))).
  { intros x Hx. apply in_map_iff in Hx as (s & <- & Hs).
    apply filter_In in Hs as [Hs _]. now apply in_map. }
  revert Hsub.
  generalize (map (@LRU.key CacheEntry) (filter f (LRU.slots (contentCache fc)))).
  intros ks Hsub Hlast. apply Hsub. clear Hsub.
  induction ks as [|a ks IH]; simpl in Hlast; [discriminate|].
  destruct ks as [|b ks].
  - injection Hlast as ->. now left.
  - right. apply IH. exact Hlast.
Qed.

(** The loop of [set] ends within as many turns as there are entries:
    more fuel changes nothing. *)
Lemma evictLoop_fuel_enough (size now : Z) (n : nat) :
  forall fc m,
    LRU.size (contentCache fc) <= n -> n <= m ->
    evictLoop m fc size now = evictLoop n fc size now.
Proof.
  induction n as [|n IH]; intros fc m Hsize Hm.
  - destruct m; [reflexivity|]. simpl.
    replace (0 <? LRU.size (contentCache fc)) with false
      by (symmetry; apply Nat.ltb_ge; lia).
    now rewrite andb_false_r.
  - destruct m as [|m]; [lia|]. simpl.
    destruct ((maxSize (config fc) <? currentSize fc + size)%Z
              && (0 <? LRU.size (contentCache fc))); [|reflexivity].
    destruct (getOldestKey fc now) as [[|c k]|] eqn:E; try reflexivity.
    apply IH; [|lia].
    apply getOldestKey_in, lookup_in, remove_shrinks in E.
    unfold LRU.size in *. rewrite contentDelete_slots. lia.
Qed.

(** *** The failing scenarios *)

(** C4: the claim asks that [set] with a content larger than the whole
    budget leave the cache as it was, without evicting.  The loop that
    makes room runs before the test [size > this.config.maxSize]: with the
    eleven-byte content it deletes [/a], counts an eviction and brings
    [currentSize] to zero, and only then is the new entry given up. *)
Theorem set_oversized_empties_cache :
  let after := set warm (str "/b") eleven 2 fileStat in
  (maxSize smallCfg < Z.of_nat (Str.byteLength eleven))%Z
  /\ entries warm
     = [(str "/a", {| content := five; mtime := 7; size := 5 |})]
  /\ currentSize warm = 5%Z
  /\ evictions (stats warm) = 0
  /\ entries after = []
  /\ currentSize after = 0%Z
  /\ evictions (stats after) = 1.
Proof. vm_compute. repeat split. Qed.

(** C5: the claim asks that after any sequence of calls the sizes of the
    entries sum to at most the budget and that [currentSize] equal that
    sum.  [invalidate] subtracts the size of the entry and then deletes
    it, and the [dispose] callback subtracts it again: after the second
    call below [currentSize] is -5 with an empty cache, and the two
    following [set] calls put fifteen bytes into a cache of ten. *)
Theorem invalidate_subtracts_twice :
  let calls :=
    [Set_ (str "/a") five 1 fileStat;
     Invalidate (str "/a") 2;
     Set_ (str "/b") ten 3 fileStat;
     Set_ (str "/c") five 4 fileStat] in
  let after := run (create smallCfg) calls in
  liveSize (run (create smallCfg) (firstn 2 calls)) = 0%Z
  /\ currentSize (run (create smallCfg) (firstn 2 calls)) = (-5)%Z
  /\ liveSize after = 15%Z
  /\ currentSize after = 10%Z
  /\ (maxSize (config after) < liveSize after)%Z.
Proof. vm_compute. repeat split. Qed.

(** *** Hits and misses *)

Lemma contentGet_fresh (fc : FileCache) (now : Z) (p : text) :
  fst (contentGet fc now p) = fresh fc p now.
Proof.
  unfold contentGet, LRU.get, fresh.
  destruct (LRU.lookup p (LRU.slots (contentCache fc))) as [s|]; [|reflexivity].
  destruct (LRU.isStale (contentCache fc) now s); reflexivity.
Qed.

Lemma invalidate_removes (fc : FileCache) (p : text) (now : Z) :
  present (invalidate fc p now) p = false.
Proof.
  unfold present, invalidate.
  destruct (contentGet fc now p) as [entry fc1].
  cbn [contentCache withMetadata].
  now rewrite contentDelete_slots, lookup_remove.
Qed.

Lemma get_hit_iff (fc : FileCache) (p : text) (now later : Z)
      (st : option Stats) (c : text) :
  enabled (config fc) = true ->
  (fst (get fc p now later st) = Some c
   <-> exists e stt,
      fresh fc p now = Some e /\ st = Some stt
      /\ mtimeMs stt = mtime e /\ c = content e).
Proof.
  intros Hen. unfold get. rewrite Hen. cbn [negb].
  rewrite <- contentGet_fresh.
  destruct (contentGet fc now p) as [[e|] fc1]; cbn [fst].
  - destruct st as [stt|]; cbn [fst].
    + destruct (mtimeMs stt =? mtime e)%Z eqn:Em; cbn [negb fst].
      * apply Z.eqb_eq in Em. split.
        -- intros [= <-]. exists e, stt. auto.
        -- intros (e' & stt' & [= <-] & [= <-] & _ & ->). reflexivity.
      * apply Z.eqb_neq in Em. split; [discriminate|].
        intros (e' & stt' & [= <-] & [= <-] & Hm & _). contradiction.
    + split; [discriminate|]. intros (e' & stt' & _ & H & _). discriminate.
  - split; [discriminate|]. intros (e' & stt' & H & _). discriminate.
Qed.

Lemma get_mismatch (fc : FileCache) (p : text) (now later : Z)
      (st : option Stats) (e : CacheEntry) :
  enabled (config fc) = true ->
  fresh fc p now = Some e ->
  (forall stt, st = Some stt -> mtimeMs stt <> mtime e) ->
  fst (get fc p now later st) = None
  /\ present (snd (get fc p now later st)) p = false.
Proof.
  intros Hen Hfresh Hst. unfold get. rewrite Hen. cbn [negb].
  rewrite <- contentGet_fresh in Hfresh.
  destruct (contentGet fc now p) as [entry fc1]. cbn [fst] in Hfresh. subst entry.
  destruct st as [stt|].
  - specialize (Hst stt eq_refl). apply Z.eqb_neq in Hst. rewrite Hst.
    cbn [negb fst snd]. split; [reflexivity|].
    apply (invalidate_removes fc1 p later).
  - cbn [fst snd]. split; [reflexivity|].
    apply (invalidate_removes fc1 p later).
Qed.

Lemma set_caches (fc : FileCache) (p content : text) (now : Z) (s : Stats) :
  enabled (config fc) = true ->
  (Z.of_nat (Str.byteLength content) <= maxSize (config fc))%Z ->
  let fc' := set fc p content now (Some s) in
  config fc' = config fc
  /\ LRU.ttl (contentCache fc') = LRU.ttl (contentCache fc)
  /\ LRU.lookup p (LRU.slots (contentCache fc'))
     = Some {| LRU.key := p;
               LRU.value := {| content := content; mtime := mtimeMs s;
                               size := Z.of_nat (Str.byteLength content) |};
               LRU.start := LRU.startAt (contentCache fc) now |}.
Proof.
  intros Hen Hsize. unfold set. rewrite Hen. cbn [negb].
  set (size := Z.of_nat (Str.byteLength content)) in *.
  set (fc1 := evictLoop (LRU.size (contentCache fc)) fc size now).
  assert (Hcfg : config fc1 = config fc) by apply evictLoop_config.
  assert (Httl : LRU.ttl (contentCache fc1) = LRU.ttl (contentCache fc))
    by apply evictLoop_ttl.
  rewrite Hcfg.
  replace (maxSize (config fc) <? size)%Z with false
    by (symmetry; apply Z.ltb_ge; exact Hsize).
  cbn [config contentCache withMetadata withCurrentSize].
  unfold contentSet, LRU.set, LRU.startAt. rewrite Httl.
  destruct (LRU.lookup p (LRU.slots (contentCache fc1)));
    [|destruct ((N.of_nat (LRU.size (contentCache fc1)) =? LRU.max (contentCache fc1))%N
                && (0 <? LRU.size (contentCache fc1)))];
    rewrite disposeAll_config, disposeAll_content;
    cbn [config contentCache withContent LRU.ttl LRU.slots LRU.withSlots];
    unfold LRU.lookup; cbn [find LRU.key]; rewrite StrFacts.eqb_refl;
    auto.
Qed.

Lemma set_then_fresh (fc : FileCache) (p content : text) (now now' : Z)
      (s : Stats) :
  enabled (config fc) = true ->
  (Z.of_nat (Str.byteLength content) <= maxSize (config fc))%Z ->
  (LRU.ttl (contentCache fc) = 0 \/ now' - now <= LRU.ttl (contentCache fc))%Z ->
  fresh (set fc p content now (Some s)) p now'
  = Some {| content := content; mtime := mtimeMs s;
            size := Z.of_nat (Str.byteLength content) |}.
Proof.
  intros Hen Hsize Httl.
  destruct (set_caches fc p content now s Hen Hsize) as (_ & Ht & Hl).
  unfold fresh. rewrite Hl. unfold LRU.isStale, LRU.startAt. rewrite Ht.
  cbn [LRU.start LRU.value].
  destruct (LRU.ttl (contentCache fc) =? 0)%Z eqn:E0; [reflexivity|].
  apply Z.eqb_neq in E0. destruct Httl as [Httl|Httl]; [contradiction|].
  replace (LRU.ttl (contentCache fc) <? now' - now)%Z with false
    by (symmetry; apply Z.ltb_ge; exact Httl).
  now rewrite andb_false_r.
Qed.

(** C6, as the code has it.  With caching enabled, [get] returns a content
    exactly when the lookup finds an unexpired entry for the path and
    [fs.stat] answers the modification time recorded in it, and the
    content is that entry's; when the file is gone or its time differs the
    answer is a miss and the entry has left the cache.  When moreover the
    content fits the budget, [get] after [set] on the same path, within
    the time to live, returns the content if the second [fs.stat] answers
    the same modification time, and a miss if it answers another one. *)
Theorem get_hits_fresh_unmodified
        (fc : FileCache) (p body : text) (now now' later : Z)
        (st : option Stats) (s s' : Stats) :
  enabled (config fc) = true ->
  (forall c,
      fst (get fc p now later st) = Some c
      <-> exists e stt,
        fresh fc p now = Some e /\ st = Some stt
        /\ mtimeMs stt = mtime e /\ c = content e)
  /\ (forall e,
        fresh fc p now = Some e ->
        (forall stt, st = Some stt -> mtimeMs stt <> mtime e) ->
        fst (get fc p now later st) = None
        /\ present (snd (get fc p now later st)) p = false)
  /\ ((Z.of_nat (Str.byteLength body) <= maxSize (config fc))%Z ->
      (LRU.ttl (contentCache fc) = 0
       \/ now' - now <= LRU.ttl (contentCache fc))%Z ->
      let fc' := set fc p body now (Some s) in
      (mtimeMs s' = mtimeMs s ->
       fst (get fc' p now' later (Some s')) = Some body)
      /\ (mtimeMs s' <> mtimeMs s ->
          fst (get fc' p now' later (Some s')) = None)).
Proof.
  intros Hen. split; [|split].
  - intros c. now apply get_hit_iff.
  - intros e. now apply get_mismatch.
  - intros Hsize Httl fc'.
    pose proof (set_then_fresh fc p body now now' s Hen Hsize Httl) as Hf.
    fold fc' in Hf.
    assert (Hen' : enabled (config fc') = true).
    { destruct (set_caches fc p body now s Hen Hsize) as (Hc & _).
      unfold fc'. now rewrite Hc. }
    split; intros Hm.
    + apply get_hit_iff; [exact Hen'|].
      eexists; exists s'. split; [exact Hf|]. split; [reflexivity|].
      split; [exact Hm|reflexivity].
    + eapply get_mismatch; [exact Hen'|exact Hf|].
      intros stt [= <-]. exact Hm.
Qed.

Lemma get_hits_fresh_unmodified_witness :
  fst (get (set (create smallCfg) (str "/a") five 1 fileStat)
           (str "/a") 1 1 fileStat) = Some five.
Proof.
  apply (get_hits_fresh_unmodified (create smallCfg) (str "/a") five 1 1 1
           fileStat {| mtimeMs := 7; statSize := 5 |}
           {| mtimeMs := 7; statSize := 5 |} eq_refl).
  - vm_compute. discriminate.
  - right. vm_compute. discriminate.
  - reflexivity.
Defined.

(** The claim itself promises the content back after any [set] with an
    unchanged modification time; a content above the budget is not cached,
    nor is anything while caching is disabled, and [get] misses. *)
Lemma get_after_set_misses :
  fst (get (set (create smallCfg) (str "/b") eleven 1 fileStat)
           (str "/b") 1 1 fileStat) <> Some eleven
  /\ fst (get (set (create disabledCfg) (str "/a") five 1 fileStat)
              (str "/a") 1 1 fileStat) <> Some five.
Proof. split; vm_compute; discriminate. Qed.

End CacheProps.
(** ** Searcher *)

Module SearchProps.
Import Spec Scenario.
Import Search.

(** *** The walk, whatever the limit test and the awaits *)

Section Generic.

Variable minimatch : text -> text -> bool.
Variable relative : text -> text -> text.
Variable validatePath : option (text -> result exn text).
Variable answered : state -> state.
Variable stop : state -> bool.
Variables rootPath pattern : text.
Variable excludePatterns : list text.

(** The directory case of [visit] runs the same loop as [searchEntries]. *)
Lemma visit_listing (currentPath name : text) (entries : list dirent)
      (st : state) :
  let fullPath := Path.join [currentPath; name] in
  let checked :=
    match validatePath with
    | Some validate =>
        (match validate fullPath with Ok _ => true | Err _ => false end,
         answered (tick st))
    | None => (true, tick st)
    end in
  visit minimatch relative validatePath answered stop rootPath pattern
        excludePatterns currentPath (DirEnt name (Some entries)) st
  = if negb (fst checked) then snd checked
    else if shouldExclude minimatch relative rootPath excludePatterns fullPath
         then snd checked
         else
           let st1 := if nameMatches pattern name
                      then push (snd checked) fullPath else snd checked in
           if stop st1 then st1
           else searchEntries minimatch relative validatePath answered stop
                              rootPath pattern excludePatterns fullPath entries
                              (answered st1).
Proof.
  intros fullPath checked.
  cbn [visit entryName]. fold fullPath. fold checked.
  destruct checked as [valid st0]. cbn [fst snd].
  destruct (negb valid); [reflexivity|].
  destruct (shouldExclude minimatch relative rootPath excludePatterns fullPath);
    [reflexivity|].
  set (st1 := if nameMatches pattern name then push st0 fullPath else st0).
  destruct (stop st1); [reflexivity|].
  generalize (answered st1). induction entries as [|e rest IH]; intros s.
  - reflexivity.
  - cbn [searchEntries]. destruct (stop s); [reflexivity|]. apply IH.
Qed.


(** What every step keeps, the walk keeps. *)
Section Kept.

Variable Q : state -> Prop.
Hypothesis Q_tick : forall st, Q st -> Q (tick st).
Hypothesis Q_push : forall st p, Q st -> Q (push st p).
Hypothesis Q_answered : forall st, Q st -> Q (answered st).




End Kept.

End Generic.

(** *** The limit on the number of results *)

Section Bounded.

Variable minimatch : text -> text -> bool.
Variable relative : text -> text -> text.
Variable validatePath : option (text -> result exn text).
Variable elapsed : nat -> Z.
Variables rootPath pattern : text.
Variable excludePatterns : list text.
Variable maxResults : Z.
Variable timeout : Z.

Let stop := limitReached maxResults.
Let answered := settle timeout elapsed.
Let inBudget := within maxResults.
Let walk := visit minimatch relative validatePath answered stop rootPath
                  pattern excludePatterns.
Let walkAll := searchEntries minimatch relative validatePath answered stop
                             rootPath pattern excludePatterns.

Lemma running_below (st : state) :
  stop st = false -> (Z.of_nat (length (results st)) < maxResults)%Z.
Proof.
  unfold stop, limitReached. intros H.
  apply orb_false_iff in H as [_ H]. now apply Z.leb_gt in H.
Qed.

Lemma push_within (st : state) (p : text) (b : bool) :
  (Z.of_nat (length (results st)) < maxResults)%Z ->
  inBudget (if b then push st p else st).
Proof.
  intros H. unfold inBudget, within. destruct b; cbn [push results];
    rewrite ?length_app; simpl length; lia.
Qed.

Lemma loop_within (currentPath : text) (entries : list dirent) :
  Forall (fun e => forall cur st,
              (Z.of_nat (length (results st)) < maxResults)%Z ->
              inBudget (walk cur e st))
         entries ->
  forall st, inBudget st -> inBudget (walkAll currentPath entries st).
Proof.
  unfold walkAll. induction 1 as [|e rest He _ IH]; intros st Hst.
  - exact Hst.
  - cbn [searchEntries]. destruct (stop st) eqn:Es; [exact Hst|].
    apply IH. apply He. now apply running_below.
Qed.

Lemma visit_within (e : dirent) :
  forall cur st,
    (Z.of_nat (length (results st)) < maxResults)%Z ->
    inBudget (walk cur e st).
Proof.
  assert (Hlow : forall st : state,
             (Z.of_nat (length (results st)) < maxResults)%Z -> inBudget st)
    by (intros st H; unfold inBudget, within; lia).
  induction e as [n|n|n es IH] using dirent_ind; intros cur st Hst.
  - unfold walk. cbn [visit entryName].
    destruct validatePath as [v|];
      [destruct (v (Path.join [cur; n]))|]; cbn [negb];
      try (now apply Hlow);
      (destruct (shouldExclude _ _ _ _ _); [now apply Hlow|]);
      now apply push_within.
  - unfold walk. cbn [visit entryName].
    destruct validatePath as [v|];
      [destruct (v (Path.join [cur; n]))|]; cbn [negb];
      try (now apply Hlow);
      (destruct (shouldExclude _ _ _ _ _); [now apply Hlow|]);
      match goal with
      | |- inBudget (if stop ?s then _ else _) =>
          assert (H1 : inBudget s) by (now apply push_within);
          destruct (stop s); [exact H1|exact H1]
      end.
  - unfold walk. rewrite visit_listing.
    set (checked := match validatePath with
                    | Some validate =>
                        (match validate (Path.join [cur; n]) with
                         | Ok _ => true | Err _ => false end,
                         answered (tick st))
                    | None => (true, tick st)
                    end).
    assert (Hc : (Z.of_nat (length (results (snd checked))) < maxResults)%Z).
    { unfold checked. destruct validatePath; cbn [snd]; exact Hst. }
    destruct (negb (fst checked)); [now apply Hlow|].
    destruct (shouldExclude _ _ _ _ _); [now apply Hlow|].
    cbv zeta.
    set (st1 := if nameMatches pattern n
                then push (snd checked) (Path.join [cur; n])
                else snd checked).
    assert (H1 : inBudget st1) by (now apply push_within).
    destruct (stop st1); [exact H1|].
    apply loop_within; [exact IH|exact H1].
Qed.

Lemma searchEntries_within (currentPath : text) (entries : list dirent)
      (st : state) :
  inBudget st -> inBudget (walkAll currentPath entries st).
Proof.
  apply loop_within. apply Forall_forall. intros e _. apply visit_within.
Qed.

End Bounded.

(** X18: [searchFiles] of [filesystem/search.ts] resolves to at most
    [maxResults] paths (to none when [maxResults] is not positive), whatever
    the tree, the validator and the timer, and it does resolve whenever the
    root can be listed. *)
Theorem searchFiles_capped
        (minimatch : text -> text -> bool) (relative : text -> text -> text)
        (elapsed : nat -> Z) (rootPath pattern : text)
        (excludePatterns : list text) (maxResults timeout : Z)
        (validatePath : option (text -> result exn text))
        (listing : option (list dirent)) :
  (forall found,
      searchFiles minimatch relative elapsed rootPath pattern excludePatterns
                  maxResults timeout validatePath listing = Ok found ->
      (Z.of_nat (length found) <= Z.max 0 maxResults)%Z)
  /\ (forall entries,
        listing = Some entries ->
        exists found,
          searchFiles minimatch relative elapsed rootPath pattern
                      excludePatterns maxResults timeout validatePath listing
          = Ok found).
Proof.
  split.
  - intros found. unfold searchFiles, searchFrom, searchState.
    destruct (limitReached maxResults _).
    + intros [= <-]. simpl. lia.
    + destruct listing as [entries|]; [|discriminate].
      intros [= <-].
      apply (searchEntries_within minimatch relative validatePath elapsed
               rootPath pattern excludePatterns maxResults timeout).
      unfold within. simpl. lia.
  - intros entries ->. unfold searchFiles, searchFrom, searchState.
    destruct (limitReached _ _); eauto.
Qed.

(** *** A directory that holds files only *)

Section Flat.

Variable minimatch : text -> text -> bool.
Variable relative : text -> text -> text.
Variables rootPath pattern : text.
Variable excludePatterns : list text.

Let keep (n : text) : bool :=
  negb (shouldExclude minimatch relative rootPath excludePatterns
                      (Path.join [rootPath; n]))
  && nameMatches pattern n.

Lemma flatMatches_cons (n : text) (names : list text) :
  flatMatches minimatch relative rootPath pattern excludePatterns (n :: names)
  = (if keep n then [Path.join [rootPath; n]] else [])
      ++ flatMatches minimatch relative rootPath pattern excludePatterns names.
Proof.
  unfold flatMatches, keep. cbn [filter].
  destruct (negb _ && _); reflexivity.
Qed.

(** Without a validator nothing is awaited while the files of a listed
    directory are gone through: the timer is not seen, and the loop runs
    until the files are exhausted or [maxResults] paths are recorded. *)
Lemma flat_loop_unvalidated (elapsed : nat -> Z) (timeout maxResults : Z)
      (names : list text) :
  forall st,
    aborted st = false ->
    results (searchEntries minimatch relative None (settle timeout elapsed)
                           (limitReached maxResults) rootPath pattern
                           excludePatterns rootPath (map FileEnt names) st)
    = results st
        ++ firstn (Z.to_nat (maxResults - Z.of_nat (length (results st))))
                  (flatMatches minimatch relative rootPath pattern
                               excludePatterns names).
Proof.
  induction names as [|n names IH]; intros st Hst.
  - cbn. now rewrite firstn_nil, app_nil_r.
  - cbn [map searchEntries]. unfold limitReached at 1. rewrite Hst.
    cbn [orb].
    destruct (maxResults <=? Z.of_nat (length (results st)))%Z eqn:E.
    + apply Z.leb_le in E.
      replace (Z.to_nat (maxResults - Z.of_nat (length (results st)))) with 0
        by lia.
      now rewrite app_nil_r.
    + apply Z.leb_gt in E. rewrite flatMatches_cons. unfold keep.
      cbn [visit entryName negb].
      destruct (shouldExclude minimatch relative rootPath excludePatterns
                              (Path.join [rootPath; n])); cbn [negb andb].
      * rewrite IH by exact Hst. reflexivity.
      * destruct (nameMatches pattern n).
        -- rewrite IH by exact Hst. cbn [push tick results].
           rewrite length_app. simpl length. rewrite <- app_assoc.
           f_equal. simpl app.
           replace (Z.to_nat (maxResults - Z.of_nat (length (results st))))
             with (S (Z.to_nat (maxResults
                                - Z.of_nat (length (results st) + 1))))
             by lia.
           reflexivity.
        -- rewrite IH by exact Hst. reflexivity.
Qed.

(** The monolithic [searchFiles] records every match. *)
Lemma flat_loop_legacy (validate : text -> result exn text)
      (names : list text) :
  (forall p, exists r, validate p = Ok r) ->
  forall st,
    results (searchEntries minimatch relative (Some validate) tick
                           (fun _ => false) rootPath pattern excludePatterns
                           rootPath (map FileEnt names) st)
    = results st
        ++ flatMatches minimatch relative rootPath pattern excludePatterns
                       names.
Proof.
  intros Hv. induction names as [|n names IH]; intros st.
  - cbn. now rewrite app_nil_r.
  - cbn [map searchEntries]. rewrite flatMatches_cons. unfold keep.
    cbn [visit entryName].
    destruct (Hv (Path.join [rootPath; n])) as [r Hr]. rewrite Hr.
    cbn [negb].
    destruct (shouldExclude minimatch relative rootPath excludePatterns
                            (Path.join [rootPath; n])); cbn [negb andb].
    + rewrite IH. reflexivity.
    + destruct (nameMatches pattern n); rewrite IH; cbn [push tick results];
        [now rewrite <- app_assoc|reflexivity].
Qed.

End Flat.

(** C7: the claim fails on a directory that holds files only.  The
    [searchFiles] of the monolithic server, the one its [search_files] tool
    calls, takes no limit and returns every match, however many.  The
    [searchFiles] of [filesystem/search.ts], called without a validator,
    awaits nothing once the directory is listed, so the callback of its
    timer cannot run: whatever the timeout and however long the steps take,
    it goes on recording matches until the files are exhausted or
    [maxResults] paths are recorded. *)
Theorem searchFiles_limits_not_kept
        (minimatch : text -> text -> bool) (relative : text -> text -> text)
        (rootPath pattern : text) (excludePatterns names : list text) :
  (forall validate,
      (forall p, exists r, validate p = Ok r) ->
      searchFilesLegacy minimatch relative validate rootPath pattern
                        excludePatterns (Some (map FileEnt names))
      = Ok (flatMatches minimatch relative rootPath pattern excludePatterns
                        names))
  /\ (forall elapsed timeout maxResults,
        (elapsed 1%nat < timeout)%Z ->
        searchFiles minimatch relative elapsed rootPath pattern
                    excludePatterns maxResults timeout None
                    (Some (map FileEnt names))
        = Ok (firstn (Z.to_nat maxResults)
                     (flatMatches minimatch relative rootPath pattern
                                  excludePatterns names))).
Proof.
  split.
  - intros validate Hv. unfold searchFilesLegacy, searchFrom, searchState.
    now rewrite flat_loop_legacy.
  - intros elapsed timeout maxResults Ht.
    unfold searchFiles, searchFrom, searchState.
    unfold limitReached at 1. cbn [aborted results length orb].
    destruct (maxResults <=? Z.of_nat 0)%Z eqn:E.
    + apply Z.leb_le in E. now replace (Z.to_nat maxResults) with 0 by lia.
    + rewrite flat_loop_unvalidated.
      * cbn [settle results app length]. now rewrite Z.sub_0_r.
      * cbn [settle aborted orb clock]. apply Z.leb_gt. exact Ht.
Qed.

(** Three files that match: the monolithic server returns the three of
    them, and so does [filesystem/search.ts] against a timeout of one
    millisecond, returning after four seconds. *)
Lemma searchFiles_limits_not_kept_on_three_files :
  searchFilesLegacy noGlob asIs (fun p => Ok p) (str "/r") (str "A") []
                    threeFiles
  = Ok [str "/r/a1"; str "/r/a2"; str "/r/a3"]
  /\ searchFiles noGlob asIs slowSteps (str "/r") (str "A") [] 1000 1 None
                 threeFiles
     = Ok [str "/r/a1"; str "/r/a2"; str "/r/a3"]
  /\ match searchState noGlob asIs None (settle 1 slowSteps)
                       (limitReached 1000) (str "/r") (str "A") [] threeFiles
     with
     | Ok st => slowSteps (clock st)
     | Err _ => 0%Z
     end = 4000%Z.
Proof.
  destruct (searchFiles_limits_not_kept noGlob asIs (str "/r") (str "A") []
              [str "a1"; str "a2"; str "a3"]) as [Hlegacy Hlimited].
  split; [|split].
  - apply (Hlegacy (fun p => Ok p)). intros p. now exists p.
  - apply (Hlimited slowSteps 1%Z 1000%Z). reflexivity.
  - vm_compute. reflexivity.
Defined.

End SearchProps.

(** ** StreamReader *)

Module ReaderProps.
Import Spec Scenario.
Import Operations.

Lemma split_no_sep (c : ascii) (s : text) :
  count_occ ascii_dec s c = 0 -> Str.split c s = [s].
Proof.
  induction s as [|x s IH]; intros H; [reflexivity|].
  destruct (Ascii.eqb x c) eqn:E.
  - apply Ascii.eqb_eq in E. subst x.
    rewrite count_occ_cons_eq in H by reflexivity. discriminate.
  - rewrite StrFacts.split_cons_other by assumption.
    apply Ascii.eqb_neq in E. rewrite count_occ_cons_neq in H by assumption.
    now rewrite IH.
Qed.

(** Text put in front of a content only changes its first line. *)
Lemma split_prepend (c : ascii) (d s r : text) (L : list text) :
  Str.split c s = r :: L ->
  Str.split c (d ++ s) = Str.split c (d ++ r) ++ L.
Proof.
  intros Hs. induction d as [|x d IH].
  - simpl. rewrite Hs. rewrite split_no_sep; [reflexivity|].
    pose proof (StrFacts.split_head_no_sep c s) as H. now rewrite Hs in H.
  - destruct (Ascii.eqb x c) eqn:E.
    + simpl. rewrite E. now rewrite IH.
    + rewrite <- !app_comm_cons, !StrFacts.split_cons_other, IH by assumption.
      destruct (Str.split c (d ++ r)) eqn:Ed;
        [now apply StrFacts.split_nonempty in Ed|reflexivity].
Qed.

Lemma split_first_prefix (c : ascii) (s r : text) (L : list text) :
  Str.split c s = r :: L -> exists rest, s = r ++ rest.
Proof.
  intros H. rewrite <- (StrFacts.join_split c s), H.
  destruct L as [|l L]; simpl.
  - exists []. now rewrite app_nil_r.
  - eexists. reflexivity.
Qed.

Lemma lineCount_skipn (p : nat) (content : text) :
  lineCount (skipn p content) <= lineCount content.
Proof.
  unfold lineCount. rewrite !StrFacts.length_split.
  rewrite <- (firstn_skipn p content) at 2. rewrite count_occ_app. lia.
Qed.

Lemma includes_inside (a s b p : text) :
  Str.includes (a ++ s ++ b) p = false -> Str.includes s p = false.
Proof.
  intros H. destruct (Str.includes s p) eqn:E; [|reflexivity].
  apply StrFacts.includes_iff in E as (pre & post & ->).
  assert (Str.includes (a ++ (pre ++ p ++ post) ++ b) p = true).
  { apply StrFacts.includes_iff. exists (a ++ pre), (post ++ b).
    now rewrite <- !app_assoc. }
  congruence.
Qed.

Lemma unshiftLoop_all (n : nat) (revChunk : list text) :
  forall lines found,
    found + length revChunk <= n ->
    unshiftLoop n revChunk lines found
    = (rev revChunk ++ lines, found + length revChunk).
Proof.
  induction revChunk as [|l r IH]; intros lines found H.
  - simpl. now rewrite Nat.add_0_r.
  - simpl in *. replace (found <? n) with true
      by (symmetry; apply Nat.ltb_lt; lia).
    rewrite IH by lia. rewrite <- app_assoc. simpl. f_equal. lia.
Qed.

Lemma tailLoop_at_start (fuel k : nat) (content : text) (n : nat)
      (lines : list text) (found : nat) (r : text) :
  tailLoop (fun s => s) fuel k content n lines 0 found r = lines.
Proof. destruct fuel; reflexivity. Qed.

(** [tailLoop] ends within [position] turns: more fuel changes nothing. *)
Lemma tailLoop_fuel_enough (k n : nat) (content : text) (fuel1 : nat) :
  forall fuel2 p lines found r,
    p <= fuel1 -> p <= fuel2 ->
    tailLoop (fun s => s) fuel1 k content n lines p found r
    = tailLoop (fun s => s) fuel2 k content n lines p found r.
Proof.
  induction fuel1 as [|fuel1 IH]; intros fuel2 p lines found r H1 H2.
  - assert (p = 0) as -> by lia. now rewrite !tailLoop_at_start.
  - destruct fuel2 as [|fuel2].
    { assert (p = 0) as -> by lia. now rewrite !tailLoop_at_start. }
    cbn [tailLoop].
    destruct ((0 <? p) && (found <? n)); [|reflexivity].
    destruct (length (firstn (Nat.min k p) (skipn (p - Nat.min k p) content)) =? 0)
      eqn:El; [reflexivity|].
    apply Nat.eqb_neq in El. rewrite length_firstn in El.
    destruct (if 0 <? p - Nat.min k p then _ else _) as [r' cl].
    destruct (unshiftLoop n (rev cl) lines found) as [lines' found'].
    apply IH; lia.
Qed.

(** [headLoop] ends once the file is read: more fuel changes nothing. *)
Lemma headLoop_fuel_enough (n : nat) (content : text) (fuel1 : nat) :
  forall fuel2 lines buffer bytesRead,
    length content - bytesRead < fuel1 ->
    length content - bytesRead < fuel2 ->
    headLoop (fun s => s) fuel1 content n lines buffer bytesRead
    = headLoop (fun s => s) fuel2 content n lines buffer bytesRead.
Proof.
  induction fuel1 as [|fuel1 IH]; intros fuel2 lines buffer bytesRead H1 H2;
    [lia|].
  destruct fuel2 as [|fuel2]; [lia|].
  cbn [headLoop].
  destruct (length lines <? n); [|reflexivity].
  destruct (length (firstn 1024 (skipn bytesRead content)) =? 0) eqn:El;
    [reflexivity|].
  apply Nat.eqb_neq in El.
  assert (Hd : 0 < length (firstn 1024 (skipn bytesRead content))
               <= length content - bytesRead).
  { rewrite length_firstn, length_skipn in *. lia. }
  destruct (lastIndexOf LF (buffer ++ firstn 1024 (skipn bytesRead content)));
    apply IH; lia.
Qed.

(** The backward loop with room for every line: from a position whose
    suffix splits into [r :: lines], it ends with all the lines of the
    content. *)
Lemma tailLoop_all (k n : nat) (content : text) :
  0 < k ->
  Str.includes content [CR; LF] = false ->
  lineCount content <= n ->
  forall fuel p lines r,
    0 < p -> p <= length content -> p <= fuel ->
    Str.split LF (skipn p content) = r :: lines ->
    tailLoop (fun s => s) fuel k content n lines p (length lines) r
    = Str.split LF content.
Proof.
  intros Hk Hcr Hn. induction fuel as [|fuel IH];
    intros p lines r Hp Hlen Hfuel Hsplit; [lia|].
  cbn [tailLoop].
  assert (Hcount : S (length lines) <= n).
  { pose proof (lineCount_skipn p content) as H. unfold lineCount in H at 1.
    rewrite Hsplit in H. simpl in H. lia. }
  replace (0 <? p) with true by (symmetry; apply Nat.ltb_lt; lia).
  replace (length lines <? n) with true by (symmetry; apply Nat.ltb_lt; lia).
  cbn [andb].
  set (size := Nat.min k p). set (p' := p - size).
  assert (Hsize : 0 < size <= p) by (unfold size; lia).
  set (readData := firstn size (skipn p' content)).
  assert (Hread : length readData = size).
  { unfold readData. rewrite length_firstn, length_skipn. unfold p'. lia. }
  assert (Hsuffix : skipn p' content = readData ++ skipn p content).
  { unfold readData. rewrite <- (firstn_skipn size (skipn p' content)) at 1.
    f_equal. rewrite skipn_skipn. f_equal. unfold p'. lia. }
  replace (length readData =? 0) with false
    by (symmetry; apply Nat.eqb_neq; lia).
  assert (Hnorm : normalizeLineEndings (readData ++ r) = readData ++ r).
  { apply PatchProps.normalizeLineEndings_id.
    destruct (split_first_prefix LF _ _ _ Hsplit) as [rest Hrest].
    apply (includes_inside (firstn p' content) (readData ++ r) rest).
    replace (firstn p' content ++ (readData ++ r) ++ rest) with content;
      [exact Hcr|].
    rewrite <- app_assoc, <- Hrest, <- Hsuffix. symmetry. apply firstn_skipn. }
  rewrite Hnorm.
  pose proof (split_prepend LF readData _ _ _ Hsplit) as Hall.
  rewrite <- Hsuffix in Hall.
  set (chunkLines := Str.split LF (readData ++ r)) in *.
  assert (Hroom : length chunkLines + length lines <= n).
  { pose proof (lineCount_skipn p' content) as H. unfold lineCount in H at 1.
    rewrite Hall, length_app in H. lia. }
  destruct (0 <? p') eqn:Ep.
  - apply Nat.ltb_lt in Ep.
    destruct chunkLines as [|l cl] eqn:Ecl;
      [now apply StrFacts.split_nonempty in Ecl|].
    cbn [hd tl]. simpl in Hroom.
    rewrite unshiftLoop_all by (rewrite length_rev; lia).
    rewrite rev_involutive, length_rev.
    replace (length lines + length cl) with (length (cl ++ lines))
      by (rewrite length_app; lia).
    apply IH; [lia|unfold p'; lia|unfold p'; lia|exact Hall].
  - apply Nat.ltb_ge in Ep. assert (p' = 0) as Hz by lia.
    rewrite unshiftLoop_all by (rewrite length_rev; lia).
    rewrite rev_involutive, Hz, tailLoop_at_start.
    rewrite Hz in Hall. simpl in Hall. now rewrite Hall.
Qed.

Lemma tailText_whole (content : text) (n : nat) :
  Str.includes content [CR; LF] = false ->
  lineCount content <= n ->
  tailText (fun s => s) content n = content.
Proof.
  intros Hcr Hn. unfold tailText.
  destruct (length content =? 0) eqn:E.
  - apply Nat.eqb_eq in E. destruct content; [reflexivity|discriminate].
  - apply Nat.eqb_neq in E.
    rewrite (tailLoop_all CHUNK_SIZE n content) with (lines := []) (r := []);
      try lia; try assumption.
    + apply StrFacts.join_split.
    + unfold CHUNK_SIZE. lia.
    + now rewrite skipn_all.
Qed.

Lemma tailText_zero (content : text) : tailText (fun s => s) content 0 = [].
Proof.
  unfold tailText. destruct (length content =? 0); [reflexivity|].
  destruct (length content); [reflexivity|].
  cbn [tailLoop]. now rewrite andb_false_r.
Qed.

End ReaderProps.
(** ** The [read_file] tool *)

Module ServerProps.
Import Spec Scenario.
Import Server.

(** C9, as the code has it.  When the path passes [validatePath] and both
    [head] and [tail] are given and are not zero, the call fails with
    "Cannot specify both head and tail parameters simultaneously" and the
    response carries that error, no content of the file. *)
Theorem readFile_head_and_tail_refused
        (homedir cwd : text) (realpath : text -> option text)
        (roots : list text) (fs : Operations.files)
        (toString : text -> text)
        (args : ReadFileArgs) (validPath : text) (h t : Z) :
  Security.validatePathLegacy homedir cwd realpath roots (path args)
  = Ok validPath ->
  head args = Some h -> tail args = Some t ->
  h <> 0%Z -> t <> 0%Z ->
  readFileTool homedir cwd realpath roots fs toString args = Err (Error msgBoth)
  /\ callReadFile homedir cwd realpath roots fs toString args
     = {| responseText := str "Error: " ++ msgBoth; isError := true |}.
Proof.
  intros Hvalid Hh Ht Hh0 Ht0.
  assert (H : readFileTool homedir cwd realpath roots fs toString args
              = Err (Error msgBoth)).
  { unfold readFileTool. rewrite Hvalid. cbn [bind].
    rewrite Hh, Ht. unfold truthy.
    apply Z.eqb_neq in Hh0, Ht0. now rewrite Hh0, Ht0. }
  split; [exact H|]. unfold callReadFile. now rewrite H.
Qed.

Lemma readFile_head_and_tail_refused_witness :
  readFileTool home root plainFs dataRoots
               logFs questionMarks (bothArgs (str "/data/log") 1 1)
  = Err (Error msgBoth).
Proof.
  apply (readFile_head_and_tail_refused home root
           plainFs dataRoots logFs questionMarks
           (bothArgs (str "/data/log") 1 1) (str "/data/log") 1 1);
    try reflexivity; discriminate.
Defined.

(** The claim itself promises that error for every request with both
    parameters; the path is validated first, and a request for a path
    outside the roots fails with the access error instead. *)
Lemma readFile_both_outside_roots :
  readFileTool home root plainFs dataRoots
               logFs questionMarks (bothArgs (str "/etc/passwd") 1 1)
  = Err (Error (Security.msgOutside dataRoots (str "/etc/passwd")))
  /\ readFileTool home root plainFs dataRoots
                  logFs questionMarks (bothArgs (str "/etc/passwd") 1 1)
     <> Err (Error msgBoth).
Proof. split; [vm_compute; reflexivity|vm_compute; discriminate]. Qed.

(** The test [parsed.data.head && parsed.data.tail] is one of truthiness:
    with [head] given as zero the request is served as a [tail] request. *)
Example readFile_zero_head_serves_tail :
  readFileTool home root plainFs dataRoots
               logFs questionMarks (bothArgs (str "/data/log") 0 2)
  = Ok (str "two" ++ [LF] ++ str "three").
Proof. vm_compute. reflexivity. Qed.

End ServerProps.
(** * Further properties of the code *)

(** ** More on splitting into lines *)

Module SplitFacts.

Lemma split_snoc (c : ascii) (s : text) :
  exists all r, Str.split c s = all ++ [r].
Proof.
  destruct (exists_last (StrFacts.split_nonempty c s)) as (all & r & H).
  eauto.
Qed.

Lemma split_cons_cons (c : ascii) :
  forall s l m rest,
    Str.split c s = l :: m :: rest ->
    exists s', s = l ++ c :: s' /\ Str.split c s' = m :: rest.
Proof.
  induction s as [|x s IH]; intros l m rest H.
  - discriminate.
  - destruct (Ascii.eqb x c) eqn:E.
    + simpl in H. rewrite E in H. apply Ascii.eqb_eq in E. subst x.
      injection H as <- H. exists s. split; [reflexivity|exact H].
    + rewrite StrFacts.split_cons_other in H by assumption.
      destruct (Str.split c s) as [|h t] eqn:Es;
        [now apply StrFacts.split_nonempty in Es|].
      simpl in H. injection H as <- ->.
      destruct (IH h m rest eq_refl) as (s' & -> & Hs').
      exists s'. split; [reflexivity|exact Hs'].
Qed.

Lemma split_single (c : ascii) (s r : text) :
  Str.split c s = [r] -> s = r.
Proof.
  intros H. rewrite <- (StrFacts.join_split c s), H. reflexivity.
Qed.

(** Text put after a content only changes its last line. *)
Lemma split_append (c : ascii) (d : text) :
  forall all x r,
    Str.split c x = all ++ [r] ->
    Str.split c (x ++ d) = all ++ Str.split c (r ++ d).
Proof.
  induction all as [|l all IH]; intros x r H.
  - simpl in *. apply split_single in H. now subst x.
  - simpl in H. destruct (all ++ [r]) as [|m rest] eqn:Erest;
      [now destruct all|].
    destruct (split_cons_cons c x l m rest H) as (x' & -> & Hx').
    assert (Hl : Str.split c l = [l]).
    { rewrite StrFacts.split_app, Hx' in H.
      change (l :: m :: rest) with ([l] ++ m :: rest) in H.
      now apply app_inv_tail in H. }
    rewrite <- app_assoc, <- app_comm_cons, StrFacts.split_app, Hl.
    simpl. f_equal. apply IH. now rewrite Erest.
Qed.

Lemma lastIndexOfFrom_spec (c : ascii) :
  forall s i found,
    (Operations.lastIndexOfFrom c s i found = found
     /\ count_occ ascii_dec s c = 0)
    \/ exists j,
        Operations.lastIndexOfFrom c s i found = Some (i + j)
        /\ s = firstn j s ++ c :: skipn (S j) s
        /\ count_occ ascii_dec (skipn (S j) s) c = 0.
Proof.
  induction s as [|x s IH]; intros i found.
  - left. split; reflexivity.
  - simpl Operations.lastIndexOfFrom.
    destruct (IH (S i) (if Ascii.eqb x c then Some i else found))
      as [[Hr Hc]|(j & Hr & Hs & Hc)].
    + destruct (Ascii.eqb x c) eqn:E.
      * right. exists 0. apply Ascii.eqb_eq in E. subst x.
        rewrite Hr, Nat.add_0_r. simpl. auto.
      * left. apply Ascii.eqb_neq in E. rewrite Hr.
        split; [reflexivity|]. now rewrite count_occ_cons_neq.
    + right. exists (S j). rewrite Hr. split; [f_equal; lia|].
      split; [|exact Hc].
      cbn [firstn app]. change (skipn (S (S j)) (x :: s)) with (skipn (S j) s).
      now rewrite <- Hs.
Qed.

Lemma split_lone_piece (c : ascii) (s : text) :
  count_occ ascii_dec s c = 0 -> Str.split c s = [s].
Proof.
  induction s as [|x s IH]; intros H; [reflexivity|].
  destruct (Ascii.eqb x c) eqn:E.
  - apply Ascii.eqb_eq in E. subst x.
    rewrite count_occ_cons_eq in H by reflexivity. discriminate.
  - rewrite StrFacts.split_cons_other by assumption.
    apply Ascii.eqb_neq in E. rewrite count_occ_cons_neq in H by assumption.
    now rewrite IH.
Qed.

End SplitFacts.
(** ** StreamReader: what [headFile] and [tailFile] return *)

Module ReaderExtra.
Import Spec Scenario.
Import Operations.

Lemma firstn_extend {A : Type} (b k : nat) :
  forall l : list A, firstn (b + k) l = firstn b l ++ firstn k (skipn b l).
Proof.
  induction b as [|b IH]; intros l; [reflexivity|].
  destruct l as [|x l]; simpl.
  - now rewrite firstn_nil.
  - f_equal. apply IH.
Qed.

Lemma pushLoop_spec (n : nat) (completeLines : list text) :
  forall lines,
    length lines < n ->
    pushLoop n completeLines lines = firstn n (lines ++ completeLines).
Proof.
  induction completeLines as [|l r IH]; intros lines H.
  - simpl. rewrite app_nil_r, firstn_all2; [reflexivity|lia].
  - simpl. destruct (n <=? length (lines ++ [l])) eqn:E.
    + apply Nat.leb_le in E. rewrite length_app in E. simpl in E.
      change (l :: r) with ([l] ++ r). rewrite app_assoc.
      rewrite firstn_app.
      replace (n - length (lines ++ [l])) with 0
        by (rewrite length_app; simpl; lia).
      rewrite firstn_all2 by (rewrite length_app; simpl; lia).
      simpl. now rewrite app_nil_r.
    + apply Nat.leb_gt in E. rewrite IH by exact E.
      now rewrite <- app_assoc.
Qed.

(** Once [n] lines are there, they are the first [n] lines of the file. *)
Lemma head_enough (content : text) (n b : nat) (all : list text) (buffer : text) :
  Str.split LF (firstn b content) = all ++ [buffer] ->
  n <= length all ->
  firstn n (headPieces content) = firstn n all.
Proof.
  intros Hsplit Hn.
  pose proof (SplitFacts.split_append LF (skipn b content) all _ _ Hsplit) as H.
  rewrite firstn_skipn in H.
  destruct (Str.split LF (buffer ++ skipn b content)) as [|h t] eqn:E;
    [now apply StrFacts.split_nonempty in E|].
  assert (Hcut : forall X, firstn n (all ++ X) = firstn n all).
  { intros X. rewrite firstn_app. replace (n - length all) with 0 by lia.
    simpl. now rewrite app_nil_r. }
  unfold headPieces. rewrite H.
  destruct (last (all ++ h :: t) []).
  - rewrite removelast_app by discriminate. apply Hcut.
  - apply Hcut.
Qed.

(** At the end of the file the lines read and the buffer are all of it. *)
Lemma head_at_end (content : text) (n : nat) (all : list text) (buffer : text) :
  Str.split LF content = all ++ [buffer] ->
  length all < n ->
  Str.join [LF]
    (if (0 <? length buffer) && (length all <? n) then all ++ [buffer] else all)
  = Str.join [LF] (firstn n (headPieces content)).
Proof.
  intros Hsplit Hn. unfold headPieces. rewrite Hsplit, last_last.
  replace (length all <? n) with true by (symmetry; apply Nat.ltb_lt; lia).
  destruct buffer as [|x buffer]; simpl.
  - rewrite removelast_last, firstn_all2; [reflexivity|lia].
  - rewrite firstn_all2; [reflexivity|].
    rewrite length_app. simpl. lia.
Qed.

Lemma headLoop_spec (content : text) (n : nat) (fuel : nat) :
  forall b lines buffer all,
    length content - b < fuel ->
    b <= length content ->
    Str.split LF (firstn b content) = all ++ [buffer] ->
    lines = firstn n all ->
    (let '(ls, buf) := headLoop (fun s => s) fuel content n lines buffer b in
     Str.join [LF]
       (if (0 <? length buf) && (length ls <? n) then ls ++ [buf] else ls))
    = Str.join [LF] (firstn n (headPieces content)).
Proof.
  induction fuel as [|fuel IH]; intros b lines buffer all Hfuel Hb Hsplit Hlines;
    [lia|].
  cbn [headLoop].
  destruct (length lines <? n) eqn:Elt.
  - apply Nat.ltb_lt in Elt.
    assert (Hall : lines = all /\ length all < n).
    { subst lines. rewrite length_firstn in Elt.
      split; [apply firstn_all2|]; lia. }
    destruct Hall as [-> Hall].
    set (data := firstn 1024 (skipn b content)).
    destruct (length data =? 0) eqn:Ed.
    + apply Nat.eqb_eq in Ed. unfold data in Ed.
      rewrite length_firstn, length_skipn in Ed.
      assert (b = length content) as -> by lia.
      rewrite firstn_all in Hsplit.
      now apply head_at_end.
    + apply Nat.eqb_neq in Ed.
      assert (Hlen : length data <= length content - b).
      { unfold data. rewrite length_firstn, length_skipn. lia. }
      assert (Hpre : firstn (b + length data) content = firstn b content ++ data).
      { rewrite firstn_extend. f_equal. unfold data. rewrite length_firstn.
        destruct (Nat.min_spec 1024 (length (skipn b content)))
          as [[_ ->]|[Hle ->]]; [reflexivity|].
        rewrite !firstn_all2; trivial; lia. }
      pose proof (SplitFacts.split_append LF data all _ _ Hsplit) as Hnext.
      rewrite <- Hpre in Hnext.
      unfold lastIndexOf.
      destruct (SplitFacts.lastIndexOfFrom_spec LF (buffer ++ data) 0 None)
        as [[Hr Hc]|(j & Hr & Hs & Hc)]; rewrite Hr.
      * apply (IH (b + length data) all (buffer ++ data) all); try lia.
        -- rewrite Hnext, (SplitFacts.split_lone_piece LF _ Hc). reflexivity.
        -- symmetry. apply firstn_all2. lia.
      * simpl Nat.add.
        replace (j + 1) with (S j) by lia.
        assert (Hparts : Str.split LF (buffer ++ data)
                         = Str.split LF (firstn j (buffer ++ data))
                             ++ [skipn (S j) (buffer ++ data)]).
        { rewrite Hs at 1. rewrite StrFacts.split_app.
          now rewrite (SplitFacts.split_lone_piece LF _ Hc). }
        rewrite pushLoop_spec by exact Hall.
        apply (IH (b + length data) _ _
                  (all ++ Str.split LF (firstn j (buffer ++ data)))); try lia.
        -- rewrite Hnext, Hparts. now rewrite app_assoc.
        -- reflexivity.
  - cbv beta iota. rewrite Elt, andb_false_r. apply Nat.ltb_ge in Elt.
    subst lines. rewrite length_firstn in Elt.
    f_equal. symmetry. apply (head_enough content n b all buffer Hsplit). lia.
Qed.

Lemma headText_first_lines (content : text) (n : nat) :
  headText (fun s => s) content n = Str.join [LF] (firstn n (headPieces content)).
Proof.
  unfold headText.
  pose proof (headLoop_spec content n (S (length content)) 0 [] [] []) as H.
  simpl firstn in H. rewrite H; try reflexivity; try lia.
  now destruct n.
Qed.

(** *** The last lines *)

Lemma lastn_all {A : Type} (n : nat) (l : list A) :
  length l <= n -> lastn n l = l.
Proof.
  intros H. unfold lastn. now replace (length l - n) with 0 by lia.
Qed.

Lemma length_lastn {A : Type} (n : nat) (l : list A) :
  length (lastn n l) = Nat.min n (length l).
Proof. unfold lastn. rewrite length_skipn. lia. Qed.

Lemma lastn_app_keep {A : Type} (n : nat) (x all : list A) :
  length all <= n -> lastn n (x ++ all) = lastn (n - length all) x ++ all.
Proof.
  intros H. unfold lastn. rewrite length_app, skipn_app.
  replace (length x + length all - n - length x) with 0 by lia.
  simpl. f_equal. f_equal. lia.
Qed.

Lemma lastn_app_full {A : Type} (n : nat) (x all : list A) :
  n <= length all -> lastn n (x ++ all) = lastn n all.
Proof.
  intros H. unfold lastn. rewrite length_app, skipn_app.
  rewrite skipn_all2 by lia. simpl. f_equal. lia.
Qed.

Lemma unshiftLoop_spec (n : nat) (revChunk : list text) :
  forall lines found,
    found <= n ->
    unshiftLoop n revChunk lines found
    = (rev (firstn (n - found) revChunk) ++ lines,
       found + Nat.min (n - found) (length revChunk)).
Proof.
  induction revChunk as [|l r IH]; intros lines found H.
  - simpl. rewrite firstn_nil. simpl. f_equal. lia.
  - simpl unshiftLoop. destruct (found <? n) eqn:E.
    + apply Nat.ltb_lt in E. rewrite IH by lia.
      replace (n - found) with (S (n - S found)) by lia.
      simpl. rewrite <- app_assoc. simpl. f_equal. lia.
    + apply Nat.ltb_ge in E. replace (n - found) with 0 by lia.
      simpl. f_equal. lia.
Qed.

Lemma unshiftLoop_lastn (n : nat) (chunkLines all : list text) :
  length all <= n ->
  unshiftLoop n (rev chunkLines) all (length all)
  = (lastn n (chunkLines ++ all), length (lastn n (chunkLines ++ all))).
Proof.
  intros H. rewrite unshiftLoop_spec by exact H.
  rewrite firstn_rev, rev_involutive, length_rev.
  rewrite length_lastn, length_app, lastn_app_keep by exact H.
  unfold lastn. f_equal. lia.
Qed.

(** The backward loop in general: from a position whose suffix splits into
    [r :: all], with the last [n] of [all] collected, it ends with the last
    [n] lines of the content. *)
Lemma tailLoop_lastn (k n : nat) (content : text) :
  0 < k ->
  Str.includes content [CR; LF] = false ->
  forall fuel p lines r all,
    0 < p -> p <= length content -> p <= fuel ->
    Str.split LF (skipn p content) = r :: all ->
    lines = lastn n all ->
    tailLoop (fun s => s) fuel k content n lines p (length lines) r
    = lastn n (Str.split LF content).
Proof.
  intros Hk Hcr. induction fuel as [|fuel IH];
    intros p lines r all Hp Hlen Hfuel Hsplit Hlines; [lia|].
  cbn [tailLoop].
  replace (0 <? p) with true by (symmetry; apply Nat.ltb_lt; lia).
  cbn [andb].
  assert (Hwhole : Str.split LF content
                   = Str.split LF (firstn p content ++ r) ++ all).
  { rewrite <- (firstn_skipn p content) at 1.
    apply (ReaderProps.split_prepend LF _ _ _ _ Hsplit). }
  destruct (length lines <? n) eqn:Elt.
  - apply Nat.ltb_lt in Elt.
    assert (Hall : lines = all /\ length all < n).
    { subst lines. rewrite length_lastn in Elt.
      split; [apply lastn_all|]; lia. }
    destruct Hall as [-> Hall]. clear Hlines Elt.
    set (size := Nat.min k p). set (p' := p - size).
    assert (Hsize : 0 < size <= p) by (unfold size; lia).
    set (readData := firstn size (skipn p' content)).
    assert (Hread : length readData = size).
    { unfold readData. rewrite length_firstn, length_skipn. unfold p'. lia. }
    assert (Hsuffix : skipn p' content = readData ++ skipn p content).
    { unfold readData. rewrite <- (firstn_skipn size (skipn p' content)) at 1.
      f_equal. rewrite skipn_skipn. f_equal. unfold p'. lia. }
    replace (length readData =? 0) with false
      by (symmetry; apply Nat.eqb_neq; lia).
    assert (Hnorm : normalizeLineEndings (readData ++ r) = readData ++ r).
    { apply PatchProps.normalizeLineEndings_id.
      destruct (ReaderProps.split_first_prefix LF _ _ _ Hsplit) as [rest Hrest].
      apply (ReaderProps.includes_inside (firstn p' content) (readData ++ r) rest).
      replace (firstn p' content ++ (readData ++ r) ++ rest) with content;
        [exact Hcr|].
      rewrite <- app_assoc, <- Hrest, <- Hsuffix. symmetry. apply firstn_skipn. }
    rewrite Hnorm.
    pose proof (ReaderProps.split_prepend LF readData _ _ _ Hsplit) as Hnext.
    rewrite <- Hsuffix in Hnext.
    set (chunkLines := Str.split LF (readData ++ r)) in *.
    destruct (0 <? p') eqn:Ep.
    + apply Nat.ltb_lt in Ep.
      destruct chunkLines as [|l cl] eqn:Ecl;
        [now apply StrFacts.split_nonempty in Ecl|].
      cbn [hd tl]. rewrite unshiftLoop_lastn by lia.
      apply (IH p' _ l (cl ++ all)); try (unfold p'; lia).
      * exact Hnext.
      * reflexivity.
    + apply Nat.ltb_ge in Ep. assert (p' = 0) as Hz by lia.
      rewrite unshiftLoop_lastn by lia.
      rewrite Hz, ReaderProps.tailLoop_at_start.
      rewrite Hz in Hnext. simpl in Hnext. now rewrite Hnext.
  - apply Nat.ltb_ge in Elt. subst lines. rewrite length_lastn in Elt.
    rewrite Hwhole. symmetry. apply lastn_app_full. lia.
Qed.

Lemma tailText_last_lines (content : text) (n : nat) :
  Str.includes content [CR; LF] = false ->
  tailText (fun s => s) content n = Str.join [LF] (lastn n (Str.split LF content)).
Proof.
  intros Hcr. unfold tailText.
  destruct (length content =? 0) eqn:E.
  - apply Nat.eqb_eq in E. destruct content; [|discriminate].
    now destruct n.
  - apply Nat.eqb_neq in E. f_equal.
    apply (tailLoop_lastn CHUNK_SIZE n content) with (lines := []) (all := []);
      try lia; try assumption.
    + unfold CHUNK_SIZE. lia.
    + now rewrite skipn_all.
    + reflexivity.
Qed.

(** *** Reads that are decoded one by one *)

Lemma sevenBit_slice (content : text) (n p : nat) :
  sevenBit content -> sevenBit (firstn n (skipn p content)).
Proof.
  unfold sevenBit. intros H.
  rewrite <- (firstn_skipn p content) in H. apply Forall_app in H as [_ H].
  rewrite <- (firstn_skipn n (skipn p content)) in H.
  now apply Forall_app in H as [H _].
Qed.

Lemma sevenBit_forallb (s : text) :
  forallb (fun c => nat_of_ascii c <? 128) s = true -> sevenBit s.
Proof.
  unfold sevenBit. intros H. apply Forall_forall. intros c Hc.
  rewrite forallb_forall in H. now apply Nat.ltb_lt, H.
Qed.

Lemma questionMarks_keeps : keepsSevenBit questionMarks.
Proof.
  intros s H. unfold questionMarks. induction H as [|c s Hc _ IH];
    [reflexivity|].
  simpl. rewrite IH. apply Nat.ltb_lt in Hc. now rewrite Hc.
Qed.

Section Decoded.

Variable toString : text -> text.
Hypothesis toString_keeps : keepsSevenBit toString.
Variable content : text.
Hypothesis content_sevenBit : sevenBit content.

(** On a file of 7-bit characters every read decodes to the bytes read. *)
Lemma tailLoop_decoded (k n : nat) (fuel : nat) :
  forall lines p found r,
    tailLoop toString fuel k content n lines p found r
    = tailLoop (fun s => s) fuel k content n lines p found r.
Proof.
  induction fuel as [|fuel IH]; intros lines p found r; [reflexivity|].
  cbn [tailLoop].
  destruct ((0 <? p) && (found <? n)); [|reflexivity].
  destruct (length (firstn (Nat.min k p) (skipn (p - Nat.min k p) content)) =? 0);
    [reflexivity|].
  rewrite toString_keeps by (apply sevenBit_slice, content_sevenBit).
  destruct (if 0 <? p - Nat.min k p then _ else _) as [r' cl].
  destruct (unshiftLoop n (rev cl) lines found) as [lines' found'].
  apply IH.
Qed.

Lemma headLoop_decoded (n : nat) (fuel : nat) :
  forall lines buffer bytesRead,
    headLoop toString fuel content n lines buffer bytesRead
    = headLoop (fun s => s) fuel content n lines buffer bytesRead.
Proof.
  induction fuel as [|fuel IH]; intros lines buffer bytesRead; [reflexivity|].
  cbn [headLoop].
  destruct (length lines <? n); [|reflexivity].
  destruct (length (firstn 1024 (skipn bytesRead content)) =? 0);
    [reflexivity|].
  rewrite toString_keeps by (apply sevenBit_slice, content_sevenBit).
  destruct (lastIndexOf LF (buffer ++ firstn 1024 (skipn bytesRead content)));
    apply IH.
Qed.

Lemma tailText_decoded (n : nat) :
  tailText toString content n = tailText (fun s => s) content n.
Proof. unfold tailText. now rewrite tailLoop_decoded. Qed.

Lemma headText_decoded (n : nat) :
  headText toString content n = headText (fun s => s) content n.
Proof. unfold headText. now rewrite headLoop_decoded. Qed.

End Decoded.

(** X1: on a file of 7-bit characters, [headFile] returns the first [n]
    lines of the file joined by line feeds, whatever the size of the file
    and wherever the 1024-byte reads cut it; the empty piece after a final
    line feed is not a line, so the final line feed of a file is never
    returned. *)
Theorem headFile_first_lines (toString : text -> text) (fs : files)
        (filePath content : text) (n : nat) :
  keepsSevenBit toString ->
  fs filePath = Some content ->
  sevenBit content ->
  headFile toString fs filePath n
  = Ok (Str.join [LF] (firstn n (headPieces content))).
Proof.
  intros Hdec H H7. unfold headFile. rewrite H.
  now rewrite headText_decoded, headText_first_lines.
Qed.

Lemma headFile_first_lines_witness :
  headFile questionMarks (oneFile (twoLines ++ [LF] ++ str "gamma"))
           (str "/data/log") 2
  = Ok twoLines.
Proof.
  apply (headFile_first_lines questionMarks
           (oneFile (twoLines ++ [LF] ++ str "gamma"))
           (str "/data/log") (twoLines ++ [LF] ++ str "gamma") 2).
  - exact questionMarks_keeps.
  - reflexivity.
  - apply sevenBit_forallb. reflexivity.
Defined.

(** X2: on a file of 7-bit characters without a CR LF pair, [tailFile]
    returns the last [n] of the pieces between line feeds, joined by line
    feeds, whatever the size of the file and wherever the 1024-byte reads
    cut it; a final line feed is followed by an empty piece, which counts as
    one of the [n]. *)
Theorem tailFile_last_lines (toString : text -> text) (fs : files)
        (filePath content : text) (n : nat) :
  keepsSevenBit toString ->
  fs filePath = Some content ->
  sevenBit content ->
  Str.includes content [CR; LF] = false ->
  tailFile toString fs filePath n
  = Ok (Str.join [LF] (lastn n (Str.split LF content))).
Proof.
  intros Hdec H H7 Hcr. unfold tailFile. rewrite H.
  now rewrite tailText_decoded, tailText_last_lines.
Qed.

Lemma tailFile_last_lines_witness :
  tailFile questionMarks (oneFile (twoLines ++ [LF] ++ str "gamma"))
           (str "/data/log") 2
  = Ok (str "beta" ++ [LF] ++ str "gamma").
Proof.
  apply (tailFile_last_lines questionMarks
           (oneFile (twoLines ++ [LF] ++ str "gamma"))
           (str "/data/log") (twoLines ++ [LF] ++ str "gamma") 2).
  - exact questionMarks_keeps.
  - reflexivity.
  - apply sevenBit_forallb. reflexivity.
  - reflexivity.
Defined.

(** *** Files whose lines all end with a line feed *)

Lemma split_terminated (lines : list text) :
  Forall (fun l => count_occ ascii_dec l LF = 0) lines ->
  Str.split LF (terminated lines) = lines ++ [[]].
Proof.
  unfold terminated. induction 1 as [|l ls Hl _ IH]; [reflexivity|].
  simpl. rewrite <- app_assoc. simpl.
  rewrite StrFacts.split_app, IH.
  now rewrite (SplitFacts.split_lone_piece LF l Hl).
Qed.

Lemma join_terminated (lines : list text) :
  Str.join [LF] (lines ++ [[]]) = terminated lines.
Proof.
  unfold terminated. induction lines as [|l ls IH]; [reflexivity|].
  simpl app. rewrite StrFacts.join_cons by (destruct ls; discriminate).
  rewrite IH. simpl. now rewrite <- app_assoc.
Qed.

(** [tailFile] with zero lines and on an empty file returns the empty
    string; on a file of 7-bit characters without a CR LF pair, asking for
    at least as many lines as the file has pieces between line feeds returns
    the whole content. *)
Lemma tailFile_edges (toString : text -> text) (fs : files)
      (filePath content : text) (n : nat) :
  keepsSevenBit toString ->
  fs filePath = Some content ->
  sevenBit content ->
  tailFile toString fs filePath 0 = Ok []
  /\ (content = [] -> tailFile toString fs filePath n = Ok [])
  /\ (Str.includes content [CR; LF] = false ->
      lineCount content <= n ->
      tailFile toString fs filePath n = Ok content).
Proof.
  intros Hdec Hfile H7. unfold tailFile. rewrite Hfile.
  assert (Hd : forall m, tailText toString content m
                         = tailText (fun s => s) content m)
    by (intros m; now apply tailText_decoded).
  rewrite !Hd. split; [|split].
  - now rewrite ReaderProps.tailText_zero.
  - intros ->. reflexivity.
  - intros Hcr Hn. now rewrite ReaderProps.tailText_whole.
Qed.

(** C8: the claim fails on every file whose last line ends with a line
    feed.  For a file of [k] lines of 7-bit characters, each ended by a line
    feed, [tailFile] asked for [k] lines returns the file without its first
    line, not the entire file, while [headFile] asked for [k] lines returns
    every line: the empty piece after the final line feed is counted as a
    line by [tailFile]. *)
Theorem tailFile_drops_first_line (toString : text -> text) (fs : files)
        (filePath : text) (lines : list text) :
  keepsSevenBit toString ->
  lines <> [] ->
  Forall (fun l => count_occ ascii_dec l LF = 0) lines ->
  sevenBit (terminated lines) ->
  Str.includes (terminated lines) [CR; LF] = false ->
  fs filePath = Some (terminated lines) ->
  tailFile toString fs filePath (length lines) = Ok (terminated (tl lines))
  /\ tailFile toString fs filePath (length lines) <> Ok (terminated lines)
  /\ headFile toString fs filePath (length lines)
     = Ok (Str.join [LF] lines).
Proof.
  intros Hdec Hne Hlines H7 Hcr Hfile.
  assert (Htail : tailFile toString fs filePath (length lines)
                  = Ok (terminated (tl lines))).
  { unfold tailFile. rewrite Hfile.
    rewrite tailText_decoded, tailText_last_lines by assumption.
    rewrite split_terminated by assumption.
    destruct lines as [|l ls]; [congruence|].
    unfold lastn. rewrite length_app. simpl length.
    replace (S (length ls) + 1 - S (length ls)) with 1 by lia.
    simpl skipn. cbn [tl]. now rewrite join_terminated. }
  split; [exact Htail|]. split.
  - rewrite Htail. intros [= H].
    destruct lines as [|l ls]; [congruence|].
    apply (f_equal (@length ascii)) in H. unfold terminated in H.
    simpl in H. rewrite !length_app in H. simpl in H. lia.
  - unfold headFile. rewrite Hfile.
    rewrite headText_decoded, headText_first_lines by assumption.
    unfold headPieces. rewrite split_terminated by assumption.
    rewrite last_last, removelast_last. now rewrite firstn_all.
Qed.

Lemma tailFile_drops_first_line_witness :
  tailFile questionMarks (oneFile (twoLines ++ [LF])) (str "/data/log") 2
  = Ok (str "beta" ++ [LF])
  /\ tailFile questionMarks (oneFile (twoLines ++ [LF])) (str "/data/log") 2
     <> Ok (twoLines ++ [LF])
  /\ headFile questionMarks (oneFile (twoLines ++ [LF])) (str "/data/log") 2
     = Ok twoLines.
Proof.
  apply (tailFile_drops_first_line questionMarks (oneFile (twoLines ++ [LF]))
           (str "/data/log") [str "alpha"; str "beta"]).
  - exact questionMarks_keeps.
  - discriminate.
  - repeat constructor.
  - apply sevenBit_forallb. reflexivity.
  - reflexivity.
  - reflexivity.
Defined.

(** A file with DOS line endings comes back with each CR LF turned into
    LF, not as it is. *)
Lemma tailFile_normalizes_line_endings :
  lineCount dosLines <= 2
  /\ tailFile questionMarks (oneFile dosLines) (str "/data/log") 2
     = Ok (str "alpha" ++ [LF] ++ str "beta")
  /\ tailFile questionMarks (oneFile dosLines) (str "/data/log") 2
     <> Ok dosLines.
Proof.
  split; [apply Nat.leb_le; reflexivity|].
  split; [vm_compute; reflexivity|vm_compute; discriminate].
Qed.

End ReaderExtra.
(** ** PatchEngine: what an edit does to the content *)

Module PatchExtra.
Import Spec Scenario.
Import Operations.

(** *** Line endings *)

Lemma replaceCRLF_length_bounded (n : nat) :
  forall s, length s <= n -> length (Str.replaceCRLF s) <= length s.
Proof.
  induction n as [|n IH]; intros s Hlen.
  - destruct s; [simpl; lia|simpl in Hlen; lia].
  - destruct s as [|c s]; [simpl; lia|]. simpl in Hlen.
    destruct (Ascii.eqb c CR) eqn:Ec.
    + apply Ascii.eqb_eq in Ec. subst c.
      destruct s as [|d s]; [simpl; lia|].
      destruct (Ascii.eqb d LF) eqn:Ed.
      * apply Ascii.eqb_eq in Ed. subst d.
        rewrite PatchProps.replaceCRLF_pair. simpl in *.
        specialize (IH s). lia.
      * rewrite PatchProps.replaceCRLF_lone by assumption.
        specialize (IH (d :: s)). simpl in *. lia.
    + rewrite PatchProps.replaceCRLF_other by assumption.
      specialize (IH s). simpl. lia.
Qed.

Lemma replaceCRLF_in_bounded (x : ascii) (n : nat) :
  forall s, length s <= n -> In x (Str.replaceCRLF s) -> In x s.
Proof.
  induction n as [|n IH]; intros s Hlen.
  - destruct s; [simpl; tauto|simpl in Hlen; lia].
  - destruct s as [|c s]; [simpl; tauto|]. simpl in Hlen.
    destruct (Ascii.eqb c CR) eqn:Ec.
    + apply Ascii.eqb_eq in Ec. subst c.
      destruct s as [|d s]; [simpl; tauto|].
      destruct (Ascii.eqb d LF) eqn:Ed.
      * apply Ascii.eqb_eq in Ed. subst d.
        rewrite PatchProps.replaceCRLF_pair. simpl in *.
        intros [H|H]; [auto|]. right. right. apply IH; [lia|exact H].
      * rewrite PatchProps.replaceCRLF_lone by assumption.
        intros [H|H]; [left; exact H|]. right. apply IH; [simpl in *; lia|exact H].
    + rewrite PatchProps.replaceCRLF_other by assumption.
      intros [H|H]; [left; exact H|]. right. apply IH; [lia|exact H].
Qed.

(** X3: [normalizeLineEndings] leaves a text as it is exactly when the text
    has no CR LF pair, and it never makes a text longer. *)
Theorem normalizeLineEndings_fixed_iff (s : text) :
  (normalizeLineEndings s = s <-> Str.includes s [CR; LF] = false)
  /\ length (normalizeLineEndings s) <= length s.
Proof.
  split; [|apply (replaceCRLF_length_bounded (length s)); lia].
  split; [|apply PatchProps.normalizeLineEndings_id].
  intros Hfix. destruct (Str.includes s [CR; LF]) eqn:E; [|reflexivity].
  apply StrFacts.includes_iff in E as (a & b & Hs). exfalso.
  assert (Hlen : length (normalizeLineEndings s) < length s).
  { rewrite Hs. simpl app. rewrite PatchProps.normalizeLineEndings_crlf.
    pose proof (replaceCRLF_length_bounded (length a) a (le_n _)).
    pose proof (replaceCRLF_length_bounded (length b) b (le_n _)).
    unfold normalizeLineEndings. rewrite !length_app. simpl. lia. }
  rewrite Hfix in Hlen. lia.
Qed.

(** *** Exact replacement *)

Lemma getSubstitution_plain (matched before after : text) :
  forall repl, ~ In "$"%char repl ->
               Str.getSubstitution matched before after repl = repl.
Proof.
  induction repl as [|c r IH]; intros H; [reflexivity|].
  cbn [Str.getSubstitution].
  destruct (Ascii.eqb c "$") eqn:E.
  - apply Ascii.eqb_eq in E. subst c. exfalso. apply H. now left.
  - f_equal. apply IH. intros Hin. apply H. now right.
Qed.

Lemma indexOf_first (p : text) :
  forall s i, Str.indexOf s p = Some i ->
              forall j, j < i -> Str.startsWith (skipn j s) p = false.
Proof.
  induction s as [|c s IH]; intros i H j Hj.
  - simpl in H. destruct (Str.startsWith [] p); [|discriminate].
    injection H as <-. lia.
  - cbn [Str.indexOf] in H.
    destruct (Str.startsWith (c :: s) p) eqn:E.
    + injection H as <-. lia.
    + destruct (Str.indexOf s p) as [i'|] eqn:Ei; [|discriminate].
      simpl in H. injection H as <-.
      destruct j as [|j]; [exact E|].
      simpl. apply (IH i' eq_refl). lia.
Qed.

(** X4: when the (normalized) [oldText] of a lone edit occurs in the
    normalized content and [newText] holds no dollar sign, the file written
    is the content with the first occurrence, and only that one, replaced by
    the normalized [newText]. *)
Theorem applyFileEdits_replaces_first_occurrence
        (patch : text -> text -> text -> text -> text -> text -> text)
        (rc : bool) (fs : files) (filePath raw : text) (e : edit) (i : nat) :
  fs filePath = Some raw ->
  Str.indexOf (normalizeLineEndings raw) (normalizeLineEndings (oldText e))
  = Some i ->
  ~ In "$"%char (newText e) ->
  let content := normalizeLineEndings raw in
  let old := normalizeLineEndings (oldText e) in
  let new := normalizeLineEndings (newText e) in
  content = firstn i content ++ old ++ skipn (i + length old) content
  /\ (forall j, j < i -> Str.startsWith (skipn j content) old = false)
  /\ snd (applyFileEdits patch rc fs filePath [e] false) filePath
     = Some (firstn i content ++ new ++ skipn (i + length old) content).
Proof.
  intros Hfile Hidx Hplain content old new. subst content old new.
  split; [now apply StrFacts.indexOf_some|].
  split; [now apply indexOf_first|].
  unfold applyFileEdits, readFile. rewrite Hfile.
  cbn [applyEdits bind]. unfold applyEdit.
  unfold Str.includes, Str.replace. rewrite Hidx.
  cbn [bind negb snd]. unfold writeFile. rewrite StrFacts.eqb_refl.
  rewrite getSubstitution_plain; [reflexivity|].
  intros Hin. apply Hplain.
  apply (replaceCRLF_in_bounded _ (length (newText e))); [lia|exact Hin].
Qed.

Lemma applyFileEdits_replaces_first_occurrence_witness :
  snd (applyFileEdits twoSides false notesFs notesPath [barToBaz] false) notesPath
  = Some (str "foo" ++ [LF] ++ str "baz" ++ [LF]).
Proof.
  apply (applyFileEdits_replaces_first_occurrence twoSides false notesFs
           notesPath notes barToBaz 4).
  - reflexivity.
  - reflexivity.
  - vm_compute. intros H. repeat destruct H as [H|H]; try discriminate H.
    exact H.
Defined.

(** *** The fence around the diff *)

Lemma growBackticks_ge (diff : text) (fuel : nat) :
  forall n, n <= growBackticks fuel n diff.
Proof.
  induction fuel as [|fuel IH]; intros n; simpl; [lia|].
  destruct (Str.includes diff (backticks n)); [|lia].
  specialize (IH (S n)). lia.
Qed.

Lemma growBackticks_least (diff : text) (fuel : nat) :
  forall n j,
    n <= j -> j < growBackticks fuel n diff ->
    Str.includes diff (backticks j) = true.
Proof.
  induction fuel as [|fuel IH]; intros n j Hn Hj; simpl in Hj; [lia|].
  destruct (Str.includes diff (backticks n)) eqn:E; [|lia].
  destruct (Nat.eq_dec j n) as [->|Hne]; [exact E|].
  apply (IH (S n)); [lia|exact Hj].
Qed.

(** X5: the answer of a successful run of [applyFileEdits] is, between two
    fences of [k] backticks, what [createTwoFilesPatch] makes of the
    normalized content of the file before the call and of the content
    written, both normalized once more; [k] is the least number, from three
    on, of backticks in a row that this diff does not contain. *)
Theorem applyFileEdits_fence
        (patch : text -> text -> text -> text -> text -> text -> text)
        (rc : bool) (fs fs' : files) (filePath raw written answer : text)
        (edits : list edit) :
  applyFileEdits patch rc fs filePath edits false = (Ok answer, fs') ->
  fs filePath = Some raw ->
  fs' filePath = Some written ->
  let diff :=
    patch filePath filePath
          (normalizeLineEndings (normalizeLineEndings raw))
          (normalizeLineEndings written) (str "original") (str "modified") in
  exists k,
    answer = backticks k ++ str "diff" ++ [LF] ++ diff ++ backticks k ++ [LF; LF]
    /\ 3 <= k
    /\ Str.includes diff (backticks k) = false
    /\ (forall j, 3 <= j -> j < k -> Str.includes diff (backticks j) = true).
Proof.
  unfold applyFileEdits, readFile. intros H Hraw Hwritten.
  rewrite Hraw in H.
  destruct (applyEdits rc (normalizeLineEndings raw) edits) as [modified|];
    [|discriminate].
  cbn [negb] in H. injection H as Ha Hfs. subst fs'.
  unfold writeFile in Hwritten. rewrite StrFacts.eqb_refl in Hwritten.
  injection Hwritten as ->.
  set (diff := patch filePath filePath
                     (normalizeLineEndings (normalizeLineEndings raw))
                     (normalizeLineEndings written) (str "original")
                     (str "modified")).
  assert (Hdiff : createUnifiedDiff patch (normalizeLineEndings raw) written
                                    filePath = diff) by reflexivity.
  rewrite Hdiff in Ha.
  exists (growBackticks (S (length diff)) 3 diff).
  split; [now rewrite <- Ha|]. split; [apply growBackticks_ge|].
  split; [apply PatchProps.growBackticks_absent; lia|].
  intros j H3 Hj. now apply (growBackticks_least diff (S (length diff)) 3).
Qed.

(** A diff side that holds three backticks in a row. *)
Lemma applyFileEdits_fence_witness :
  let diff :=
    twoSides notesPath notesPath
             (normalizeLineEndings
                (normalizeLineEndings (str "```" ++ [LF] ++ str "bar" ++ [LF])))
             (normalizeLineEndings (str "```" ++ [LF] ++ str "baz" ++ [LF]))
             (str "original") (str "modified") in
  exists k,
    fencedAnswer
    = backticks k ++ str "diff" ++ [LF] ++ diff ++ backticks k ++ [LF; LF]
    /\ 3 <= k
    /\ Str.includes diff (backticks k) = false
    /\ (forall j, 3 <= j -> j < k -> Str.includes diff (backticks j) = true).
Proof.
  apply (applyFileEdits_fence twoSides false fencedFs fencedAfter notesPath
           (str "```" ++ [LF] ++ str "bar" ++ [LF])
           (str "```" ++ [LF] ++ str "baz" ++ [LF])
           fencedAnswer [barToBaz]).
  - vm_compute. reflexivity.
  - reflexivity.
  - reflexivity.
Defined.

(** *** Replacement of a window of lines *)

Lemma trimStart_spaces (ws s : text) :
  forallb Str.isSpace ws = true -> Str.trimStart (ws ++ s) = Str.trimStart s.
Proof.
  induction ws as [|c ws IH]; intros H; [reflexivity|].
  simpl in H. apply andb_true_iff in H as [Hc Hws].
  simpl. rewrite Hc. now apply IH.
Qed.

Lemma trimStart_idem (s : text) : Str.trimStart (Str.trimStart s) = Str.trimStart s.
Proof.
  induction s as [|c s IH]; [reflexivity|].
  simpl. destruct (Str.isSpace c) eqn:E; [exact IH|].
  simpl. now rewrite E.
Qed.

Lemma leadingSpace_spaces (s : text) :
  forallb Str.isSpace (Str.leadingSpace s) = true.
Proof.
  induction s as [|c s IH]; [reflexivity|].
  simpl. destruct (Str.isSpace c) eqn:E; [|reflexivity].
  simpl. now rewrite E.
Qed.

Lemma repeat_spaces (k : nat) : forallb Str.isSpace (repeat " "%char k) = true.
Proof. induction k as [|k IH]; [reflexivity|exact IH]. Qed.

(** Re-indenting a line changes nothing but the white space in front. *)
Lemma trimStart_reindent (rc : bool) (indent : text) (oldLines : list text)
      (line : text) (j : nat) :
  forallb Str.isSpace indent = true ->
  Str.trimStart (reindent indent oldLines line j) = Str.trimStart line.
Proof.
  intros H. unfold reindent. destruct (j =? 0).
  - rewrite trimStart_spaces by exact H. apply trimStart_idem.
  - destruct (negb (isEmpty _) && negb (isEmpty _)); [|reflexivity].
    rewrite trimStart_spaces by exact H.
    rewrite trimStart_spaces by apply repeat_spaces.
    apply trimStart_idem.
Qed.

Lemma mapiFrom_length {A B : Type} (f : A -> nat -> B) (l : list A) :
  forall j, length (mapiFrom j f l) = length l.
Proof.
  induction l as [|x l IH]; intros j; [reflexivity|].
  simpl. now rewrite IH.
Qed.

Lemma mapiFrom_trimStart (indent : text) (oldLines : list text) (l : list text) :
  forallb Str.isSpace indent = true ->
  forall j,
    map Str.trimStart (mapiFrom j (reindent indent oldLines) l)
    = map Str.trimStart l.
Proof.
  intros H. induction l as [|x l IH]; intros j; [reflexivity|].
  simpl. rewrite IH. f_equal. now apply (trimStart_reindent false).
Qed.

Lemma fuzzyScan_shape (rc : bool) (oldLines : list text) (new : text) :
  forall rest before r,
    fuzzyScan rc oldLines new before rest = Some r ->
    exists i,
      linesAgree oldLines (skipn i rest) = true
      /\ r = rev before ++ firstn i rest
               ++ mapiFrom 0 (reindent (Str.leadingSpace (hd [] (skipn i rest)))
                                       oldLines)
                          (Str.split LF new)
               ++ skipn (i + length oldLines) rest.
Proof.
  induction rest as [|l rest IH]; intros before r H.
  - exists 0. cbn [fuzzyScan] in H.
    destruct (length oldLines <=? length (@nil text)); [|discriminate].
    destruct (everyLine rc oldLines (firstn (length oldLines) [])) eqn:E;
      [|discriminate].
    injection H as <-. split; [now apply PatchProps.everyLine_linesAgree in E|].
    reflexivity.
  - cbn [fuzzyScan] in H.
    destruct (length oldLines <=? length (l :: rest)); [|discriminate].
    destruct (everyLine rc oldLines (firstn (length oldLines) (l :: rest))) eqn:E.
    + exists 0. injection H as <-.
      split; [now apply PatchProps.everyLine_linesAgree in E|]. reflexivity.
    + apply IH in H as (i & Hw & ->). exists (S i).
      split; [exact Hw|]. simpl. now rewrite <- app_assoc.
Qed.

(** X7: when the [oldText] of a lone edit is not a substring of the content
    and the call succeeds, the file written is the content with one window
    of lines, agreeing with the lines of [oldText] once white space is
    stripped, replaced by as many lines as [newText] has; the lines before
    and after the window are as they were, every new line is the line of
    [newText] up to the white space in front of it, and the first new line
    starts with the indentation of the first line it replaces. *)
Theorem applyFileEdits_replaces_window
        (patch : text -> text -> text -> text -> text -> text -> text)
        (rc : bool) (fs fs' : files) (filePath raw answer : text) (e : edit) :
  fs filePath = Some raw ->
  Str.includes (normalizeLineEndings raw) (normalizeLineEndings (oldText e))
  = false ->
  applyFileEdits patch rc fs filePath [e] false = (Ok answer, fs') ->
  let contentLines := Str.split LF (normalizeLineEndings raw) in
  let oldLines := Str.split LF (normalizeLineEndings (oldText e)) in
  let newLines := Str.split LF (normalizeLineEndings (newText e)) in
  exists i written,
    linesAgree oldLines (skipn i contentLines) = true
    /\ fs' filePath
       = Some (Str.join [LF]
                 (firstn i contentLines ++ written
                    ++ skipn (i + length oldLines) contentLines))
    /\ length written = length newLines
    /\ map Str.trimStart written = map Str.trimStart newLines
    /\ hd [] written
       = Str.leadingSpace (hd [] (skipn i contentLines))
           ++ Str.trimStart (hd [] newLines).
Proof.
  intros Hfile Hex Hrun contentLines oldLines newLines.
  unfold applyFileEdits, readFile in Hrun. rewrite Hfile in Hrun.
  cbn [applyEdits bind] in Hrun. unfold applyEdit in Hrun. rewrite Hex in Hrun.
  unfold fuzzyReplace in Hrun. fold contentLines oldLines in Hrun.
  destruct (fuzzyScan rc oldLines (normalizeLineEndings (newText e)) []
                      contentLines) as [r|] eqn:Escan;
    [|discriminate].
  cbn [option_map bind negb] in Hrun. injection Hrun as _ <-.
  apply fuzzyScan_shape in Escan as (i & Hw & ->). fold newLines.
  set (indent := Str.leadingSpace (hd [] (skipn i contentLines))).
  exists i, (mapiFrom 0 (reindent indent oldLines) newLines).
  split; [exact Hw|].
  split; [unfold writeFile; now rewrite StrFacts.eqb_refl|].
  split; [apply mapiFrom_length|].
  split; [apply mapiFrom_trimStart, leadingSpace_spaces|].
  destruct newLines as [|n0 ns] eqn:En;
    [now apply StrFacts.split_nonempty in En|].
  reflexivity.
Qed.

Lemma applyFileEdits_replaces_window_witness :
  exists i written,
    linesAgree (Str.split LF (normalizeLineEndings (oldText looseEdit)))
               (skipn i (Str.split LF (normalizeLineEndings indented))) = true
    /\ indentedAfter notesPath
       = Some (Str.join [LF]
                 (firstn i (Str.split LF (normalizeLineEndings indented))
                    ++ written
                    ++ skipn (i + length (Str.split LF (normalizeLineEndings
                                                         (oldText looseEdit))))
                             (Str.split LF (normalizeLineEndings indented))))
    /\ length written
       = length (Str.split LF (normalizeLineEndings (newText looseEdit)))
    /\ map Str.trimStart written
       = map Str.trimStart (Str.split LF (normalizeLineEndings (newText looseEdit)))
    /\ hd [] written
       = Str.leadingSpace
           (hd [] (skipn i (Str.split LF (normalizeLineEndings indented))))
           ++ Str.trimStart
                (hd [] (Str.split LF (normalizeLineEndings (newText looseEdit)))).
Proof.
  apply (applyFileEdits_replaces_window twoSides false indentedFs indentedAfter
           notesPath indented indentedAnswer looseEdit).
  - reflexivity.
  - vm_compute. reflexivity.
  - vm_compute. reflexivity.
Defined.

(** The file of that scenario afterwards. *)
Example indentedAfter_content :
  indentedAfter notesPath
  = Some (str "if (x) {" ++ [LF] ++ str "    stop();" ++ [LF] ++ str "}").
Proof. vm_compute. reflexivity. Qed.

(** *** The content written by a list of edits *)






End PatchExtra.
(** ** PathGuard: the outcomes of [validatePath] *)

Module GuardExtra.
Import Spec Scenario.
Import Security.

(** X8: a path that [validatePath] of [filesystem/security.ts] returns has
    passed the roots test twice: the normalized absolute request passes it,
    and either the path returned is the real path of the request and passes
    it too, or the request does not exist, the path returned is the absolute
    request itself, and the real path of its parent directory passes the
    test. *)
Theorem validatePath_ok_sound
        (homedir cwd : text) (realpath : text -> option text)
        (requested : text) (roots : list text) (wd r : text) :
  validatePath homedir cwd realpath requested roots wd = Ok r ->
  let absolute := absoluteOf homedir cwd wd requested in
  someStartsWith roots (normalizePath absolute) = true
  /\ ((realpath absolute = Some r
       /\ someStartsWith roots (normalizePath r) = true)
      \/ (realpath absolute = None /\ r = absolute
          /\ exists parent,
              realpath (Path.dirname absolute) = Some parent
              /\ someStartsWith roots (normalizePath parent) = true)).
Proof.
  intros H absolute. unfold validatePath, fs_realpath in H. fold absolute in H.
  destruct (someStartsWith roots (normalizePath absolute)) eqn:Ein;
    [|discriminate].
  split; [reflexivity|]. cbn [negb] in H.
  destruct (realpath absolute) as [real|] eqn:Ereal; cbn [bind try_catch] in H.
  - destruct (someStartsWith roots (normalizePath real)) eqn:Eok;
      cbn [negb try_catch isPermissionDenied] in H; [|discriminate].
    injection H as <-. left. auto.
  - cbn [isPermissionDenied] in H. right.
    destruct (realpath (Path.dirname absolute)) as [parent|] eqn:Eparent;
      cbn [bind try_catch isPermissionDenied] in H; [|discriminate].
    destruct (someStartsWith roots (normalizePath parent)) eqn:Eok;
      cbn [negb try_catch isPermissionDenied] in H; [|discriminate].
    injection H as <-. split; [reflexivity|]. split; [reflexivity|].
    exists parent. auto.
Qed.

Lemma validatePath_ok_sound_witness :
  someStartsWith dataRoots
    (normalizePath (absoluteOf home root root (str "/data/link/../log"))) = true
  /\ ((plainFs (absoluteOf home root root (str "/data/link/../log"))
       = Some (str "/data/log")
       /\ someStartsWith dataRoots (normalizePath (str "/data/log")) = true)
      \/ (plainFs (absoluteOf home root root (str "/data/link/../log")) = None
          /\ str "/data/log" = absoluteOf home root root (str "/data/link/../log")
          /\ exists parent,
              plainFs (Path.dirname
                         (absoluteOf home root root (str "/data/link/../log")))
              = Some parent
              /\ someStartsWith dataRoots (normalizePath parent) = true)).
Proof.
  apply (validatePath_ok_sound home root plainFs (str "/data/link/../log")
           dataRoots root (str "/data/log")).
  vm_compute. reflexivity.
Defined.

(** X9: when [validatePath] of [filesystem/security.ts] fails, the error
    tells which test failed: [PermissionDeniedError] for "access" when the
    request does not pass the roots test, for the symbolic link when the
    request exists and its real path does not pass, for the parent when the
    request does not exist and the real path of its parent does not pass;
    [FileNotFoundError] when neither the request nor its parent exists.  It
    is never another error. *)
Theorem validatePath_error_kinds
        (homedir cwd : text) (realpath : text -> option text)
        (requested : text) (roots : list text) (wd : text) (e : exn) :
  validatePath homedir cwd realpath requested roots wd = Err e ->
  let absolute := absoluteOf homedir cwd wd requested in
  (someStartsWith roots (normalizePath absolute) = false
   /\ e = PermissionDeniedError requested opAccess absolute)
  \/ (exists real,
         realpath absolute = Some real
         /\ someStartsWith roots (normalizePath real) = false
         /\ e = PermissionDeniedError requested opSymlink real)
  \/ (exists parent,
         realpath absolute = None
         /\ realpath (Path.dirname absolute) = Some parent
         /\ someStartsWith roots (normalizePath parent) = false
         /\ e = PermissionDeniedError requested opParent parent)
  \/ (realpath absolute = None
      /\ realpath (Path.dirname absolute) = None
      /\ e = FileNotFoundError requested (Path.dirname absolute)).
Proof.
  intros H absolute. unfold validatePath, fs_realpath in H. fold absolute in H.
  destruct (someStartsWith roots (normalizePath absolute)) eqn:Ein;
    cbn [negb] in H; [|left; split; [reflexivity|congruence]].
  right.
  destruct (realpath absolute) as [real|] eqn:Ereal; cbn [bind try_catch] in H.
  - destruct (someStartsWith roots (normalizePath real)) eqn:Eok;
      cbn [negb try_catch isPermissionDenied] in H; [discriminate|].
    left. exists real. split; [reflexivity|]. split; [exact Eok|congruence].
  - cbn [isPermissionDenied] in H. right.
    destruct (realpath (Path.dirname absolute)) as [parent|] eqn:Eparent;
      cbn [bind try_catch isPermissionDenied] in H.
    + destruct (someStartsWith roots (normalizePath parent)) eqn:Eok;
        cbn [negb try_catch isPermissionDenied] in H; [discriminate|].
      left. exists parent. repeat split; [exact Eok|congruence].
    + right. repeat split. congruence.
Qed.

Lemma validatePath_error_kinds_witness :
  let e := FileNotFoundError (str "/data/new/file") (str "/data/new") in
  let absolute := absoluteOf home root root (str "/data/new/file") in
  (someStartsWith dataRoots (normalizePath absolute) = false
   /\ e = PermissionDeniedError (str "/data/new/file") opAccess absolute)
  \/ (exists real,
         linkFs absolute = Some real
         /\ someStartsWith dataRoots (normalizePath real) = false
         /\ e = PermissionDeniedError (str "/data/new/file") opSymlink real)
  \/ (exists parent,
         linkFs absolute = None
         /\ linkFs (Path.dirname absolute) = Some parent
         /\ someStartsWith dataRoots (normalizePath parent) = false
         /\ e = PermissionDeniedError (str "/data/new/file") opParent parent)
  \/ (linkFs absolute = None
      /\ linkFs (Path.dirname absolute) = None
      /\ e = FileNotFoundError (str "/data/new/file") (Path.dirname absolute)).
Proof.
  apply (validatePath_error_kinds home root linkFs (str "/data/new/file")
           dataRoots root
           (FileNotFoundError (str "/data/new/file") (str "/data/new"))).
  vm_compute. reflexivity.
Defined.

Lemma legacy_messages_differ (roots : list text) (absolute parentDir : text) :
  msgOutside roots absolute <> msgSymlink
  /\ msgOutside roots absolute <> msgParent
  /\ msgNoParent parentDir <> msgSymlink
  /\ msgNoParent parentDir <> msgParent.
Proof.
  repeat split; intros H;
    apply (f_equal (fun t => (nth_error t 0, nth_error t 16, nth_error t 18))) in H;
    vm_compute in H; discriminate H.
Qed.

(** X10: the [validatePath] of the monolithic server has four outcomes: the
    "path outside allowed directories" error when the request does not pass
    the roots test; the real path when it exists and passes; the absolute
    request itself when the parent directory exists and its real path
    passes; "Parent directory does not exist" in every other case, also
    when the parent exists and is outside the roots.  The errors for an
    escaping symbolic link and for an escaping parent never leave the
    function. *)
Theorem validatePathLegacy_outcomes
        (homedir cwd : text) (realpath : text -> option text)
        (roots : list text) (requested : text) :
  let absolute := absoluteOf homedir cwd cwd requested in
  let parentDir := Path.dirname absolute in
  let answer := validatePathLegacy homedir cwd realpath roots requested in
  let passes := fun p => match p with
                         | Some q => someStartsWith roots (normalizePath q)
                         | None => false
                         end in
  answer
  = (if negb (someStartsWith roots (normalizePath absolute))
     then Err (Error (msgOutside roots absolute))
     else if passes (realpath absolute)
          then match realpath absolute with
               | Some real => Ok real
               | None => Ok absolute
               end
          else if passes (realpath parentDir) then Ok absolute
               else Err (Error (msgNoParent parentDir)))
  /\ answer <> Err (Error msgSymlink)
  /\ answer <> Err (Error msgParent).
Proof.
  intros absolute parentDir answer passes.
  assert (Hanswer : answer
    = (if negb (someStartsWith roots (normalizePath absolute))
       then Err (Error (msgOutside roots absolute))
       else if passes (realpath absolute)
            then match realpath absolute with
                 | Some real => Ok real
                 | None => Ok absolute
                 end
            else if passes (realpath parentDir) then Ok absolute
                 else Err (Error (msgNoParent parentDir)))).
  { unfold answer, validatePathLegacy, fs_realpath, passes.
    fold absolute. fold parentDir.
    destruct (someStartsWith roots (normalizePath absolute)); [|reflexivity].
    cbn [negb].
    destruct (realpath absolute) as [real|]; cbn [bind try_catch].
    - destruct (someStartsWith roots (normalizePath real));
        cbn [negb try_catch]; [reflexivity|].
      destruct (realpath parentDir) as [parent|]; cbn [bind try_catch];
        [|reflexivity].
      destruct (someStartsWith roots (normalizePath parent)); reflexivity.
    - destruct (realpath parentDir) as [parent|]; cbn [bind try_catch];
        [|reflexivity].
      destruct (someStartsWith roots (normalizePath parent)); reflexivity. }
  split; [exact Hanswer|].
  destruct (legacy_messages_differ roots absolute parentDir)
    as (H1 & H2 & H3 & H4).
  rewrite Hanswer.
  destruct (negb (someStartsWith roots (normalizePath absolute)));
    [split; congruence|].
  destruct (passes (realpath absolute));
    [destruct (realpath absolute); split; discriminate|].
  destruct (passes (realpath parentDir)); split; try discriminate; congruence.
Qed.

End GuardExtra.
(** ** FileCache: accounting, eviction order, invalidation, metadata *)

Module CacheExtra.
Import Spec Scenario.
Import Cache.

(** *** Lists of entries *)

Lemma remove_absent {V : Type} (k : text) (l : list (LRU.slot V)) :
  ~ In k (map (@LRU.key V) l) -> LRU.remove k l = l.
Proof.
  unfold LRU.remove. induction l as [|s l IH]; intros H; [reflexivity|].
  simpl in *. destruct (Str.eqb (LRU.key s) k) eqn:E.
  - apply StrFacts.eqb_eq in E. tauto.
  - simpl. f_equal. apply IH. tauto.
Qed.

Lemma remove_idem {V : Type} (k : text) (l : list (LRU.slot V)) :
  LRU.remove k (LRU.remove k l) = LRU.remove k l.
Proof.
  unfold LRU.remove. induction l as [|s l IH]; [reflexivity|].
  simpl. destruct (Str.eqb (LRU.key s) k) eqn:E; simpl; [exact IH|].
  rewrite E. simpl. now rewrite IH.
Qed.

Lemma remove_subset {V : Type} (k : text) (l : list (LRU.slot V)) (s : LRU.slot V) :
  In s (LRU.remove k l) -> In s l.
Proof. unfold LRU.remove. intros H. now apply filter_In in H. Qed.

Lemma notin_remove {V : Type} (k : text) (l : list (LRU.slot V)) :
  ~ In k (map (@LRU.key V) (LRU.remove k l)).
Proof.
  intros H. apply in_map_iff in H as (s & Hk & Hs).
  unfold LRU.remove in Hs. apply filter_In in Hs as [_ Hs].
  subst k. now rewrite StrFacts.eqb_refl in Hs.
Qed.

Lemma lookup_some {V : Type} (k : text) (l : list (LRU.slot V)) (s : LRU.slot V) :
  LRU.lookup k l = Some s -> In s l /\ LRU.key s = k.
Proof.
  unfold LRU.lookup. intros H. apply find_some in H as [Hin Hk].
  split; [exact Hin|]. now apply StrFacts.eqb_eq.
Qed.

Lemma lookup_none {V : Type} (k : text) (l : list (LRU.slot V)) :
  LRU.lookup k l = None -> ~ In k (map (@LRU.key V) l).
Proof.
  intros H Hin. now apply CacheProps.lookup_in in Hin.
Qed.

Lemma keys_remove_subset (k x : text) (l : list (LRU.slot CacheEntry)) :
  In x (keysOf (LRU.remove k l)) -> In x (keysOf l).
Proof.
  unfold keysOf. intros H. apply in_map_iff in H as (s & <- & Hs).
  apply in_map. now apply remove_subset in Hs.
Qed.

Lemma NoDup_remove_keys (k : text) (l : list (LRU.slot CacheEntry)) :
  NoDup (keysOf l) -> NoDup (keysOf (LRU.remove k l)).
Proof.
  induction l as [|s l IH]; intros H; [constructor|].
  inversion H as [|? ? Hnot Hrest]; subst.
  unfold LRU.remove. simpl. destruct (Str.eqb (LRU.key s) k); simpl.
  - now apply IH.
  - constructor; [|now apply IH].
    intros Hin. apply Hnot. now apply (keys_remove_subset k).
Qed.

Lemma Forall_remove {V : Type} (P : LRU.slot V -> Prop) (k : text)
      (l : list (LRU.slot V)) :
  Forall P l -> Forall P (LRU.remove k l).
Proof.
  intros H. apply Forall_forall. intros s Hs.
  apply remove_subset in Hs. revert s Hs. now apply Forall_forall.
Qed.

Lemma in_firstn {A : Type} (x : A) (k : nat) :
  forall l, In x (firstn k l) -> In x l.
Proof.
  induction k as [|k IH]; intros [|y l] H; simpl in H; try contradiction.
  destruct H as [H|H]; [now left|right; now apply IH].
Qed.

Lemma Forall_firstn {A : Type} (P : A -> Prop) (k : nat) (l : list A) :
  Forall P l -> Forall P (firstn k l).
Proof.
  intros H. apply Forall_forall. intros s Hs.
  apply in_firstn in Hs. revert s Hs. now apply Forall_forall.
Qed.

Lemma slotsSize_cons (s : LRU.slot CacheEntry) (l : list (LRU.slot CacheEntry)) :
  slotsSize (s :: l) = (size (LRU.value s) + slotsSize l)%Z.
Proof. reflexivity. Qed.

Lemma slotsSize_app (l l' : list (LRU.slot CacheEntry)) :
  slotsSize (l ++ l') = (slotsSize l + slotsSize l')%Z.
Proof.
  induction l as [|s l IH]; [reflexivity|].
  simpl app. rewrite !slotsSize_cons, IH. lia.
Qed.

Lemma slotsSize_nonneg (l : list (LRU.slot CacheEntry)) :
  Forall (fun s => LRU.key s <> [] /\ (0 <= size (LRU.value s))%Z) l ->
  (0 <= slotsSize l)%Z.
Proof.
  induction 1 as [|s l [_ Hs] _ IH]; [reflexivity|].
  rewrite slotsSize_cons. lia.
Qed.

Lemma remove_cons {V : Type} (k : text) (x : LRU.slot V) (l : list (LRU.slot V)) :
  LRU.remove k (x :: l)
  = if Str.eqb (LRU.key x) k then LRU.remove k l else x :: LRU.remove k l.
Proof. unfold LRU.remove. simpl. now destruct (Str.eqb (LRU.key x) k). Qed.

Lemma lookup_cons {V : Type} (k : text) (x : LRU.slot V) (l : list (LRU.slot V)) :
  LRU.lookup k (x :: l)
  = if Str.eqb (LRU.key x) k then Some x else LRU.lookup k l.
Proof. reflexivity. Qed.

Lemma slotsSize_remove (k : text) (l : list (LRU.slot CacheEntry))
      (s : LRU.slot CacheEntry) :
  NoDup (keysOf l) -> LRU.lookup k l = Some s ->
  slotsSize (LRU.remove k l) = (slotsSize l - size (LRU.value s))%Z.
Proof.
  induction l as [|x l IH]; intros Hnd Hl; [discriminate|].
  inversion Hnd as [|? ? Hnot Hrest]; subst.
  rewrite lookup_cons in Hl. rewrite remove_cons.
  destruct (Str.eqb (LRU.key x) k) eqn:E.
  - injection Hl as <-. apply StrFacts.eqb_eq in E. subst k.
    rewrite remove_absent by exact Hnot.
    rewrite slotsSize_cons. lia.
  - rewrite !slotsSize_cons, (IH Hrest Hl). lia.
Qed.

Lemma liveSize_slots (fc : FileCache) :
  liveSize fc = slotsSize (LRU.slots (contentCache fc)).
Proof.
  unfold liveSize, entries, slotsSize. now rewrite map_map.
Qed.

(** *** What [contentDelete] and the eviction loop leave alone *)

Lemma disposeAll_metadata (vs : list CacheEntry) :
  forall fc, metadataCache (disposeAll fc vs) = metadataCache fc.
Proof.
  induction vs as [|v vs IH]; intros fc; [reflexivity|].
  simpl. now rewrite IH.
Qed.

Lemma contentDelete_metadata (fc : FileCache) (k : text) :
  metadataCache (contentDelete fc k) = metadataCache fc.
Proof.
  unfold contentDelete. destruct (LRU.delete k (contentCache fc)).
  now rewrite disposeAll_metadata.
Qed.

Lemma contentDelete_max (fc : FileCache) (k : text) :
  LRU.max (contentCache (contentDelete fc k)) = LRU.max (contentCache fc).
Proof.
  unfold contentDelete, LRU.delete.
  destruct (LRU.lookup k (LRU.slots (contentCache fc)));
    now rewrite CacheProps.disposeAll_content.
Qed.

Lemma contentDelete_currentSize (fc : FileCache) (k : text)
      (s : LRU.slot CacheEntry) :
  LRU.lookup k (LRU.slots (contentCache fc)) = Some s ->
  currentSize (contentDelete fc k) = (currentSize fc - size (LRU.value s))%Z.
Proof.
  intros H. unfold contentDelete, LRU.delete. rewrite H. reflexivity.
Qed.

Lemma evictLoop_metadata (fuel : nat) (sz now : Z) :
  forall fc, metadataCache (evictLoop fuel fc sz now) = metadataCache fc.
Proof.
  induction fuel as [|fuel IH]; intros fc; [reflexivity|].
  simpl.
  destruct ((maxSize (config fc) <? currentSize fc + sz)%Z
            && (0 <? LRU.size (contentCache fc))); [|reflexivity].
  destruct (getOldestKey fc now) as [[|c k]|]; try reflexivity.
  now rewrite IH, contentDelete_metadata.
Qed.

Lemma evictLoop_max (fuel : nat) (sz now : Z) :
  forall fc, LRU.max (contentCache (evictLoop fuel fc sz now))
             = LRU.max (contentCache fc).
Proof.
  induction fuel as [|fuel IH]; intros fc; [reflexivity|].
  simpl.
  destruct ((maxSize (config fc) <? currentSize fc + sz)%Z
            && (0 <? LRU.size (contentCache fc))); [|reflexivity].
  destruct (getOldestKey fc now) as [[|c k]|]; try reflexivity.
  now rewrite IH, contentDelete_max.
Qed.

(** With no expired entry, the oldest key is the key of the last entry. *)
Lemma getOldestKey_last (fc : FileCache) (now : Z)
      (l : list (LRU.slot CacheEntry)) (x : LRU.slot CacheEntry) :
  notStaleAt fc now ->
  LRU.slots (contentCache fc) = l ++ [x] ->
  getOldestKey fc now = Some (LRU.key x).
Proof.
  intros Hfresh Hl. unfold getOldestKey, LRU.keys.
  assert (Hall : filter (fun s => negb (LRU.isStale (contentCache fc) now s))
                        (LRU.slots (contentCache fc))
                 = LRU.slots (contentCache fc)).
  { unfold notStaleAt in Hfresh.
    induction (LRU.slots (contentCache fc)) as [|s r IH] in Hfresh |- *;
      [reflexivity|].
    inversion Hfresh as [|? ? Hs Hr]; subst.
    simpl. rewrite Hs. simpl. f_equal. now apply IH. }
  rewrite Hall, Hl, !map_app. simpl. apply last_last.
Qed.

Lemma accounted_evict_one (fc : FileCache) (now : Z)
      (l : list (LRU.slot CacheEntry)) (x : LRU.slot CacheEntry) :
  accounted fc ->
  LRU.slots (contentCache fc) = l ++ [x] ->
  accounted (contentDelete fc (LRU.key x))
  /\ LRU.slots (contentCache (contentDelete fc (LRU.key x))) = l.
Proof.
  intros (Hcur & Hbud & Hnd & Hall) Hl.
  assert (Hin : LRU.lookup (LRU.key x) (LRU.slots (contentCache fc)) <> None).
  { apply CacheProps.lookup_in. rewrite Hl, map_app. apply in_or_app.
    right. now left. }
  destruct (LRU.lookup (LRU.key x) (LRU.slots (contentCache fc))) as [s|] eqn:Es;
    [|contradiction].
  destruct (lookup_some _ _ _ Es) as [Hs _].
  assert (Hpos : (0 <= size (LRU.value s))%Z).
  { rewrite Forall_forall in Hall. now apply Hall. }
  assert (Hslots : LRU.slots (contentCache (contentDelete fc (LRU.key x))) = l).
  { rewrite CacheProps.contentDelete_slots, Hl.
    unfold keysOf in Hnd. rewrite Hl, map_app in Hnd. simpl in Hnd.
    apply NoDup_remove in Hnd as [_ Hnot]. rewrite app_nil_r in Hnot.
    unfold LRU.remove. rewrite filter_app. simpl.
    rewrite StrFacts.eqb_refl. simpl. rewrite app_nil_r.
    now apply remove_absent. }
  split; [|exact Hslots].
  unfold accounted.
  rewrite liveSize_slots, (contentDelete_currentSize fc _ s Es),
    CacheProps.contentDelete_config, CacheProps.contentDelete_slots.
  rewrite (slotsSize_remove _ _ s Hnd Es).
  rewrite liveSize_slots in Hcur, Hbud.
  split; [lia|]. split; [lia|].
  split; [now apply NoDup_remove_keys|now apply Forall_remove].
Qed.

Lemma notStaleAt_evict_one (fc : FileCache) (now : Z) (k : text) :
  notStaleAt fc now -> notStaleAt (contentDelete fc k) now.
Proof.
  unfold notStaleAt. intros H.
  rewrite CacheProps.contentDelete_slots.
  apply Forall_remove.
  unfold LRU.isStale in *. now rewrite CacheProps.contentDelete_ttl.
Qed.

(** The eviction loop of [set] keeps the accounting, drops entries from the
    least recently used end only, and stops with room for the new entry or
    with an empty cache. *)
Lemma evictLoop_inv (sz now : Z) (fuel : nat) :
  forall fc,
    accounted fc -> notStaleAt fc now ->
    LRU.size (contentCache fc) <= fuel ->
    let fc1 := evictLoop fuel fc sz now in
    accounted fc1
    /\ ((currentSize fc1 + sz <= maxSize (config fc1))%Z
        \/ LRU.slots (contentCache fc1) = [])
    /\ exists k, LRU.slots (contentCache fc1)
                 = firstn k (LRU.slots (contentCache fc)).
Proof.
  induction fuel as [|fuel IH]; intros fc Hacc Hfresh Hfuel.
  - simpl. split; [exact Hacc|]. unfold LRU.size in Hfuel.
    destruct (LRU.slots (contentCache fc)) eqn:E; [|simpl in Hfuel; lia].
    split; [now right|]. exists 0. reflexivity.
  - cbn [evictLoop].
    destruct (maxSize (config fc) <? currentSize fc + sz)%Z eqn:Ebig;
      cbn [andb].
    + destruct (0 <? LRU.size (contentCache fc)) eqn:Esize.
      * apply Nat.ltb_lt in Esize. unfold LRU.size in Esize, Hfuel.
        assert (Hne : LRU.slots (contentCache fc) <> [])
          by (destruct (LRU.slots (contentCache fc)); [simpl in Esize; lia|
              discriminate]).
        destruct (exists_last Hne) as (l & x & Hl).
        rewrite (getOldestKey_last fc now l x Hfresh Hl).
        assert (Hkey : LRU.key x <> []).
        { destruct Hacc as (_ & _ & _ & Hall). rewrite Forall_forall in Hall.
          apply Hall. rewrite Hl. apply in_or_app. right. now left. }
        destruct (LRU.key x) as [|c k] eqn:Ek; [contradiction|].
        rewrite <- Ek in *.
        destruct (accounted_evict_one fc now l x Hacc Hl) as [Hacc' Hslots].
        destruct (IH (contentDelete fc (LRU.key x)) Hacc'
                     (notStaleAt_evict_one fc now _ Hfresh))
          as (Ha & Hb & k' & Hk').
        { unfold LRU.size. rewrite Hslots. rewrite Hl, length_app in Hfuel.
          simpl in Hfuel. lia. }
        split; [exact Ha|]. split; [exact Hb|].
        exists (Nat.min k' (length l)). rewrite Hk', Hslots, Hl.
        rewrite firstn_app.
        destruct (Nat.le_ge_cases k' (length l)) as [Hle|Hge].
        -- replace (Nat.min k' (length l)) with k' by lia.
           replace (k' - length l) with 0 by lia. simpl.
           now rewrite app_nil_r.
        -- replace (Nat.min k' (length l)) with (length l) by lia.
           rewrite Nat.sub_diag. simpl. rewrite app_nil_r.
           now rewrite !firstn_all2 by lia.
      * apply Nat.ltb_ge in Esize. unfold LRU.size in Esize.
        split; [exact Hacc|].
        destruct (LRU.slots (contentCache fc)) eqn:E; [|simpl in Esize; lia].
        split; [now right|]. exists 0. reflexivity.
    + apply Z.ltb_ge in Ebig. split; [exact Hacc|]. split; [now left|].
      exists (length (LRU.slots (contentCache fc))). now rewrite firstn_all.
Qed.

Lemma skipn_last_one {A : Type} (l : list A) (x : A) :
  skipn (length (l ++ [x]) - 1) (l ++ [x]) = [x].
Proof.
  rewrite length_app. simpl.
  replace (length l + 1 - 1) with (length l) by lia.
  rewrite skipn_app, Nat.sub_diag, skipn_all. reflexivity.
Qed.

Ltac fields :=
  cbn [disposeAll fold_left dispose withContent withCurrentSize withStats
       withMetadata currentSize contentCache metadataCache config stats
       LRU.slots LRU.withSlots LRU.ttl LRU.max LRU.key LRU.value LRU.start
       size fst snd map].

Ltac fields_in H :=
  cbn [disposeAll fold_left dispose withContent withCurrentSize withStats
       withMetadata currentSize contentCache metadataCache config stats
       LRU.slots LRU.withSlots LRU.ttl LRU.max LRU.key LRU.value LRU.start
       size fst snd map] in H.

Lemma store_shape (fc : FileCache) (p : text) (e : CacheEntry) (now : Z) :
  accounted fc ->
  ((currentSize fc + size e <= maxSize (config fc))%Z
   \/ LRU.slots (contentCache fc) = []) ->
  p <> [] -> (0 <= size e)%Z -> (size e <= maxSize (config fc))%Z ->
  let fc2 := contentSet fc now p e in
  let fc3 := withCurrentSize fc2 (currentSize fc2 + size e) in
  accounted fc3
  /\ exists k,
      LRU.slots (contentCache fc3)
      = {| LRU.key := p; LRU.value := e;
           LRU.start := LRU.startAt (contentCache fc) now |}
          :: LRU.remove p (firstn k (LRU.slots (contentCache fc))).
Proof.
  intros (Hcur & Hbud & Hnd & Hall) Hexit Hp Hsz0 Hfit.
  rewrite liveSize_slots in Hcur, Hbud.
  unfold contentSet, LRU.set.
  destruct (LRU.lookup p (LRU.slots (contentCache fc))) as [s|] eqn:El.
  - fields.
    destruct (lookup_some _ _ _ El) as [Hin _].
    assert (Hs : (0 <= size (LRU.value s))%Z)
      by (rewrite Forall_forall in Hall; now apply Hall).
    assert (Hne : LRU.slots (contentCache fc) <> [])
      by (intros E; rewrite E in Hin; contradiction).
    destruct Hexit as [Hexit|Hexit]; [|contradiction].
    split.
    + unfold accounted. rewrite liveSize_slots. fields.
      rewrite slotsSize_cons. fields.
      rewrite (slotsSize_remove _ _ s Hnd El).
      split; [lia|]. split; [lia|]. split.
      * constructor; [apply notin_remove|now apply NoDup_remove_keys].
      * constructor; [now split|now apply Forall_remove].
    + exists (length (LRU.slots (contentCache fc))). now rewrite firstn_all.
  - pose proof (lookup_none _ _ El) as Hnot.
    destruct ((N.of_nat (LRU.size (contentCache fc)) =? LRU.max (contentCache fc))%N
              && (0 <? LRU.size (contentCache fc))) eqn:Efull.
    + apply andb_prop in Efull as [_ Hpos]. apply Nat.ltb_lt in Hpos.
      unfold LRU.size in *.
      assert (Hne : LRU.slots (contentCache fc) <> [])
        by (destruct (LRU.slots (contentCache fc)); [simpl in Hpos; lia|
            discriminate]).
      destruct (exists_last Hne) as (l & x & Hl).
      destruct Hexit as [Hexit|Hexit]; [|contradiction].
      rewrite Hl in *. rewrite skipn_last_one, removelast_last. fields.
      rewrite map_app in Hnd, Hnot. rewrite slotsSize_app in Hcur, Hbud.
      rewrite slotsSize_cons in Hcur, Hbud.
      apply Forall_app in Hall as [Hall Hx].
      inversion Hx as [|? ? [_ Hxs] _]; subst.
      assert (Hnl : ~ In p (map (@LRU.key CacheEntry) l))
        by (intros H; apply Hnot, in_or_app; now left).
      split.
      * unfold accounted. rewrite liveSize_slots. fields.
        rewrite slotsSize_cons. fields.
        change (slotsSize []) with 0%Z in *.
        split; [lia|]. split; [lia|]. split.
        -- constructor; [exact Hnl|]. now apply NoDup_app_remove_r in Hnd.
        -- constructor; [now split|exact Hall].
      * exists (length l). rewrite firstn_app, Nat.sub_diag, firstn_all.
        simpl. rewrite app_nil_r. now rewrite remove_absent.
    + fields. split.
      * unfold accounted. rewrite liveSize_slots. fields.
        rewrite slotsSize_cons. fields.
        split; [lia|]. split.
        -- destruct Hexit as [Hexit|Hexit]; [lia|].
           rewrite Hexit in *. change (slotsSize []) with 0%Z in *. lia.
        -- split; [now constructor|]. constructor; [now split|exact Hall].
      * exists (length (LRU.slots (contentCache fc))).
        rewrite firstn_all. now rewrite remove_absent.
Qed.

Lemma set_shape (fc : FileCache) (p body : text) (now : Z) (st : option Stats) :
  accounted fc -> notStaleAt fc now -> p <> [] ->
  let fc' := set fc p body now st in
  accounted fc'
  /\ config fc' = config fc
  /\ LRU.ttl (contentCache fc') = LRU.ttl (contentCache fc)
  /\ exists k,
      let kept := firstn k (LRU.slots (contentCache fc)) in
      LRU.slots (contentCache fc') = kept
      \/ exists e,
          LRU.slots (contentCache fc')
          = {| LRU.key := p; LRU.value := e;
               LRU.start := LRU.startAt (contentCache fc) now |}
              :: LRU.remove p kept.
Proof.
  intros Hacc Hfresh Hp. unfold set.
  assert (Hsame : exists k,
             let kept := firstn k (LRU.slots (contentCache fc)) in
             LRU.slots (contentCache fc) = kept
             \/ exists e,
                 LRU.slots (contentCache fc)
                 = {| LRU.key := p; LRU.value := e;
                      LRU.start := LRU.startAt (contentCache fc) now |}
                     :: LRU.remove p kept).
  { exists (length (LRU.slots (contentCache fc))). left.
    now rewrite firstn_all. }
  destruct (negb (enabled (config fc)));
    [split; [exact Hacc|]; split; [reflexivity|]; split; [reflexivity|exact Hsame]|].
  destruct st as [s|];
    [|split; [exact Hacc|]; split; [reflexivity|]; split; [reflexivity|exact Hsame]].
  set (sz := Z.of_nat (Str.byteLength body)).
  destruct (evictLoop_inv sz now (LRU.size (contentCache fc)) fc Hacc Hfresh
                          (le_n _)) as (Hacc1 & Hexit & k & Hk).
  pose proof (CacheProps.evictLoop_config (LRU.size (contentCache fc)) sz now fc)
    as Hcfg.
  pose proof (CacheProps.evictLoop_ttl (LRU.size (contentCache fc)) sz now fc)
    as Httl.
  set (fc1 := evictLoop (LRU.size (contentCache fc)) fc sz now) in *.
  cbv zeta.
  destruct (maxSize (config fc1) <? sz)%Z eqn:Efit.
  - split; [exact Hacc1|]. split; [exact Hcfg|]. split; [exact Httl|].
    exists k. now left.
  - apply Z.ltb_ge in Efit.
    set (e := {| content := body; mtime := mtimeMs s; size := sz |}).
    destruct (store_shape fc1 p e now Hacc1 Hexit Hp) as (Hacc3 & k' & Hk').
    { apply Nat2Z.is_nonneg. }
    { exact Efit. }
    split; [|split; [|split]].
    + destruct Hacc3 as (H1 & H2 & H3 & H4).
      unfold accounted. rewrite liveSize_slots in *. fields. fold e.
      now repeat split.
    + fields. unfold contentSet.
      destruct (LRU.set now p e (contentCache fc1)) as [d cc].
      now rewrite CacheProps.disposeAll_config.
    + fields. unfold contentSet, LRU.set.
      destruct (LRU.lookup p (LRU.slots (contentCache fc1)));
        [|destruct (_ && _)]; rewrite CacheProps.disposeAll_content; exact Httl.
    + exists (Nat.min k' k). right. exists e. fields.
      fields_in Hk'. rewrite Hk', Hk, firstn_firstn.
      unfold LRU.startAt. now rewrite Httl.
Qed.

Lemma window_fresh (t0 now : Z) (fc : FileCache) :
  window t0 fc ->
  (LRU.ttl (contentCache fc) = 0
   \/ (t0 <= now /\ now <= t0 + LRU.ttl (contentCache fc)))%Z ->
  notStaleAt fc now.
Proof.
  unfold window, notStaleAt. intros Hw Hnow.
  eapply Forall_impl; [|exact Hw].
  intros s Hs. unfold LRU.isStale.
  destruct (LRU.ttl (contentCache fc) =? 0)%Z eqn:Ettl; [reflexivity|].
  destruct (LRU.start s =? 0)%Z eqn:Est; [reflexivity|].
  apply Z.eqb_neq in Ettl. apply Z.eqb_neq in Est. cbn [negb andb].
  apply Z.ltb_ge. destruct Hs as [Hs|Hs]; [contradiction|].
  destruct Hnow as [Hnow|Hnow]; [contradiction|]. lia.
Qed.

Lemma storing_step (cfg : CacheConfig) (t0 : Z) (fc : FileCache) (o : op) :
  storing t0 (ttl cfg) o ->
  accounted fc /\ window t0 fc /\ config fc = cfg
  /\ LRU.ttl (contentCache fc) = ttl cfg ->
  accounted (step fc o) /\ window t0 (step fc o) /\ config (step fc o) = cfg
  /\ LRU.ttl (contentCache (step fc o)) = ttl cfg.
Proof.
  intros Ho (Hacc & Hw & Hcfg & Httl).
  destruct o as [p now later st|p body now st|p now|]; simpl in Ho;
    try contradiction.
  - destruct Ho as [Hp Hnow]. cbn [step].
    rewrite <- Httl in Hnow.
    pose proof (window_fresh t0 now fc Hw Hnow) as Hfresh.
    destruct (set_shape fc p body now st Hacc Hfresh Hp)
      as (Hacc' & Hcfg' & Httl' & k & Hk).
    split; [exact Hacc'|]. split; [|split; congruence].
    unfold window in *. cbv zeta in Hk.
    assert (Hkept : Forall (fun s => LRU.start s = 0%Z \/ (t0 <= LRU.start s)%Z)
                           (firstn k (LRU.slots (contentCache fc))))
      by now apply Forall_firstn.
    destruct Hk as [Hk|[e Hk]]; rewrite Hk; [exact Hkept|].
    constructor; [|now apply Forall_remove].
    cbn [LRU.start]. unfold LRU.startAt.
    destruct (LRU.ttl (contentCache fc) =? 0)%Z eqn:E; [now left|].
    apply Z.eqb_neq in E. right. lia.
  - cbn [step]. unfold invalidateAll, LRU.clear. fields.
    destruct Hacc as (Hcur & Hbud & Hnd & Hall).
    rewrite liveSize_slots in Hbud.
    pose proof (slotsSize_nonneg _ Hall) as Hpos.
    split; [|split; [|split]].
    + unfold accounted. rewrite liveSize_slots. fields.
      rewrite CacheProps.disposeAll_content, CacheProps.disposeAll_config.
      fields. change (slotsSize []) with 0%Z.
      split; [reflexivity|]. split; [lia|]. split; constructor.
    + unfold window. fields. rewrite CacheProps.disposeAll_content. constructor.
    + now rewrite CacheProps.disposeAll_config.
    + now rewrite CacheProps.disposeAll_content.
Qed.

(** X11: from a new cache, any run of [set] calls on non-empty paths and of
    [invalidateAll] calls, made within one time to live (so that no entry
    expires), keeps the byte counter equal to the sum of the sizes of the
    cached entries, and that sum within [maxSize]. *)
Theorem run_storing_accounted (cfg : CacheConfig) (t0 : Z) (ops : list op) :
  (0 <= maxSize cfg)%Z ->
  Forall (storing t0 (ttl cfg)) ops ->
  currentSize (run (create cfg) ops) = liveSize (run (create cfg) ops)
  /\ (liveSize (run (create cfg) ops) <= maxSize cfg)%Z.
Proof.
  intros Hmax Hops.
  assert (Hinit : accounted (create cfg) /\ window t0 (create cfg)
                  /\ config (create cfg) = cfg
                  /\ LRU.ttl (contentCache (create cfg)) = ttl cfg).
  { split; [|split; [constructor|split; reflexivity]].
    split; [reflexivity|]. split; [exact Hmax|]. split; constructor. }
  assert (Hrun : forall fc,
             accounted fc /\ window t0 fc /\ config fc = cfg
             /\ LRU.ttl (contentCache fc) = ttl cfg ->
             accounted (run fc ops) /\ config (run fc ops) = cfg).
  { induction Hops as [|o ops Ho _ IH]; intros fc Hfc.
    - destruct Hfc as (H1 & _ & H3 & _). now split.
    - apply IH. now apply storing_step. }
  destruct (Hrun _ Hinit) as ((Hcur & Hbud & _) & Hcfg).
  rewrite Hcfg in Hbud. now split.
Qed.

Lemma run_storing_accounted_witness :
  let ops := [Set_ (str "/a") five 1 fileStat; Set_ (str "/b") ten 2 fileStat;
              Set_ (str "/c") eleven 3 fileStat; InvalidateAll;
              Set_ (str "/a") five 4 fileStat] in
  currentSize (run (create smallCfg) ops) = liveSize (run (create smallCfg) ops)
  /\ (liveSize (run (create smallCfg) ops) <= maxSize smallCfg)%Z.
Proof.
  apply (run_storing_accounted smallCfg 0).
  - vm_compute. discriminate.
  - repeat constructor; try discriminate; right; vm_compute; split; discriminate.
Defined.

(** X12: [set] evicts from the least recently used end only: when no entry has
    expired, the entries left after it are a prefix of the recency list,
    or the new entry followed by such a prefix without the entry it
    replaces. *)
Theorem set_evicts_least_recent (fc : FileCache) (p body : text) (now : Z)
        (st : option Stats) :
  accounted fc -> notStaleAt fc now -> p <> [] ->
  exists k,
    let kept := firstn k (LRU.slots (contentCache fc)) in
    let after := LRU.slots (contentCache (set fc p body now st)) in
    after = kept
    \/ exists e,
        after = {| LRU.key := p; LRU.value := e;
                   LRU.start := LRU.startAt (contentCache fc) now |}
                  :: LRU.remove p kept.
Proof.
  intros Hacc Hfresh Hp.
  destruct (set_shape fc p body now st Hacc Hfresh Hp) as (_ & _ & _ & k & Hk).
  exists k. exact Hk.
Qed.

Lemma set_evicts_least_recent_witness :
  exists k,
    let kept := firstn k (LRU.slots (contentCache twoCached)) in
    let after := LRU.slots (contentCache (set twoCached (str "/c") five 3 fileStat)) in
    after = kept
    \/ exists e,
        after = {| LRU.key := str "/c"; LRU.value := e;
                   LRU.start := LRU.startAt (contentCache twoCached) 3 |}
                  :: LRU.remove (str "/c") kept.
Proof.
  apply (set_evicts_least_recent twoCached (str "/c") five 3 fileStat).
  - split; [reflexivity|]. split; [vm_compute; discriminate|]. split.
    + vm_compute. repeat constructor; simpl; intros H;
        repeat (destruct H as [H|H]; [discriminate|]); exact H.
    + vm_compute. repeat constructor; discriminate.
  - vm_compute. repeat constructor.
  - discriminate.
Defined.

Lemma contentGet_slots (fc : FileCache) (now : Z) (p : text) :
  LRU.remove p (LRU.slots (contentCache (snd (contentGet fc now p))))
  = LRU.remove p (LRU.slots (contentCache fc)).
Proof.
  unfold contentGet, LRU.get.
  destruct (LRU.lookup p (LRU.slots (contentCache fc))) as [s|]; [|reflexivity].
  destruct (LRU.isStale (contentCache fc) now s); cbn [snd];
    rewrite CacheProps.disposeAll_content; fields.
  - apply remove_idem.
  - rewrite remove_cons. fields. rewrite StrFacts.eqb_refl. apply remove_idem.
Qed.

Lemma contentGet_metadata (fc : FileCache) (now : Z) (p : text) :
  metadataCache (snd (contentGet fc now p)) = metadataCache fc.
Proof.
  unfold contentGet. destruct (LRU.get now p (contentCache fc)) as [[e d] cc].
  cbn [snd]. now rewrite disposeAll_metadata.
Qed.

Lemma contentGet_config (fc : FileCache) (now : Z) (p : text) :
  config (snd (contentGet fc now p)) = config fc.
Proof.
  unfold contentGet. destruct (LRU.get now p (contentCache fc)) as [[e d] cc].
  cbn [snd]. now rewrite CacheProps.disposeAll_config.
Qed.

Lemma delete_slots {V : Type} (k : text) (c : LRU.t V) :
  LRU.slots (snd (LRU.delete k c)) = LRU.remove k (LRU.slots c).
Proof.
  unfold LRU.delete.
  destruct (LRU.lookup k (LRU.slots c)) eqn:E; [reflexivity|].
  cbn [snd]. symmetry. apply remove_absent. now apply lookup_none.
Qed.

(** X13: [invalidate] removes the entry of the path from the content cache and
    from the metadata cache and nothing else: every other entry stays, in the
    same recency order, expired or not, and the configuration is unchanged. *)
Theorem invalidate_removes_only (fc : FileCache) (p : text) (now : Z) :
  LRU.slots (contentCache (invalidate fc p now))
  = LRU.remove p (LRU.slots (contentCache fc))
  /\ LRU.slots (metadataCache (invalidate fc p now))
     = LRU.remove p (LRU.slots (metadataCache fc))
  /\ config (invalidate fc p now) = config fc.
Proof.
  unfold invalidate.
  pose proof (contentGet_slots fc now p) as Hs.
  pose proof (contentGet_metadata fc now p) as Hm.
  pose proof (contentGet_config fc now p) as Hc.
  destruct (contentGet fc now p) as [entry fc1]. cbn [snd] in *.
  set (fc2 := match entry with
              | Some e => withCurrentSize fc1 (currentSize fc1 - size e)
              | None => fc1
              end).
  assert (H2 : contentCache fc2 = contentCache fc1
               /\ metadataCache fc2 = metadataCache fc1
               /\ config fc2 = config fc1)
    by (unfold fc2; destruct entry; now repeat split).
  destruct H2 as (H2c & H2m & H2g).
  fields. split; [|split].
  - now rewrite CacheProps.contentDelete_slots, H2c.
  - now rewrite delete_slots, contentDelete_metadata, H2m, Hm.
  - now rewrite CacheProps.contentDelete_config, H2g.
Qed.

Lemma contentSet_metadata (fc : FileCache) (now : Z) (k : text) (e : CacheEntry) :
  metadataCache (contentSet fc now k e) = metadataCache fc.
Proof.
  unfold contentSet. destruct (LRU.set now k e (contentCache fc)) as [d cc].
  now rewrite disposeAll_metadata.
Qed.

Lemma contentSet_parts (fc : FileCache) (now : Z) (k : text) (e : CacheEntry) :
  config (contentSet fc now k e) = config fc.
Proof.
  unfold contentSet. destruct (LRU.set now k e (contentCache fc)) as [d cc].
  now rewrite CacheProps.disposeAll_config.
Qed.

Lemma set_metadata (fc : FileCache) (p body : text) (now : Z) (s : Stats) :
  enabled (config fc) = true ->
  (Z.of_nat (Str.byteLength body) <= maxSize (config fc))%Z ->
  metadataCache (set fc p body now (Some s))
  = snd (LRU.set now p {| mpath := p; mmtime := mtimeMs s; msize := statSize s |}
                 (metadataCache fc)).
Proof.
  intros Hen Hfit. unfold set. rewrite Hen. cbn [negb]. cbv zeta.
  rewrite CacheProps.evictLoop_config.
  replace (maxSize (config fc) <? Z.of_nat (Str.byteLength body))%Z with false
    by (symmetry; apply Z.ltb_ge; exact Hfit).
  fields. now rewrite contentSet_metadata, evictLoop_metadata.
Qed.

Lemma set_slots {V : Type} (now : Z) (k : text) (v : V) (c : LRU.t V) :
  LRU.ttl (snd (LRU.set now k v c)) = LRU.ttl c
  /\ exists rest,
      LRU.slots (snd (LRU.set now k v c))
      = {| LRU.key := k; LRU.value := v; LRU.start := LRU.startAt c now |} :: rest.
Proof.
  unfold LRU.set.
  destruct (LRU.lookup k (LRU.slots c)); [|destruct (_ && _)];
    (split; [reflexivity|eexists; reflexivity]).
Qed.

(** X14: after a [set] that caches a file, [getMetadata] within the time to
    live answers the metadata recorded by that [set] (the size is the one
    [fs.stat] reported) when the modification time is unchanged; when it has
    changed, or [fs.stat] fails, it answers nothing and drops the metadata
    entry.  In every case the content cache and the byte counter are left
    as they were. *)
Theorem getMetadata_after_set
        (fc : FileCache) (p body : text) (now now' : Z) (s : Stats)
        (st : option Stats) :
  enabled (config fc) = true ->
  (Z.of_nat (Str.byteLength body) <= maxSize (config fc))%Z ->
  (LRU.ttl (metadataCache fc) = 0
   \/ now' - now <= LRU.ttl (metadataCache fc))%Z ->
  let cached := set fc p body now (Some s) in
  let answer := fst (getMetadata cached p now' st) in
  let after := snd (getMetadata cached p now' st) in
  contentCache after = contentCache cached
  /\ currentSize after = currentSize cached
  /\ match st with
     | Some s' =>
         if (mtimeMs s' =? mtimeMs s)%Z
         then answer
              = Some {| mpath := p; mmtime := mtimeMs s; msize := statSize s |}
         else answer = None
              /\ LRU.lookup p (LRU.slots (metadataCache after)) = None
     | None =>
         answer = None /\ LRU.lookup p (LRU.slots (metadataCache after)) = None
     end.
Proof.
  intros Hen Hfit Hwin. cbv zeta.
  pose proof (set_metadata fc p body now s Hen Hfit) as Hmeta.
  assert (Hcfg : enabled (config (set fc p body now (Some s))) = true).
  { destruct (CacheProps.set_caches fc p body now s Hen Hfit) as (Hc & _).
    now rewrite Hc. }
  set (cached := set fc p body now (Some s)) in *.
  set (md := {| mpath := p; mmtime := mtimeMs s; msize := statSize s |}) in *.
  destruct (set_slots now p md (metadataCache fc)) as (Httl & rest & Hslots).
  rewrite <- Hmeta in Httl, Hslots.
  unfold getMetadata. rewrite Hcfg. cbn [negb].
  unfold LRU.get. rewrite Hslots, lookup_cons. fields.
  rewrite StrFacts.eqb_refl.
  assert (Hlive : LRU.isStale (metadataCache cached) now'
                    {| LRU.key := p; LRU.value := md;
                       LRU.start := LRU.startAt (metadataCache fc) now |} = false).
  { unfold LRU.isStale, LRU.startAt. rewrite Httl. fields.
    destruct (LRU.ttl (metadataCache fc) =? 0)%Z eqn:E; [reflexivity|].
    apply Z.eqb_neq in E. destruct Hwin as [Hwin|Hwin]; [contradiction|].
    cbn [negb andb]. apply andb_false_iff. right. apply Z.ltb_ge. exact Hwin. }
  rewrite Hlive. fields.
  destruct st as [s'|].
  - change (mmtime md) with (mtimeMs s).
    destruct (mtimeMs s' =? mtimeMs s)%Z; cbn [negb fst snd]; fields.
    + now repeat split.
    + split; [reflexivity|]. split; [reflexivity|]. split; [reflexivity|].
      rewrite delete_slots. apply CacheProps.lookup_remove.
  - cbn [fst snd]. fields.
    split; [reflexivity|]. split; [reflexivity|]. split; [reflexivity|].
    rewrite delete_slots. apply CacheProps.lookup_remove.
Qed.

Lemma getMetadata_after_set_witness :
  fst (getMetadata (set (create smallCfg) (str "/a") five 1 fileStat)
                   (str "/a") 2 fileStat)
  = Some {| mpath := str "/a"; mmtime := 7; msize := 5 |}.
Proof.
  pose proof (getMetadata_after_set (create smallCfg) (str "/a") five 1 2
                {| mtimeMs := 7; statSize := 5 |} fileStat eq_refl) as H.
  cbv zeta in H. apply H.
  - vm_compute. discriminate.
  - right. vm_compute. discriminate.
Defined.

End CacheExtra.
(** ** Search: the limited search against the unlimited one *)

Module SearchExtra.
Import Spec Scenario.
Import Search.

Section Prefix.

Variable minimatch : text -> text -> bool.
Variable relative : text -> text -> text.
Variable validatePath : option (text -> result exn text).
Variable answered : state -> state.
Hypothesis answered_results : forall st, results (answered st) = results st.
Variable stop : state -> bool.
Variables rootPath pattern : text.
Variable excludePatterns : list text.

Let walk := visit minimatch relative validatePath answered stop rootPath
                  pattern excludePatterns.
Let walkAll := searchEntries minimatch relative validatePath answered stop
                             rootPath pattern excludePatterns.







End Prefix.


End SearchExtra.

(** ** Concurrent request limiter: the counters *)

Module LimiterExtra.
Import Spec Scenario.
Import Limiter.



Lemma occurrences_app (ip : text) (l l' : list text) :
  occurrences ip (l ++ l') = (occurrences ip l + occurrences ip l')%Z.
Proof.
  unfold occurrences. rewrite filter_app, length_app. lia.
Qed.






End LimiterExtra.
(** ** FileCache: the hit and miss counters *)

Module StatsExtra.
Import Spec Scenario.
Import Cache.

Lemma disposeAll_lookups (vs : list CacheEntry) :
  forall fc, lookups (disposeAll fc vs) = lookups fc.
Proof.
  induction vs as [|v vs IH]; intros fc; [reflexivity|].
  simpl. now rewrite IH.
Qed.

Lemma contentGet_lookups (fc : FileCache) (now : Z) (p : text) :
  lookups (snd (contentGet fc now p)) = lookups fc.
Proof.
  unfold contentGet. destruct (LRU.get now p (contentCache fc)) as [[e d] cc].
  cbn [snd]. now rewrite disposeAll_lookups.
Qed.

Lemma contentDelete_lookups (fc : FileCache) (p : text) :
  lookups (contentDelete fc p) = lookups fc.
Proof.
  unfold contentDelete. destruct (LRU.delete p (contentCache fc)) as [d cc].
  now rewrite disposeAll_lookups.
Qed.

Lemma contentSet_lookups (fc : FileCache) (now : Z) (p : text) (e : CacheEntry) :
  lookups (contentSet fc now p e) = lookups fc.
Proof.
  unfold contentSet. destruct (LRU.set now p e (contentCache fc)) as [d cc].
  now rewrite disposeAll_lookups.
Qed.

Lemma evictLoop_lookups (fuel : nat) (sz now : Z) :
  forall fc, lookups (evictLoop fuel fc sz now) = lookups fc.
Proof.
  induction fuel as [|fuel IH]; intros fc; [reflexivity|].
  simpl.
  destruct ((maxSize (config fc) <? currentSize fc + sz)%Z
            && (0 <? LRU.size (contentCache fc))); [|reflexivity].
  destruct (getOldestKey fc now) as [[|c k]|]; try reflexivity.
  now rewrite IH, contentDelete_lookups.
Qed.

Lemma invalidate_lookups (fc : FileCache) (p : text) (now : Z) :
  lookups (invalidate fc p now) = lookups fc
  /\ config (invalidate fc p now) = config fc.
Proof.
  unfold invalidate.
  pose proof (contentGet_lookups fc now p) as Hl.
  pose proof (CacheExtra.contentGet_config fc now p) as Hc.
  destruct (contentGet fc now p) as [entry fc1]. cbn [snd] in *.
  destruct entry as [e|].
  - split.
    + change (lookups (contentDelete (withCurrentSize fc1 (currentSize fc1 - size e)) p)
              = lookups fc).
      now rewrite contentDelete_lookups.
    + cbn [config withMetadata]. now rewrite CacheProps.contentDelete_config.
  - split.
    + change (lookups (contentDelete fc1 p) = lookups fc).
      now rewrite contentDelete_lookups.
    + cbn [config withMetadata]. now rewrite CacheProps.contentDelete_config.
Qed.

Lemma set_lookups (fc : FileCache) (p body : text) (now : Z) (st : option Stats) :
  lookups (set fc p body now st) = lookups fc
  /\ config (set fc p body now st) = config fc.
Proof.
  unfold set. destruct (negb (enabled (config fc))); [now split|].
  destruct st as [s|]; [|now split]. cbv zeta.
  set (sz := Z.of_nat (Str.byteLength body)).
  pose proof (evictLoop_lookups (LRU.size (contentCache fc)) sz now fc) as Hl.
  pose proof (CacheProps.evictLoop_config (LRU.size (contentCache fc)) sz now fc)
    as Hc.
  set (fc1 := evictLoop (LRU.size (contentCache fc)) fc sz now) in *.
  destruct (maxSize (config fc1) <? sz)%Z; [now split|].
  set (e := {| content := body; mtime := mtimeMs s; size := sz |}).
  split.
  - change (lookups (contentSet fc1 now p e) = lookups fc).
    now rewrite contentSet_lookups.
  - cbn [config withMetadata withCurrentSize].
    now rewrite CacheExtra.contentSet_parts.
Qed.

Lemma invalidateAll_lookups (fc : FileCache) :
  lookups (invalidateAll fc) = lookups fc
  /\ config (invalidateAll fc) = config fc.
Proof.
  unfold invalidateAll, LRU.clear. split.
  - change (lookups (disposeAll
                       (withContent fc (LRU.withSlots (contentCache fc) []))
                       (map (@LRU.value CacheEntry) (rev (LRU.slots (contentCache fc)))))
            = lookups fc).
    now rewrite disposeAll_lookups.
  - cbn [config withMetadata withCurrentSize].
    now rewrite CacheProps.disposeAll_config.
Qed.

Lemma get_lookups (fc : FileCache) (p : text) (now later : Z) (st : option Stats) :
  lookups (snd (get fc p now later st))
  = (if enabled (config fc) then S (lookups fc) else lookups fc)
  /\ config (snd (get fc p now later st)) = config fc.
Proof.
  unfold get. destruct (enabled (config fc)); cbn [negb]; [|now split].
  pose proof (contentGet_lookups fc now p) as Hl.
  pose proof (CacheExtra.contentGet_config fc now p) as Hc.
  destruct (contentGet fc now p) as [entry fc1]. cbn [snd] in *.
  assert (Hmiss : forall x, lookups (countMiss x) = S (lookups x))
    by (intros x; unfold lookups; cbn; lia).
  assert (Hhit : forall x, lookups (countHit x) = S (lookups x))
    by (intros x; unfold lookups; cbn; lia).
  destruct entry as [e|]; [|cbn [snd]; rewrite Hmiss; now split; [rewrite Hl|]].
  destruct (invalidate_lookups fc1 p later) as [Hil Hic].
  destruct st as [s|].
  - destruct (negb (mtimeMs s =? mtime e)%Z); cbn [snd].
    + rewrite Hmiss. split; [now rewrite Hil, Hl|].
      cbn [config countMiss withStats]. now rewrite Hic.
    + rewrite Hhit. split; [now rewrite Hl|exact Hc].
  - cbn [snd]. rewrite Hmiss. split; [now rewrite Hil, Hl|].
    cbn [config countMiss withStats]. now rewrite Hic.
Qed.

(** X17: the hit and miss counters together count the [get] calls made on an
    enabled cache, whatever [set], [invalidate] and [invalidateAll] calls
    come between them and whatever gets evicted; a disabled cache counts
    nothing. *)
Theorem stats_count_every_get (cfg : CacheConfig) (ops : list op) :
  lookups (run (create cfg) ops) = if enabled cfg then gets ops else 0.
Proof.
  assert (Hrun : forall fc,
             lookups (run fc ops)
             = lookups fc + (if enabled (config fc) then gets ops else 0)).
  { induction ops as [|o ops IH]; intros fc.
    - cbn. destruct (enabled (config fc)); lia.
    - cbn [run fold_left]. fold (run (step fc o) ops). rewrite IH.
      destruct o as [p now later st|p body now st|p now|]; cbn [step].
      + destruct (get_lookups fc p now later st) as [Hl Hc].
        rewrite Hl, Hc. unfold gets. cbn [filter isGet length].
        destruct (enabled (config fc)); lia.
      + destruct (set_lookups fc p body now st) as [Hl Hc].
        rewrite Hl, Hc. reflexivity.
      + destruct (invalidate_lookups fc p now) as [Hl Hc].
        rewrite Hl, Hc. reflexivity.
      + destruct (invalidateAll_lookups fc) as [Hl Hc].
        rewrite Hl, Hc. reflexivity. }
  rewrite Hrun. reflexivity.
Qed.

End StatsExtra.
